(** * Connectias DVD native layer: catalog queries and title streaming

    A shallow embedding of [feature-dvd/src/main/cpp/dvd_jni.cpp]: the
    time-code and attribute decoders, the catalog queries
    (title, chapter, audio tracks, VOB offsets) and the streaming loop of
    [dvdStreamToFdNative], followed by the properties of the specification
    that concern them.

    Conventions.
    - C integers are [Z]; unsigned arithmetic that can wrap is reduced
      explicitly ([wrap_u32], [wrap_u64]); the [jlong] byte counter is
      reduced to the two's-complement range by [wrap_s64].
    - A C array together with its count field is a [list]; the count is the
      length of the list.  Indexing outside the list is recorded as [Fault]
      (the C++ behaviour there is undefined), and so is a dereference of a
      null pointer.
    - A nullable pointer is an [option].
    - The handle table [g_dvdHandles] is a finite map from handle
      identifiers to the reader bound to it.
    - Logging, progress output and JNI object plumbing carry no result and
      are left out; JNI class and constructor lookups are taken to succeed. *)

From Stdlib Require Import ZArith Lia Bool List Ascii.
From stdpp Require Import base option list gmap strings.

Local Open Scope Z_scope.

(* ===================================================================== *)
(** ** Machine integers *)
(* ===================================================================== *)

Definition wrap_u32 (z : Z) : Z := z mod 2 ^ 32.
Definition wrap_u64 (z : Z) : Z := z mod 2 ^ 64.

(** Two's-complement reduction to the [int64_t] / [jlong] range. *)
Definition wrap_s64 (z : Z) : Z := (z + 2 ^ 63) mod 2 ^ 64 - 2 ^ 63.

(** Two's-complement reduction to the [int] / [jint] / [jsize] range. *)
Definition wrap_s32 (z : Z) : Z := (z + 2 ^ 31) mod 2 ^ 32 - 2 ^ 31.

(* ===================================================================== *)
(** ** Results of native calls *)
(* ===================================================================== *)

(** [Value a] is a normal return; [Fault] marks a null dereference or an
    access outside an array, where the C++ code has undefined behaviour
    (in practice a crash). *)
Inductive result (A : Type) : Type :=
| Value (a : A)
| Fault.
Arguments Value {A} a.
Arguments Fault {A}.

#[global] Instance result_ret : MRet result := fun A a => Value a.

#[global] Instance result_bind : MBind result := fun A B k r =>
  match r with
  | Value a => k a
  | Fault => Fault
  end.

(** [p->field] on a possibly null pointer. *)
Definition deref {A : Type} (p : option A) : result A :=
  match p with
  | Some a => Value a
  | None => Fault
  end.

(** Reduce the binds of the [result] monad, and nothing else. *)
Ltac rsimpl := cbn [mbind result_bind deref].

(** [arr[i]] for a C [int] index. *)
Definition at_index {A : Type} (arr : list A) (i : Z) : result A :=
  if i <? 0 then Fault else deref (arr !! Z.to_nat i).

(** [for (int i = 0; i < n; i++) out[i] = body(i)], started at [i]. *)
Fixpoint for_range {A : Type} (n : nat) (i : Z) (body : Z -> result A)
  : result (list A) :=
  match n with
  | O => Value []
  | S n' =>
      x ← body i;
      xs ← for_range n' (i + 1) body;
      Value (x :: xs)
  end.

(* ===================================================================== *)
(** ** Catalog structures *)
(* ===================================================================== *)

(** Modelled from the spec: the catalog records are declared by the disc
    reading library ([dvdread/ifo_types.h]), which is not part of the
    sources; each record lists the fields that [dvd_jni.cpp] reads. *)

(** BCD time code. *)
Record dvd_time_t : Type := {
  hour : Z;
  minute : Z;
  second : Z;
  frame_u : Z
}.

Record cell_playback_t : Type := {
  cell_playback_time : dvd_time_t;
  first_sector : Z;    (* uint32_t *)
  last_sector : Z      (* uint32_t *)
}.

(** Program chain.  [program_map] has [nr_of_programs] entries, each the
    1-based number of the chapter's entry cell; [cell_playback] has
    [nr_of_cells] entries. *)
Record pgc_t : Type := {
  playback_time : dvd_time_t;
  program_map : list Z;
  cell_playback : list cell_playback_t
}.

Definition nr_of_programs (pgc : pgc_t) : Z := Z.of_nat (length (program_map pgc)).
Definition nr_of_cells (pgc : pgc_t) : Z := Z.of_nat (length (cell_playback pgc)).

Record pgci_srp_t : Type := {
  pgc : option pgc_t
}.

Record pgcit_t : Type := {
  pgci_srp : list pgci_srp_t
}.

Definition nr_of_pgci_srp (t : pgcit_t) : Z := Z.of_nat (length (pgci_srp t)).

Record ptt_info_t : Type := {
  pgcn : Z;
  pgn : Z
}.

Record ttu_t : Type := {
  ptt : list ptt_info_t
}.

Record vts_ptt_srpt_t : Type := {
  ptt_title : list ttu_t
}.

Definition ptt_nr_of_srpts (t : vts_ptt_srpt_t) : Z := Z.of_nat (length (ptt_title t)).

Record title_info_t : Type := {
  nr_of_angles : Z;
  nr_of_ptts : Z;
  title_set_nr : Z;
  vts_ttn : Z
}.

Record tt_srpt_t : Type := {
  title : list title_info_t
}.

Definition nr_of_srpts (t : tt_srpt_t) : Z := Z.of_nat (length (title t)).

Record audio_attr_t : Type := {
  audio_format : Z;       (* 3-bit field *)
  sample_frequency : Z;   (* 2-bit field *)
  channels : Z;           (* 3-bit field *)
  lang_code : Z           (* uint16_t *)
}.

Record subp_attr_t : Type := {
  code_mode : Z;          (* 3-bit field *)
  subp_lang_code : Z      (* uint16_t *)
}.

(** [vts_audio_attr] is a fixed array of 8, [vts_subp_attr] one of 32; the
    stream counts are separate bytes of the table. *)
Record vtsi_mat_t : Type := {
  nr_of_vts_audio_streams : Z;
  vts_audio_attr : list audio_attr_t;
  nr_of_vts_subp_streams : Z;
  vts_subp_attr : list subp_attr_t
}.

(** One parsed information file: the disc-wide manager (number 0) or a
    title set (number 1 and up).  Every table pointer may be null. *)
Record ifo_handle_t : Type := {
  tt_srpt : option tt_srpt_t;
  vtsi_mat : option vtsi_mat_t;
  vts_ptt_srpt : option vts_ptt_srpt_t;
  vts_pgcit : option pgcit_t
}.

(** The reader bound to a handle, seen through the two library calls the
    queries make on it: [ifoOpen(dvd, n)] and
    [DVDOpenFile(dvd, n, DVD_READ_TITLE_VOBS)]. *)
Record dvd_reader_t : Type := {
  ifo_files : gmap Z ifo_handle_t;
  vob_files : gset Z
}.

(** An opened title-set data file, identified by its title-set number. *)
Definition dvd_file_t : Type := Z.

Definition ifoOpen (dvd : dvd_reader_t) (n : Z) : option ifo_handle_t :=
  ifo_files dvd !! n.

Definition DVDOpenFile (dvd : dvd_reader_t) (n : Z) : option dvd_file_t :=
  if decide (n ∈ vob_files dvd) then Some n else None.

(** Modelled from the spec: the sector size [DVD_VIDEO_LB_LEN] of the disc
    reading library (2048 bytes). *)
Definition DVD_VIDEO_LB_LEN : Z := 2048.

(* ===================================================================== *)
(** ** Decoders (dvd_jni.cpp, lines 138-200) *)
(* ===================================================================== *)

(** The two BCD digits of one byte. *)
Definition bcd_byte (b : Z) : Z :=
  Z.land (Z.shiftr b 4) 15 * 10 + Z.land b 15.

Definition dvdTimeToMs (dvd_time : option dvd_time_t) : Z :=
  match dvd_time with
  | None => 0
  | Some t =>
      let hours := bcd_byte (hour t) in
      let minutes := bcd_byte (minute t) in
      let seconds := bcd_byte (second t) in
      let frames := bcd_byte (frame_u t) in
      hours * 3600000 + minutes * 60000 + seconds * 1000 + frames * 33
  end.

(** [std::isalpha] and [std::tolower] on an [unsigned char], C locale. *)
Definition isalpha (c : Z) : bool :=
  ((65 <=? c) && (c <=? 90)) || ((97 <=? c) && (c <=? 122)).

Definition tolower (c : Z) : Z :=
  if (65 <=? c) && (c <=? 90) then c + 32 else c.

Definition char_of (c : Z) : ascii := ascii_of_N (Z.to_N c).

Definition langCodeToString (code : Z) : string :=
  let a := Z.land (Z.shiftr code 8) 255 in
  let b := Z.land code 255 in
  if negb (isalpha a) || negb (isalpha b) then EmptyString
  else String (char_of (tolower a)) (String (char_of (tolower b)) EmptyString).

Definition audioFormatToCodec (fmt : Z) : string :=
  if fmt =? 0 then "AC3"%string
  else if fmt =? 1 then "Unknown"%string
  else if fmt =? 2 then "MPEG1"%string
  else if fmt =? 3 then "MPEG2"%string
  else if fmt =? 4 then "LPCM"%string
  else if fmt =? 5 then "DTS"%string
  else if fmt =? 6 then "SDDS"%string
  else "Unknown"%string.

Definition sampleFrequencyToRate (freq : Z) : Z :=
  let f := Z.land freq 3 in
  if f =? 0 then 48000
  else if f =? 1 then 96000
  else if f =? 2 then 44100
  else if f =? 3 then 32000
  else 0.

(* ===================================================================== *)
(** ** Objects handed back to the host *)
(* ===================================================================== *)

(** [DvdTitleNative(int, int, long)]. *)
Record DvdTitleNative : Type := {
  title_number : Z;
  title_chapterCount : Z;
  title_duration : Z
}.

(** [DvdChapterNative(int, long, long)]. *)
Record DvdChapterNative : Type := {
  chapter_number : Z;
  chapter_startTime : Z;
  chapter_duration : Z
}.

(** [DvdAudioTrackNative(int, String, String, int, int)]; a null language
    reference is [None]. *)
Record DvdAudioTrackNative : Type := {
  audio_index : Z;
  audio_language : option string;
  audio_codec : string;
  audio_channels : Z;
  audio_sampleRate : Z
}.

(** [DvdSubtitleTrackNative(int, String, String)]. *)
Record DvdSubtitleTrackNative : Type := {
  subp_index : Z;
  subp_language : option string;
  subp_type : string
}.

(** [lang.empty() ? nullptr : env->NewStringUTF(lang.c_str())]. *)
Definition jstring_or_null (s : string) : option string :=
  match s with
  | EmptyString => None
  | _ => Some s
  end.

(* ===================================================================== *)
(** ** Catalog queries (dvd_jni.cpp, lines 659-944) *)
(* ===================================================================== *)

Section Catalog.

Variable g_dvdHandles : gmap Z dvd_reader_t.

(** Lines 659-696. *)
Definition dvdGetTitleCountNative (handle : Z) : Z :=
  match g_dvdHandles !! handle with
  | None => -1
  | Some dvd =>
      match ifoOpen dvd 0 with
      | None => 0
      | Some vmg =>
          match tt_srpt vmg with
          | None => 0
          | Some srpt => nr_of_srpts srpt
          end
      end
  end.

(** Lines 698-737.  The range test reads the title table without a null
    check, after the test [titleNumber < 1]; the title set opened is the
    one numbered [vts_ttn], and the chain is the first entry of the chain
    table. *)
Definition dvdReadTitleNative (handle titleNumber : Z)
  : result (option DvdTitleNative) :=
  match g_dvdHandles !! handle with
  | None => Value None
  | Some dvd =>
      match ifoOpen dvd 0 with
      | None => Value None
      | Some vmg =>
          if titleNumber <? 1 then Value None
          else
            srpt ← deref (tt_srpt vmg);
            if titleNumber >? nr_of_srpts srpt then Value None
            else
              entry ← at_index (title srpt) (titleNumber - 1);
              let vtsN := vts_ttn entry in
              match ifoOpen dvd vtsN with
              | None => Value None
              | Some vts =>
                  pgcit ← deref (vts_pgcit vts);
                  srp ← at_index (pgci_srp pgcit) 0;
                  let chapterCount :=
                    match pgc srp with
                    | Some p => nr_of_programs p
                    | None => 0
                    end in
                  let duration :=
                    match pgc srp with
                    | Some p => dvdTimeToMs (Some (playback_time p))
                    | None => 0
                    end in
                  Value (Some {| title_number := titleNumber;
                                 title_chapterCount := chapterCount;
                                 title_duration := duration |})
              end
      end
  end.

(** Body of the loop at lines 788-804. *)
Definition audio_track (mat : vtsi_mat_t) (i : Z) : result DvdAudioTrackNative :=
  attr ← at_index (vts_audio_attr mat) i;
  let lang := langCodeToString (lang_code attr) in
  let codec := audioFormatToCodec (audio_format attr) in
  let sampleRate := sampleFrequencyToRate (sample_frequency attr) in
  let channels := channels attr + 1 in
  Value {| audio_index := i;
           audio_language := jstring_or_null lang;
           audio_codec := codec;
           audio_channels := channels;
           audio_sampleRate := sampleRate |}.

(** Lines 739-811. *)
Definition dvdGetAudioTracksNative (handle titleNumber : Z)
  : result (option (list DvdAudioTrackNative)) :=
  match g_dvdHandles !! handle with
  | None => Value None
  | Some dvd =>
      match ifoOpen dvd 0 with
      | None => Value None
      | Some vmg =>
          match tt_srpt vmg with
          | None => Value None
          | Some srpt =>
              if (titleNumber <? 1) || (titleNumber >? nr_of_srpts srpt)
              then Value None
              else
                entry ← at_index (title srpt) (titleNumber - 1);
                let vtsN := title_set_nr entry in
                match ifoOpen dvd vtsN with
                | None => Value None
                | Some vts =>
                    match vtsi_mat vts with
                    | None => Value None
                    | Some mat =>
                        let count := nr_of_vts_audio_streams mat in
                        if count <=? 0 then Value None
                        else
                          let count := if count >? 8 then 8 else count in
                          tracks ← for_range (Z.to_nat count) 0 (audio_track mat);
                          Value (Some tracks)
                    end
                end
          end
      end
  end.

(** Body of the loop at lines 862-881. *)
Definition subtitle_track (mat : vtsi_mat_t) (i : Z)
  : result DvdSubtitleTrackNative :=
  attr ← at_index (vts_subp_attr mat) i;
  let lang := langCodeToString (subp_lang_code attr) in
  let m := Z.land (code_mode attr) 3 in
  let type :=
    if m =? 0 then "rle"%string
    else if m =? 1 then "extended"%string
    else "subpicture"%string in
  Value {| subp_index := i;
           subp_language := jstring_or_null lang;
           subp_type := type |}.

(** Lines 813-888. *)
Definition dvdGetSubtitleTracksNative (handle titleNumber : Z)
  : result (option (list DvdSubtitleTrackNative)) :=
  match g_dvdHandles !! handle with
  | None => Value None
  | Some dvd =>
      match ifoOpen dvd 0 with
      | None => Value None
      | Some vmg =>
          match tt_srpt vmg with
          | None => Value None
          | Some srpt =>
              if (titleNumber <? 1) || (titleNumber >? nr_of_srpts srpt)
              then Value None
              else
                entry ← at_index (title srpt) (titleNumber - 1);
                let vtsN := title_set_nr entry in
                match ifoOpen dvd vtsN with
                | None => Value None
                | Some vts =>
                    match vtsi_mat vts with
                    | None => Value None
                    | Some mat =>
                        let count := nr_of_vts_subp_streams mat in
                        if count <=? 0 then Value None
                        else
                          let count := if count >? 32 then 32 else count in
                          tracks ← for_range (Z.to_nat count) 0 (subtitle_track mat);
                          Value (Some tracks)
                    end
                end
          end
      end
  end.

(** The loop at lines 923-929: [n] iterations are left, [i] is the loop
    variable, [startTime] the running sum. *)
Fixpoint chapter_start_loop (p : pgc_t) (n : nat) (i : Z) (startTime : Z)
  : result Z :=
  match n with
  | O => Value startTime
  | S n' =>
      startTime' ←
        (if i <? nr_of_programs p then
           entryCell ← at_index (program_map p) i;
           let cellIdx := entryCell - 1 in
           if cellIdx <? nr_of_cells p then
             cell ← at_index (cell_playback p) cellIdx;
             Value (startTime + dvdTimeToMs (Some (cell_playback_time cell)))
           else Value startTime
         else Value startTime);
      chapter_start_loop p n' (i + 1) startTime'
  end.

(** Lines 890-944. *)
Definition dvdReadChapterNative (handle titleNumber chapterNumber : Z)
  : result (option DvdChapterNative) :=
  match g_dvdHandles !! handle with
  | None => Value None
  | Some dvd =>
      match ifoOpen dvd 0 with
      | None => Value None
      | Some vmg =>
          if titleNumber <? 1 then Value None
          else
            srpt ← deref (tt_srpt vmg);
            if titleNumber >? nr_of_srpts srpt then Value None
            else
              entry ← at_index (title srpt) (titleNumber - 1);
              let vtsN := vts_ttn entry in
              match ifoOpen dvd vtsN with
              | None => Value None
              | Some vts =>
                  pgcit ← deref (vts_pgcit vts);
                  srp ← at_index (pgci_srp pgcit) 0;
                  match pgc srp with
                  | None => Value None
                  | Some p =>
                      if chapterNumber >? nr_of_programs p then Value None
                      else
                        startTime ←
                          chapter_start_loop p (Z.to_nat (chapterNumber - 1)) 0 0;
                        entryCell ← at_index (program_map p) (chapterNumber - 1);
                        let cellIdx := entryCell - 1 in
                        duration ←
                          (if cellIdx <? nr_of_cells p then
                             cell ← at_index (cell_playback p) cellIdx;
                             Value (dvdTimeToMs (Some (cell_playback_time cell)))
                           else Value 0);
                        Value (Some {| chapter_number := chapterNumber;
                                       chapter_startTime := startTime;
                                       chapter_duration := duration |})
                  end
              end
      end
  end.

End Catalog.

(* ===================================================================== *)
(** ** VOB offsets (dvd_jni.cpp, lines 1285-1401) *)
(* ===================================================================== *)

(** Lines 1335-1352: the chain found through the part-of-title table,
    else the first chain of the chain table, else null. *)
Definition vob_find_pgc (vts : ifo_handle_t) (vtsTtn : Z)
  : result (option pgc_t) :=
  found ←
    match vts_ptt_srpt vts with
    | Some ptt_srpt =>
        if (vtsTtn >? 0) && (vtsTtn <=? ptt_nr_of_srpts ptt_srpt) then
          ttu ← at_index (ptt_title ptt_srpt) (vtsTtn - 1);
          ptt0 ← at_index (ptt ttu) 0;
          let pgcn := pgcn ptt0 in
          match vts_pgcit vts with
          | Some pgcit =>
              if (pgcn >? 0) && (pgcn <=? nr_of_pgci_srp pgcit) then
                srp ← at_index (pgci_srp pgcit) (pgcn - 1);
                Value (pgc srp)
              else Value None
          | None => Value None
          end
        else Value None
    | None => Value None
    end;
  match found with
  | Some p => Value (Some p)
  | None =>
      match vts_pgcit vts with
      | Some pgcit =>
          if nr_of_pgci_srp pgcit >? 0 then
            srp ← at_index (pgci_srp pgcit) 0;
            Value (pgc srp)
          else Value None
      | None => Value None
      end
  end.

(** Lines 1363-1376: the [offsets] vector after the loop over the cells. *)
Fixpoint vob_collect_offsets (cells : list cell_playback_t) : list Z :=
  match cells with
  | [] => []
  | cell :: rest =>
      let firstSector := first_sector cell in
      let lastSector := last_sector cell in
      if lastSector >=? firstSector
      then firstSector :: lastSector :: vob_collect_offsets rest
      else vob_collect_offsets rest
  end.

(** The returned array is [vtsN, first, last, first, last, ...]; the null
    array is [None]. *)
Definition dvdGetVobOffsetsNative (g_dvdHandles : gmap Z dvd_reader_t)
    (handle titleNumber : Z) : result (option (list Z)) :=
  match g_dvdHandles !! handle with
  | None => Value None
  | Some dvd =>
      match ifoOpen dvd 0 with
      | None => Value None
      | Some vmg =>
          match tt_srpt vmg with
          | None => Value None
          | Some srpt =>
              let numTitles := nr_of_srpts srpt in
              if (titleNumber <? 1) || (titleNumber >? numTitles)
              then Value None
              else
                entry ← at_index (title srpt) (titleNumber - 1);
                let vtsN := title_set_nr entry in
                let vtsTtn := vts_ttn entry in
                match ifoOpen dvd vtsN with
                | None => Value None
                | Some vts =>
                    chain ← vob_find_pgc vts vtsTtn;
                    match chain with
                    | None => Value None
                    | Some p =>
                        let offsets := vob_collect_offsets (cell_playback p) in
                        match offsets with
                        | [] => Value None
                        | _ => Value (Some (vtsN :: offsets))
                        end
                    end
                end
          end
      end
  end.

(* ===================================================================== *)
(** ** Streaming (dvd_jni.cpp, lines 946-1180) *)
(* ===================================================================== *)

(** Modelled from the spec: the error numbers of [<errno.h>] that the sink
    discipline tells apart, with their Linux values: consumer closed
    ([EPIPE]) and transient would-block ([EAGAIN], [EWOULDBLOCK]). *)
Definition EPIPE : Z := 32.
Definition EAGAIN : Z := 11.
Definition EWOULDBLOCK : Z := 11.

Definition BLOCK_COUNT : Z := 128.

(** What the streaming loop did to the outside world, in order. *)
Inductive event : Type :=
| EvRead (file : dvd_file_t) (block count : Z) (ret : Z)
    (* DVDReadBlocks(file, block, count, buffer) returned ret *)
| EvWrite (fd : Z) (offset count : Z) (ret errno : Z).
    (* write(fd, buffer + offset, count) returned ret, with errno *)

(** How a loop was left: it ran to its end, it jumped to [finished], or
    the iteration budget of the model was used up. *)
Inductive exit : Type :=
| Completed
| Finished
| Starved.

(** Outcome of the whole call. *)
Inductive stream_result : Type :=
| Returned (ret : Z)
| Faulted
| OutOfFuel.

(** Lines 1003-1022, the copy of the chain lookup inside the streaming
    function. *)
Definition stream_find_pgc (vts : ifo_handle_t) (vtsTtn : Z)
  : result (option pgc_t) :=
  found ←
    match vts_ptt_srpt vts with
    | Some ptt_srpt =>
        if (vtsTtn >? 0) && (vtsTtn <=? ptt_nr_of_srpts ptt_srpt) then
          ttu ← at_index (ptt_title ptt_srpt) (vtsTtn - 1);
          ptt0 ← at_index (ptt ttu) 0;
          let pgcn := pgcn ptt0 in
          match vts_pgcit vts with
          | Some pgcit =>
              if (pgcn >? 0) && (pgcn <=? nr_of_pgci_srp pgcit) then
                srp ← at_index (pgci_srp pgcit) (pgcn - 1);
                Value (pgc srp)
              else Value None
          | None => Value None
          end
        else Value None
    | None => Value None
    end;
  match found with
  | Some p => Value (Some p)
  | None =>
      match vts_pgcit vts with
      | Some pgcit =>
          if nr_of_pgci_srp pgcit >? 0 then
            srp ← at_index (pgci_srp pgcit) 0;
            Value (pgc srp)
          else Value None
      | None => Value None
      end
  end.

(** Lines 1033-1038: sector total used for the progress output;
    [totalSectors] is the running [uint64_t] sum. *)
Fixpoint totalSectors_loop (cells : list cell_playback_t) (totalSectors : Z) : Z :=
  match cells with
  | [] => totalSectors
  | cell :: rest =>
      if last_sector cell >=? first_sector cell
      then totalSectors_loop rest
             (wrap_u64 (totalSectors
                        + wrap_u32 (last_sector cell - first_sector cell + 1)))
      else totalSectors_loop rest totalSectors
  end.

Section Streaming.

(** The outside world: the state [E] of the backend and of the sink, and
    the two calls the loop makes on it.  [DVDReadBlocks] returns the number
    of blocks read (at most 0 on failure); [write] returns the byte count
    or a negative value, together with [errno]. *)
Context {E : Type}.
Variable DVDReadBlocks : E -> dvd_file_t -> Z -> Z -> Z * E.
Variable write : E -> Z -> Z -> Z -> (Z * Z) * E.

(** The library declares the block offset of [DVDReadBlocks] as [int]
    (its header is not among the sources), while [currentBlock] is a
    [uint32_t]: the call at line 1100 converts it, so a block number from
    2^31 on reaches the library as a negative number. *)
Definition block_arg (currentBlock : Z) : Z := wrap_s32 currentBlock.

(** Lines 1116-1149.  [offset] is [writePtr - buffer]. *)
Fixpoint write_loop (fuel : nat) (outFd : Z) (offset bytesRemaining : Z)
    (totalBytesWritten : Z) (e : E) : exit * Z * E * list event :=
  if bytesRemaining >? 0 then
    match fuel with
    | O => (Starved, totalBytesWritten, e, [])
    | S fuel' =>
        let '(bytesWritten, errno, e1) := write e outFd offset bytesRemaining in
        let ev := EvWrite outFd offset bytesRemaining bytesWritten errno in
        if bytesWritten <? 0 then
          if errno =? EPIPE then (Finished, totalBytesWritten, e1, [ev])
          else if (errno =? EAGAIN) || (errno =? EWOULDBLOCK) then
            let '(x, total, e2, tr) :=
              write_loop fuel' outFd offset bytesRemaining totalBytesWritten e1 in
            (x, total, e2, ev :: tr)
          else (Finished, totalBytesWritten, e1, [ev])
        else if bytesWritten =? 0 then (Finished, totalBytesWritten, e1, [ev])
        else
          let '(x, total, e2, tr) :=
            write_loop fuel' outFd
              (offset + bytesWritten)
              (wrap_u64 (bytesRemaining - bytesWritten))
              (wrap_s64 (totalBytesWritten + bytesWritten)) e1 in
          (x, total, e2, ev :: tr)
    end
  else (Completed, totalBytesWritten, e, []).

(** Lines 1095-1163, without the progress output. *)
Fixpoint read_loop (fuel : nat) (vob : dvd_file_t) (outFd : Z)
    (lastSector currentBlock : Z) (totalBytesWritten : Z) (e : E)
  : exit * Z * E * list event :=
  if currentBlock <=? lastSector then
    match fuel with
    | O => (Starved, totalBytesWritten, e, [])
    | S fuel' =>
        let blocksRemaining := wrap_u32 (lastSector - currentBlock + 1) in
        let blocksToRead :=
          if blocksRemaining >? BLOCK_COUNT then BLOCK_COUNT else blocksRemaining in
        let '(blocksActuallyRead, e1) :=
          DVDReadBlocks e vob (block_arg currentBlock) blocksToRead in
        let ev :=
          EvRead vob (block_arg currentBlock) blocksToRead blocksActuallyRead in
        if blocksActuallyRead <=? 0 then
          let '(x, total, e2, tr) :=
            read_loop fuel' vob outFd lastSector (wrap_u32 (currentBlock + 1))
              totalBytesWritten e1 in
          (x, total, e2, ev :: tr)
        else
          let bytesToWrite := wrap_u64 (blocksActuallyRead * DVD_VIDEO_LB_LEN) in
          let '(xw, total1, e2, trw) :=
            write_loop fuel' outFd 0 bytesToWrite totalBytesWritten e1 in
          match xw with
          | Completed =>
              let '(x, total, e3, tr) :=
                read_loop fuel' vob outFd lastSector
                  (wrap_u32 (currentBlock + blocksActuallyRead)) total1 e2 in
              (x, total, e3, ev :: trw ++ tr)
          | _ => (xw, total1, e2, ev :: trw)
          end
    end
  else (Completed, totalBytesWritten, e, []).

(** Lines 1070-1164: the loop over the cells of the chain. *)
Fixpoint stream_cells (fuel : nat) (vob : dvd_file_t) (outFd : Z)
    (cells : list cell_playback_t) (totalBytesWritten : Z) (e : E)
  : exit * Z * E * list event :=
  match cells with
  | [] => (Completed, totalBytesWritten, e, [])
  | cell :: rest =>
      let firstSector := first_sector cell in
      let lastSector := last_sector cell in
      if lastSector <? firstSector then
        stream_cells fuel vob outFd rest totalBytesWritten e
      else
        let currentBlock := firstSector in
        let '(x1, total1, e1, tr1) :=
          read_loop fuel vob outFd lastSector currentBlock totalBytesWritten e in
        match x1 with
        | Completed =>
            let '(x, total, e2, tr) :=
              stream_cells fuel vob outFd rest total1 e1 in
            (x, total, e2, tr1 ++ tr)
        | _ => (x1, total1, e1, tr1)
        end
  end.

(** Lines 1166-1175: both the end of the cell loop and the label
    [finished] return [totalBytesWritten]. *)
Definition stream_return (r : exit * Z * E * list event)
  : stream_result * list event * E :=
  let '(x, total, e', tr) := r in
  match x with
  | Starved => (OutOfFuel, tr, e')
  | _ => (Returned total, tr, e')
  end.

(** Lines 946-1180.  The read buffer allocation is taken to succeed. *)
Definition dvdStreamToFdNative (g_dvdHandles : gmap Z dvd_reader_t)
    (handle titleNumber outFd : Z) (fuel : nat) (e : E)
  : stream_result * list event * E :=
  match g_dvdHandles !! handle with
  | None => (Returned (-1), [], e)
  | Some dvd =>
      let totalBytesWritten := 0 in
      match ifoOpen dvd 0 with
      | None => (Returned (-1), [], e)
      | Some vmg =>
          match tt_srpt vmg with
          | None => (Returned (-1), [], e)
          | Some srpt =>
              let numTitles := nr_of_srpts srpt in
              if (titleNumber <? 1) || (titleNumber >? numTitles)
              then (Returned (-1), [], e)
              else
                match at_index (title srpt) (titleNumber - 1) with
                | Fault => (Faulted, [], e)
                | Value entry =>
                    let vtsN := title_set_nr entry in
                    let vtsTtn := vts_ttn entry in
                    match ifoOpen dvd vtsN with
                    | None => (Returned (-1), [], e)
                    | Some vts =>
                        match stream_find_pgc vts vtsTtn with
                        | Fault => (Faulted, [], e)
                        | Value None => (Returned (-1), [], e)
                        | Value (Some p) =>
                            match DVDOpenFile dvd vtsN with
                            | None => (Returned (-1), [], e)
                            | Some vob =>
                                stream_return
                                  (stream_cells fuel vob outFd (cell_playback p)
                                     totalBytesWritten e)
                            end
                        end
                    end
                end
          end
      end
  end.

End Streaming.

(* ===================================================================== *)
(** ** Vocabulary of the statements *)
(* ===================================================================== *)

Definition sumZ (l : list Z) : Z := foldr Z.add 0 l.

(** A cell is valid iff its last sector is not before its first. *)
Definition valid_cell (c : cell_playback_t) : bool :=
  first_sector c <=? last_sector c.

Definition cell_range (c : cell_playback_t) : Z * Z :=
  (first_sector c, last_sector c).

(** The ordered (first, last) ranges of the valid cells of a chain. *)
Definition valid_ranges (cells : list cell_playback_t) : list (Z * Z) :=
  map cell_range (List.filter valid_cell cells).

(** Layout of ranges in the returned array: first, last, first, last, ... *)
Fixpoint range_offsets (ranges : list (Z * Z)) : list Z :=
  match ranges with
  | [] => []
  | (firstSector, lastSector) :: rest =>
      firstSector :: lastSector :: range_offsets rest
  end.

(** A decimal digit. *)
Definition is_digit (d : Z) : Prop := 0 <= d <= 9.

(** An ASCII letter, and its lower-case form. *)
Definition ascii_letter (c : Z) : Prop :=
  65 <= c <= 90 \/ 97 <= c <= 122.

Definition lower_case (c : Z) : Z := if c <=? 90 then c + 32 else c.

Definition two_letters (a b : Z) : string :=
  String (ascii_of_N (Z.to_N a)) (String (ascii_of_N (Z.to_N b)) EmptyString).

(** The codec names of the interface. *)
Definition codec_names : list string :=
  ["AC3"; "MPEG1"; "MPEG2"; "LPCM"; "DTS"; "SDDS"; "Unknown"]%string.

(** Duration in milliseconds of the cell with 0-based index [k]; 0 when the
    chain has no such cell. *)
Definition cell_ms (p : pgc_t) (k : nat) : Z :=
  match cell_playback p !! k with
  | Some c => dvdTimeToMs (Some (cell_playback_time c))
  | None => 0
  end.

(** Duration of the entry cell of a chapter, given the chapter's program
    map entry [m] (a 1-based cell number). *)
Definition entry_cell_ms (p : pgc_t) (m : Z) : Z :=
  if m - 1 <? nr_of_cells p then cell_ms p (Z.to_nat (m - 1)) else 0.

(** Sum of the entry-cell durations of the chapters before chapter [ch]. *)
Definition entry_cells_before_ms (p : pgc_t) (ch : Z) : Z :=
  sumZ (map (entry_cell_ms p) (take (Z.to_nat (ch - 1)) (program_map p))).

(** The reading of the specification: chapter [j] (1-based) owns the cells
    from its program map entry up to the cell before the next chapter's
    entry (up to the last cell, for the last chapter). *)
Definition chapter_end_cell (p : pgc_t) (j : nat) : Z :=
  match program_map p !! j with
  | Some next => next
  | None => nr_of_cells p + 1
  end.

Definition chapter_cells_ms (p : pgc_t) (j : nat) : Z :=
  match program_map p !! (j - 1)%nat with
  | Some entry =>
      sumZ (map (fun n => cell_ms p (Z.to_nat (n - 1)))
                (seqZ entry (chapter_end_cell p j - entry)))
  | None => 0
  end.

(** Sum of the durations of all cells of the chapters before chapter [ch]. *)
Definition all_cells_before_ms (p : pgc_t) (ch : Z) : Z :=
  sumZ (map (chapter_cells_ms p) (seq 1 (Z.to_nat (ch - 1)))).

(** The chain that the title and chapter queries read for a title: the
    first chain of the chain table of the title set they open. *)
Definition reads_chain (g_dvdHandles : gmap Z dvd_reader_t)
    (handle titleNumber : Z) (p : pgc_t) : Prop :=
  exists dvd vmg srpt entry vts pgcit srp,
    g_dvdHandles !! handle = Some dvd /\
    ifoOpen dvd 0 = Some vmg /\
    tt_srpt vmg = Some srpt /\
    1 <= titleNumber /\
    title srpt !! Z.to_nat (titleNumber - 1) = Some entry /\
    ifoOpen dvd (vts_ttn entry) = Some vts /\
    vts_pgcit vts = Some pgcit /\
    pgci_srp pgcit !! 0%nat = Some srp /\
    pgc srp = Some p.

(** The first chain of the chain table of the title's own title set, the
    one numbered [title_set_nr], for a title whose in-set title number
    [vts_ttn] is that same number.  The title and chapter queries open the
    title set numbered [vts_ttn]; for these titles it is the title's
    own. *)
Definition first_chain_of_title (g_dvdHandles : gmap Z dvd_reader_t)
    (handle titleNumber : Z) (p : pgc_t) : Prop :=
  exists dvd vmg srpt entry vts pgcit srp,
    g_dvdHandles !! handle = Some dvd /\
    ifoOpen dvd 0 = Some vmg /\
    tt_srpt vmg = Some srpt /\
    1 <= titleNumber /\
    title srpt !! Z.to_nat (titleNumber - 1) = Some entry /\
    vts_ttn entry = title_set_nr entry /\
    ifoOpen dvd (title_set_nr entry) = Some vts /\
    vts_pgcit vts = Some pgcit /\
    pgci_srp pgcit !! 0%nat = Some srp /\
    pgc srp = Some p.

(** Program-chain resolution as streaming performs it: title [titleNumber]
    of the disc bound to [handle] lies in title set [vtsN] and plays
    chain [p]. *)
Definition resolves_to (g_dvdHandles : gmap Z dvd_reader_t)
    (handle titleNumber : Z) (dvd : dvd_reader_t) (vtsN : Z) (p : pgc_t) : Prop :=
  exists vmg srpt entry vts,
    g_dvdHandles !! handle = Some dvd /\
    ifoOpen dvd 0 = Some vmg /\
    tt_srpt vmg = Some srpt /\
    1 <= titleNumber /\
    title srpt !! Z.to_nat (titleNumber - 1) = Some entry /\
    vtsN = title_set_nr entry /\
    ifoOpen dvd vtsN = Some vts /\
    stream_find_pgc vts (vts_ttn entry) = Value (Some p).

(** Bytes accepted by the sink in one event, and over a run. *)
Definition accepted (ev : event) : Z :=
  match ev with
  | EvWrite _ _ _ ret _ => if 0 <? ret then ret else 0
  | EvRead _ _ _ _ => 0
  end.

Definition accepted_bytes (tr : list event) : Z := sumZ (map accepted tr).

(** The sink signals of the specification. *)
Definition would_block (ret errno : Z) : bool :=
  (ret <? 0) && ((errno =? EAGAIN) || (errno =? EWOULDBLOCK)).

Definition consumer_closed (ret errno : Z) : bool :=
  ((ret <? 0) && (errno =? EPIPE)) || (ret =? 0).

Definition other_failure (ret errno : Z) : bool :=
  (ret <? 0) && negb (errno =? EPIPE)
  && negb ((errno =? EAGAIN) || (errno =? EWOULDBLOCK)).

(** A write after which the loop jumps to [finished]. *)
Definition stops (ev : event) : bool :=
  match ev with
  | EvWrite _ _ _ ret errno => consumer_closed ret errno || other_failure ret errno
  | EvRead _ _ _ _ => false
  end.

(** Number of sectors in a list of ranges. *)
Definition range_sectors (ranges : list (Z * Z)) : Z :=
  sumZ (map (fun r : Z * Z => r.2 - r.1 + 1) ranges).

(** A backend that delivers every block asked for, and a sink that takes
    every byte offered. *)
Definition delivers {E : Type} (DVDReadBlocks : E -> dvd_file_t -> Z -> Z -> Z * E)
  : Prop :=
  forall e file block count, (DVDReadBlocks e file block count).1 = count.

Definition accepts {E : Type} (write : E -> Z -> Z -> Z -> (Z * Z) * E) : Prop :=
  forall e fd offset count, (write e fd offset count).1.1 = count.

(** Shape of the events of a loop, by the way the loop was left: no
    stopping write occurs, except as the very last event of a loop left
    through [finished]. *)
Definition run_shape (x : exit) (tr : list event) : Prop :=
  match x with
  | Finished =>
      exists body ev,
        tr = body ++ [ev] /\
        Forall (fun e => stops e = false) body /\
        stops ev = true
  | _ => Forall (fun e => stops e = false) tr
  end.

(** The range of [jlong]. *)
Definition in_s64 (z : Z) : Prop := - 2 ^ 63 <= z < 2 ^ 63.

(** What every loop of the streaming function guarantees about its
    events and about the byte counter it hands on. *)
Definition run_ok {E : Type} (total : Z) (r : exit * Z * E * list event) : Prop :=
  let '(x, total', _, tr) := r in
  run_shape x tr /\
  (in_s64 total -> total' = wrap_s64 (total + accepted_bytes tr)).

Section ReadRanges.

Context {E : Type}.
Variable DVDReadBlocks : E -> dvd_file_t -> Z -> Z -> Z * E.
Variable write : E -> Z -> Z -> Z -> (Z * Z) * E.

(** Reading a list of sector ranges in order: the read loop of the
    streaming function run on each range in turn. *)
Fixpoint read_ranges (fuel : nat) (vob : dvd_file_t) (outFd : Z)
    (ranges : list (Z * Z)) (totalBytesWritten : Z) (e : E)
  : exit * Z * E * list event :=
  match ranges with
  | [] => (Completed, totalBytesWritten, e, [])
  | (firstSector, lastSector) :: rest =>
      let '(x1, total1, e1, tr1) :=
        read_loop DVDReadBlocks write fuel vob outFd lastSector firstSector
          totalBytesWritten e in
      match x1 with
      | Completed =>
          let '(x, total, e2, tr) := read_ranges fuel vob outFd rest total1 e1 in
          (x, total, e2, tr1 ++ tr)
      | _ => (x1, total1, e1, tr1)
      end
  end.

End ReadRanges.

(* ===================================================================== *)
(** ** A sample disc and a scripted outside world *)
(* ===================================================================== *)

Definition bcd_time (h m s f : Z) : dvd_time_t :=
  {| hour := h; minute := m; second := s; frame_u := f |}.

Definition sample_cell (ms_bcd : Z) (firstSector lastSector : Z) : cell_playback_t :=
  {| cell_playback_time := bcd_time 0 0 ms_bcd 0;
     first_sector := firstSector;
     last_sector := lastSector |}.

(** Two chapters: the first has two cells, the second has one. *)
Definition sample_chain_a : pgc_t :=
  {| playback_time := bcd_time 0 0 7 0;
     program_map := [1; 3];
     cell_playback := [sample_cell 1 0 9; sample_cell 2 10 19; sample_cell 4 20 29] |}.

(** One chapter; the middle cell is corrupt (last before first). *)
Definition sample_chain_b : pgc_t :=
  {| playback_time := bcd_time 0 2 3 0;
     program_map := [1];
     cell_playback := [sample_cell 1 100 103; sample_cell 1 200 150; sample_cell 2 300 301] |}.

Definition sample_audio (fmt freq ch lang : Z) : audio_attr_t :=
  {| audio_format := fmt; sample_frequency := freq; channels := ch; lang_code := lang |}.

Definition sample_vtsi_mat : vtsi_mat_t :=
  {| nr_of_vts_audio_streams := 2;
     vts_audio_attr :=
       [sample_audio 5 2 1 17742; sample_audio 0 0 5 12345;
        sample_audio 0 0 0 0; sample_audio 0 0 0 0; sample_audio 0 0 0 0;
        sample_audio 0 0 0 0; sample_audio 0 0 0 0; sample_audio 0 0 0 0];
     nr_of_vts_subp_streams := 0;
     vts_subp_attr := [] |}.

(** Title set 1: the part-of-title table sends title 1 to chain 2. *)
Definition sample_vts : ifo_handle_t :=
  {| tt_srpt := None;
     vtsi_mat := Some sample_vtsi_mat;
     vts_ptt_srpt := Some {| ptt_title := [ {| ptt := [ {| pgcn := 2; pgn := 1 |} ] |} ] |};
     vts_pgcit := Some {| pgci_srp := [ {| pgc := Some sample_chain_a |};
                                        {| pgc := Some sample_chain_b |} ] |} |}.

Definition sample_vmg : ifo_handle_t :=
  {| tt_srpt := Some {| title := [ {| nr_of_angles := 1; nr_of_ptts := 2;
                                      title_set_nr := 1; vts_ttn := 1 |} ] |};
     vtsi_mat := None;
     vts_ptt_srpt := None;
     vts_pgcit := None |}.

Definition sample_dvd : dvd_reader_t :=
  {| ifo_files := <[0 := sample_vmg]> (<[1 := sample_vts]> ∅);
     vob_files := {[ 1 ]} |}.

(** A manager file without title table. *)
Definition bare_vmg : ifo_handle_t :=
  {| tt_srpt := None; vtsi_mat := None; vts_ptt_srpt := None; vts_pgcit := None |}.

Definition bare_dvd : dvd_reader_t :=
  {| ifo_files := <[0 := bare_vmg]> ∅; vob_files := ∅ |}.

(** Handle 1 is the sample disc, handle 2 the disc without title table. *)
Definition sample_handles : gmap Z dvd_reader_t :=
  <[1 := sample_dvd]> (<[2 := bare_dvd]> ∅).

(** A backend that always delivers the blocks asked for, and a sink that
    answers the writes from a script of (return value, errno) pairs and
    accepts everything once the script is used up. *)
Definition scripted_read (e : list (Z * Z)) (file : dvd_file_t)
    (block count : Z) : Z * list (Z * Z) :=
  (count, e).

Definition scripted_write (e : list (Z * Z)) (fd offset count : Z)
  : (Z * Z) * list (Z * Z) :=
  match e with
  | [] => ((count, 0), [])
  | answer :: rest => (answer, rest)
  end.

(** A sink that takes every byte offered. *)
Definition accepting_write (e : list (Z * Z)) (fd offset count : Z)
  : (Z * Z) * list (Z * Z) :=
  ((count, 0), e).

(* ===================================================================== *)
(** ** Handle tables (dvd_jni.cpp, lines 521-657 and 1403-1501) *)
(* ===================================================================== *)

(** [struct VobHandle]: the opened data file, its title-set number and the
    reader it was opened from. *)
Record VobHandle : Type := {
  vh_vob : option dvd_file_t;
  vh_vtsN : Z;
  vh_dvd : dvd_reader_t
}.

(** The file-scope tables and counters. *)
Record globals : Type := {
  g_dvdHandles : gmap Z dvd_reader_t;
  g_nextHandleId : Z;
  g_vobHandles : gmap Z VobHandle;
  g_nextVobHandleId : Z
}.

(** The state at load time: empty tables, both counters at 1. *)
Definition initial_globals : globals :=
  {| g_dvdHandles := ∅; g_nextHandleId := 1;
     g_vobHandles := ∅; g_nextVobHandleId := 1 |}.

Section Handles.

(** The two ways the library binds a reader: [DVDOpen(path)] and
    [DVDOpenStream(source, callbacks)] on a block device of type [D]. *)
Context {D : Type}.
Variable DVDOpen : string -> option dvd_reader_t.
Variable DVDOpenStream : D -> option dvd_reader_t.

(** Lines 600-637.  [path] is [None] when [GetStringUTFChars] fails. *)
Definition dvdOpenNative (st : globals) (path : option string) : Z * globals :=
  match path with
  | None => (-1, st)
  | Some pathStr =>
      match DVDOpen pathStr with
      | None => (-1, st)
      | Some dvd =>
          let handleId := g_nextHandleId st in
          (handleId,
           {| g_dvdHandles := <[handleId := dvd]> (g_dvdHandles st);
              g_nextHandleId := wrap_s64 (handleId + 1);
              g_vobHandles := g_vobHandles st;
              g_nextVobHandleId := g_nextVobHandleId st |})
      end
  end.

(** Lines 547-594. *)
Definition dvdOpenStreamNative (st : globals) (blockDevice : D) : Z * globals :=
  match DVDOpenStream blockDevice with
  | None => (-1, st)
  | Some dvd =>
      let handleId := g_nextHandleId st in
      (handleId,
       {| g_dvdHandles := <[handleId := dvd]> (g_dvdHandles st);
          g_nextHandleId := wrap_s64 (handleId + 1);
          g_vobHandles := g_vobHandles st;
          g_nextVobHandleId := g_nextVobHandleId st |})
  end.

(** Lines 639-657. *)
Definition dvdCloseNative (st : globals) (handle : Z) : globals :=
  if handle <=? 0 then st
  else
    match g_dvdHandles st !! handle with
    | Some _ =>
        {| g_dvdHandles := delete handle (g_dvdHandles st);
           g_nextHandleId := g_nextHandleId st;
           g_vobHandles := g_vobHandles st;
           g_nextVobHandleId := g_nextVobHandleId st |}
    | None => st
    end.

(** Lines 1404-1431. *)
Definition dvdOpenVobFileNative (st : globals) (handle vtsN : Z) : Z * globals :=
  match g_dvdHandles st !! handle with
  | None => (-1, st)
  | Some dvd =>
      match DVDOpenFile dvd vtsN with
      | None => (-1, st)
      | Some vob =>
          let vobHandleId := g_nextVobHandleId st in
          (vobHandleId,
           {| g_dvdHandles := g_dvdHandles st;
              g_nextHandleId := g_nextHandleId st;
              g_vobHandles :=
                <[vobHandleId := {| vh_vob := Some vob; vh_vtsN := vtsN; vh_dvd := dvd |}]>
                  (g_vobHandles st);
              g_nextVobHandleId := wrap_s64 (vobHandleId + 1) |})
      end
  end.

(** Lines 1490-1501. *)
Definition dvdCloseVobFileNative (st : globals) (vobHandle : Z) : globals :=
  match g_vobHandles st !! vobHandle with
  | None => st
  | Some _ =>
      {| g_dvdHandles := g_dvdHandles st;
         g_nextHandleId := g_nextHandleId st;
         g_vobHandles := delete vobHandle (g_vobHandles st);
         g_nextVobHandleId := g_nextVobHandleId st |}
  end.

(** One call on the tables, and a sequence of calls from a given state. *)
Inductive table_call : Type :=
| CallOpen (path : option string)
| CallOpenStream (blockDevice : D)
| CallClose (handle : Z)
| CallOpenVob (handle vtsN : Z)
| CallCloseVob (vobHandle : Z).

Definition table_step (st : globals) (c : table_call) : globals :=
  match c with
  | CallOpen path => (dvdOpenNative st path).2
  | CallOpenStream blockDevice => (dvdOpenStreamNative st blockDevice).2
  | CallClose handle => dvdCloseNative st handle
  | CallOpenVob handle vtsN => (dvdOpenVobFileNative st handle vtsN).2
  | CallCloseVob vobHandle => dvdCloseVobFileNative st vobHandle
  end.

Definition table_run (calls : list table_call) (st : globals) : globals :=
  fold_left table_step calls st.

(** The two ways of opening a disc, by path and by block device, with
    the identifier each returns. *)
Inductive open_request : Type :=
| ByPath (path : option string)
| ByStream (blockDevice : D).

Definition open_disc (st : globals) (req : open_request) : Z * globals :=
  match req with
  | ByPath path => dvdOpenNative st path
  | ByStream blockDevice => dvdOpenStreamNative st blockDevice
  end.

Definition open_request_call (req : open_request) : table_call :=
  match req with
  | ByPath path => CallOpen path
  | ByStream blockDevice => CallOpenStream blockDevice
  end.

End Handles.

(** Every identifier in a table lies between 1 and the counter. *)
Definition ids_below {A : Type} (table : gmap Z A) (next : Z) : Prop :=
  1 <= next /\ forall k a, table !! k = Some a -> 1 <= k < next.

Definition tables_ok (st : globals) : Prop :=
  ids_below (g_dvdHandles st) (g_nextHandleId st) /\
  ids_below (g_vobHandles st) (g_nextVobHandleId st).

Section VobFiles.

(** The backend as in the streaming section, and the outcome of
    [malloc] for a given size. *)
Context {E : Type}.
Variable DVDReadBlocks : E -> dvd_file_t -> Z -> Z -> Z * E.
Variable malloc_ok : Z -> bool.

(** What [dvdReadVobBlocksNative] did, in order. *)
Inductive vob_event : Type :=
| VobMalloc (size : Z)
| VobRead (file : dvd_file_t) (block count : Z) (ret : Z)
| VobCopy (bytes : Z)      (* SetByteArrayRegion(buffer, 0, bytes, tempBuffer) *)
| VobFree.

(** Lines 1434-1487.  [arraySize] is the length of the caller's array. *)
Definition dvdReadVobBlocksNative (st : globals)
    (vobHandle block count arraySize : Z) (e : E) : Z * list vob_event * E :=
  match g_vobHandles st !! vobHandle with
  | None => (-1, [], e)
  | Some h =>
      match vh_vob h with
      | None => (-1, [], e)
      | Some vob =>
          if count <=? 0 then (-1, [], e)
          else
            let bufferSize := wrap_u64 (wrap_s32 (count * DVD_VIDEO_LB_LEN)) in
            if negb (malloc_ok bufferSize) then (-1, [VobMalloc bufferSize], e)
            else
              let '(blocksRead, e1) := DVDReadBlocks e vob block count in
              if blocksRead <=? 0 then
                (if blocksRead =? 0 then 0 else -1,
                 [VobMalloc bufferSize; VobRead vob block count blocksRead; VobFree],
                 e1)
              else
                let bytesRead := wrap_s32 (blocksRead * DVD_VIDEO_LB_LEN) in
                let bytesRead := if arraySize <? bytesRead then arraySize else bytesRead in
                (bytesRead,
                 [VobMalloc bufferSize; VobRead vob block count blocksRead;
                  VobCopy bytesRead; VobFree],
                 e1)
      end
  end.

End VobFiles.

(* ===================================================================== *)
(** ** Disc name (dvd_jni.cpp, lines 1188-1257) *)
(* ===================================================================== *)

(** Modelled from the spec: the two text fields of the manager file that
    the name query reads, declared by the disc reading library: the
    32-byte provider identifier with the sector offset of the text table
    ([vmgi_mat->txtdt_mgi]), and the 12-byte disc name of the text table. *)
Record vmgi_mat_t : Type := {
  provider_identifier : list Z;    (* char[32] *)
  vmgi_txtdt_mgi : Z               (* uint32_t sector offset, 0 when absent *)
}.

Record txtdt_mgi_t : Type := {
  disc_name : list Z               (* char[12] *)
}.

(** The manager file as the name query sees it. *)
Record vmg_name_t : Type := {
  vmgi_mat : option vmgi_mat_t;
  txtdt_mgi : option txtdt_mgi_t
}.

(** [strlen(field) > 0]. *)
Definition nonempty_cstring (field : list Z) : bool :=
  match field with
  | c :: _ => negb (c =? 0)
  | [] => false
  end.

(** The copy loops at lines 1211-1215 and 1237-1241: at most [n] bytes of
    the field are looked at, up to the first NUL, and the bytes that are
    not a space are kept. *)
Fixpoint copy_nonspace (n : nat) (field : list Z) : list Z :=
  match n, field with
  | S n', c :: rest =>
      if c =? 0 then []
      else if negb (c =? 32) && negb (c =? 0)
           then c :: copy_nonspace n' rest
           else copy_nonspace n' rest
  | _, _ => []
  end.

Section DiscName.

(** [ifoOpen(dvd, 0)] seen through the name fields, and what
    [ifoRead_TXTDT_MGI] leaves in [vmg->txtdt_mgi]. *)
Variable ifoOpen_name : dvd_reader_t -> option vmg_name_t.
Variable ifoRead_TXTDT_MGI : vmg_name_t -> option txtdt_mgi_t.

(** The returned string is the list of its bytes; the null string is
    [None]. *)
Definition dvdGetNameNative (g_dvdHandles : gmap Z dvd_reader_t) (handle : Z)
  : option (list Z) :=
  match g_dvdHandles !! handle with
  | None => None
  | Some dvd =>
      match ifoOpen_name dvd with
      | None => None
      | Some vmg =>
          match vmgi_mat vmg with
          | None => None
          | Some mat =>
              let providerId := provider_identifier mat in
              let fromProvider :=
                if nonempty_cstring providerId then
                  let trimmed := copy_nonspace 32 providerId in
                  if 0 <? Z.of_nat (length trimmed) then Some trimmed else None
                else None in
              match fromProvider with
              | Some name => Some name
              | None =>
                  let txtdt :=
                    match txtdt_mgi vmg with
                    | Some t => Some t
                    | None =>
                        if negb (vmgi_txtdt_mgi mat =? 0)
                        then ifoRead_TXTDT_MGI vmg
                        else None
                    end in
                  match txtdt with
                  | None => None
                  | Some t =>
                      let discName := disc_name t in
                      if nonempty_cstring discName then
                        let trimmed := copy_nonspace 12 discName in
                        if 0 <? Z.of_nat (length trimmed) then Some trimmed else None
                      else None
                  end
              end
          end
      end
  end.

End DiscName.

(* ===================================================================== *)
(** ** Block-device callbacks (dvd_jni.cpp, lines 66-112, 152-165, 202-511) *)
(* ===================================================================== *)

(** [struct JavaDataSource]: the byte cursor and the cached block size of
    a bound block device. *)
Record JavaDataSource : Type := {
  position : Z;     (* uint64_t *)
  blockSize : Z     (* int *)
}.

(** The constructor: position 0, block size 2048 unless the device
    class has a [getBlockSize] method, whose answer is then taken. *)
Definition new_JavaDataSource (getBlockSize : option Z) : JavaDataSource :=
  {| position := 0;
     blockSize := match getBlockSize with
                  | Some b => b
                  | None => 2048
                  end |}.

(** How the Java runtime answers the bookkeeping calls of one callback
    invocation. *)
Record jni_answers : Type := {
  vm_loaded : bool;        (* g_vm != nullptr *)
  env_attached : bool;     (* GetEnv(...) == JNI_OK *)
  attach_ok : bool;        (* AttachCurrentThread(...) == JNI_OK *)
  byte_array_ok : bool;    (* NewByteArray(...) != nullptr *)
  int_array_ok : bool;     (* NewIntArray(1) != nullptr *)
  method_ok : bool         (* GetMethodID(...) != nullptr *)
}.

(** What a callback did to the Java runtime, in order. *)
Inductive jni_event : Type :=
| JAttach                                  (* AttachCurrentThread succeeded *)
| JDetach                                  (* DetachCurrentThread *)
| JNewByteArray (size : Z)                 (* a local reference was created *)
| JNewIntArray
| JGetObjectClass                          (* a local reference to the device class *)
| JDeleteLocalRef
| JCallRead (lba : Z) (length : Z)         (* blockDevice.read(lba, buffer, length) *)
| JCallIoctl (op : Z) (data : option (list Z)) (agid : option Z) (lba : Z)
| JExceptionClear
| JCopyOut (bytes : Z).                    (* Get...ArrayRegion into the C buffer *)

(** Lines 152-165. *)
Definition JavaSeekCallback (source : option JavaDataSource) (pos : Z)
  : Z * option JavaDataSource :=
  match source with
  | None => (-1, None)
  | Some src => (0, Some {| position := pos; blockSize := blockSize src |})
  end.

(** Lines 371-375. *)
Definition JavaReadvCallback (source : option JavaDataSource) (blocks : Z) : Z := -1.

Section Callbacks.

(** The Java device: its state [E], its [read(lba, buffer, length)]
    method, returning the byte count and whether an exception is pending,
    and its [cssIoctl(op, data, agid, lba)] method, called with the
    contents of the two arrays ([None] for a null array) and returning the
    status, the contents it left in the byte array and in the
    one-element int array, and whether an exception is pending. *)
Context {E : Type}.
Variable java_read : E -> Z -> Z -> (Z * bool) * E.
Variable java_cssIoctl :
  E -> Z -> option (list Z) -> option Z -> Z -> (Z * list Z * Z * bool) * E.

Definition detach_if (attached : bool) : list jni_event :=
  if attached then [JDetach] else [].

(** Lines 202-369.  The result is the return value, the source after the
    call, the runtime events and the device state; a zero block size is a
    division by zero. *)
Definition JavaReadCallback (jni : jni_answers) (source : option JavaDataSource)
    (size : Z) (e : E)
  : result (Z * option JavaDataSource * list jni_event * E) :=
  match source with
  | None => Value (-1, None, [], e)
  | Some src =>
      if negb (vm_loaded jni) then Value (-1, source, [], e)
      else if negb (env_attached jni) && negb (attach_ok jni)
      then Value (-1, source, [], e)
      else
        let attached := negb (env_attached jni) in
        let entered := if attached then [JAttach] else [] in
        if negb (byte_array_ok jni)
        then Value (-1, source, entered ++ detach_if attached, e)
        else
          let startByte := wrap_s64 (position src) in
          if blockSize src =? 0 then Fault
          else
            let startLba := Z.quot startByte (blockSize src) in
            if negb (method_ok jni)
            then Value (-1, source,
                        entered ++ [JNewByteArray size; JGetObjectClass;
                                    JDeleteLocalRef]
                          ++ detach_if attached, e)
            else
              let '((bytesRead, exception), e1) := java_read e startLba size in
              if exception
              then Value (-1, source,
                          entered ++ [JNewByteArray size; JGetObjectClass;
                                      JCallRead startLba size;
                                      JExceptionClear; JDeleteLocalRef]
                            ++ detach_if attached, e1)
              else if bytesRead >? 0
              then Value (bytesRead,
                          Some {| position := wrap_u64 (position src + bytesRead);
                                  blockSize := blockSize src |},
                          entered ++ [JNewByteArray size; JGetObjectClass;
                                      JCallRead startLba size;
                                      JCopyOut bytesRead; JDeleteLocalRef]
                            ++ detach_if attached, e1)
              else
                Value (if bytesRead =? 0 then 0 else -1, source,
                       entered ++ [JNewByteArray size; JGetObjectClass;
                                   JCallRead startLba size; JDeleteLocalRef]
                         ++ detach_if attached, e1)
  end.

(** The opcodes that carry caller data to the device: send challenge
    (0x11) and send key (0x12). *)
Definition is_send_op (op : Z) : bool := (op =? 17) || (op =? 18).

(** Lines 381-511.  [data] is the caller's buffer ([None] for a null
    pointer), which holds at least [data_size] bytes, and [agid] the
    caller's session identifier; the result is the return value, the
    buffer and the identifier after the call, the runtime events and the
    device state.  The device answers with the contents of the byte array
    (of [data_size] elements) after the call; [GetByteArrayRegion] at
    line 479 copies them over the first [data_size] bytes of the buffer
    and leaves the bytes behind them as they were. *)
Definition JavaIoctlCallback (jni : jni_answers) (source : option JavaDataSource)
    (op : Z) (data : option (list Z)) (data_size : Z) (agid : option Z) (lba : Z)
    (e : E)
  : Z * option (list Z) * option Z * list jni_event * E :=
  match source with
  | None => (-1, data, agid, [], e)
  | Some src =>
      if negb (vm_loaded jni) then (-1, data, agid, [], e)
      else if negb (env_attached jni) && negb (attach_ok jni)
      then (-1, data, agid, [], e)
      else
        let attached := negb (env_attached jni) in
        let entered := if attached then [JAttach] else [] in
        if negb (method_ok jni)
        then (-1, data, agid, entered ++ [JGetObjectClass] ++ detach_if attached, e)
        else
          let javaData :=
            match data with
            | Some bytes =>
                if (0 <? data_size) && byte_array_ok jni then
                  Some (if is_send_op op then take (Z.to_nat data_size) bytes
                        else replicate (Z.to_nat data_size) 0)
                else None
            | None => None
            end in
          let agidArray :=
            if int_array_ok jni then
              Some match agid with
                   | Some a => a
                   | None => 0
                   end
            else None in
          let created :=
            JGetObjectClass
            :: match javaData with
               | Some _ => [JNewByteArray data_size]
               | None => []
               end ++ if int_array_ok jni then [JNewIntArray] else [] in
          let '((ret, javaData', agidArray', exception), e1) :=
            java_cssIoctl e op javaData agidArray lba in
          let called := [JCallIoctl op javaData agidArray lba] in
          let released :=
            match javaData with
            | Some _ => [JDeleteLocalRef]
            | None => []
            end ++ (if int_array_ok jni then [JDeleteLocalRef] else [])
            ++ detach_if attached in
          if exception
          then (-1, data, agid,
                entered ++ created ++ called ++ [JExceptionClear] ++ released, e1)
          else
            let data' :=
              match javaData, data with
              | Some _, Some bytes =>
                  if (ret =? 0) && (0 <? data_size) && negb (is_send_op op)
                  then Some (take (Z.to_nat data_size) javaData'
                             ++ drop (Z.to_nat data_size) bytes)
                  else data
              | _, _ => data
              end in
            let agid' :=
              match agidArray, agid with
              | Some _, Some _ => if ret =? 0 then Some agidArray' else agid
              | _, _ => agid
              end in
            (ret, data', agid', entered ++ created ++ called ++ released, e1)
  end.

End Callbacks.

(** The thread attachments a run leaves open: attachments minus
    detachments. *)
Fixpoint open_attachments (tr : list jni_event) : Z :=
  match tr with
  | [] => 0
  | JAttach :: rest => 1 + open_attachments rest
  | JDetach :: rest => open_attachments rest - 1
  | _ :: rest => open_attachments rest
  end.

(** The local references a run leaves open. *)
Fixpoint open_local_refs (tr : list jni_event) : Z :=
  match tr with
  | [] => 0
  | JNewByteArray _ :: rest => 1 + open_local_refs rest
  | JNewIntArray :: rest => 1 + open_local_refs rest
  | JGetObjectClass :: rest => 1 + open_local_refs rest
  | JDeleteLocalRef :: rest => open_local_refs rest - 1
  | _ :: rest => open_local_refs rest
  end.

(** A library that opens the sample disc at one path and on every block
    device, and nothing else. *)
Definition sample_DVDOpen (path : string) : option dvd_reader_t :=
  if String.eqb path "/dev/sr0" then Some sample_dvd else None.

Definition sample_DVDOpenStream (blockDevice : unit) : option dvd_reader_t :=
  Some sample_dvd.

(** The tables after the sample disc was opened as handle 1 and its title
    set 1 as VOB handle 1. *)
Definition sample_globals : globals :=
  table_run sample_DVDOpen sample_DVDOpenStream
    [CallOpen (Some "/dev/sr0"%string); CallOpenVob 1 1] initial_globals.

(** An allocator that never fails. *)
Definition always_malloc (size : Z) : bool := true.

(** A backend at its end: every read delivers 0 blocks. *)
Definition exhausted_read (e : list (Z * Z)) (file : dvd_file_t)
    (block count : Z) : Z * list (Z * Z) :=
  (0, e).

(** The bytes of the C string held in a field: those before the first
    NUL. *)
Fixpoint cstring (field : list Z) : list Z :=
  match field with
  | [] => []
  | c :: rest => if c =? 0 then [] else c :: cstring rest
  end.

(** A byte string with every space (32) removed. *)
Definition without_spaces (bytes : list Z) : list Z :=
  List.filter (fun c => negb (c =? 32)) bytes.

(** The name a text field yields: its C string, cut at the field width,
    without spaces; nothing when that is empty. *)
Definition field_name (width : nat) (field : list Z) : option (list Z) :=
  match without_spaces (cstring (take width field)) with
  | [] => None
  | name => Some name
  end.

(** A manager file whose provider identifier reads "MY DISC" and whose
    text table, once loaded, names the disc "FILM 1". *)
Definition sample_name_vmg : vmg_name_t :=
  {| vmgi_mat := Some {| provider_identifier :=
                           [77; 89; 32; 68; 73; 83; 67] ++ replicate 25 0;
                         vmgi_txtdt_mgi := 7 |};
     txtdt_mgi := None |}.

Definition sample_ifoOpen_name (dvd : dvd_reader_t) : option vmg_name_t :=
  Some sample_name_vmg.

Definition sample_ifoRead_TXTDT_MGI (vmg : vmg_name_t) : option txtdt_mgi_t :=
  Some {| disc_name := [70; 73; 76; 77; 32; 49] ++ replicate 6 0 |}.

(** The device-class references a run obtained. *)
Fixpoint class_refs (tr : list jni_event) : Z :=
  match tr with
  | [] => 0
  | JGetObjectClass :: rest => 1 + class_refs rest
  | _ :: rest => class_refs rest
  end.

(** The runtime answers on which a callback gets as far as the device:
    the VM is loaded, the thread is or can be attached, the arrays can be
    created and the method is found. *)
Definition jni_reaches_device (jni : jni_answers) : Prop :=
  vm_loaded jni = true /\
  (env_attached jni = true \/ attach_ok jni = true) /\
  byte_array_ok jni = true /\
  method_ok jni = true.

(** A runtime on a thread that is not attached yet, and one on an
    attached thread; everything else succeeds. *)
Definition fresh_thread_jni : jni_answers :=
  {| vm_loaded := true; env_attached := false; attach_ok := true;
     byte_array_ok := true; int_array_ok := true; method_ok := true |}.

Definition attached_thread_jni : jni_answers :=
  {| vm_loaded := true; env_attached := true; attach_ok := true;
     byte_array_ok := true; int_array_ok := true; method_ok := true |}.

(** A device that delivers every byte asked for, and one whose [cssIoctl]
    reports success, fills the byte array with 7s and sets the session
    identifier to 3. *)
Definition full_java_read (e : unit) (lba length : Z) : (Z * bool) * unit :=
  ((length, false), e).

Definition sample_cssIoctl (e : unit) (op : Z) (data : option (list Z))
    (agid : option Z) (lba : Z) : (Z * list Z * Z * bool) * unit :=
  ((0, match data with
       | Some bytes => replicate (length bytes) 7
       | None => []
       end, 3, false), e).

(** The read buffer of the streaming loop holds [BLOCK_COUNT] sectors.  A
    read fits when it asks for at most that many blocks; a write fits
    when it lies inside the buffer. *)
Definition read_fits (ev : event) : Prop :=
  match ev with
  | EvRead _ _ count _ => 0 <= count <= BLOCK_COUNT
  | EvWrite _ _ _ _ _ => True
  end.

Definition fits_buffer (ev : event) : Prop :=
  match ev with
  | EvRead _ _ count _ => 0 <= count <= BLOCK_COUNT
  | EvWrite _ offset count _ _ =>
      0 <= offset /\ 0 < count /\ offset + count <= BLOCK_COUNT * DVD_VIDEO_LB_LEN
  end.

(** A backend that never reports more blocks than asked for, and a sink
    that never reports more bytes than offered. *)
Definition bounded_read {E : Type}
    (DVDReadBlocks : E -> dvd_file_t -> Z -> Z -> Z * E) : Prop :=
  forall e file block count, (DVDReadBlocks e file block count).1 <= count.

Definition bounded_write {E : Type}
    (write : E -> Z -> Z -> Z -> (Z * Z) * E) : Prop :=
  forall e fd offset count, (write e fd offset count).1.1 <= count.

(** A backend on which every read fails. *)
Definition unreadable {E : Type}
    (DVDReadBlocks : E -> dvd_file_t -> Z -> Z -> Z * E) : Prop :=
  forall e file block count, (DVDReadBlocks e file block count).1 <= 0.

(** The sectors a run obtained from the backend, and the blocks at which
    it issued a read, in order. *)
Definition sectors_read (tr : list event) : list Z :=
  flat_map (fun ev => match ev with
                      | EvRead _ block _ ret => seqZ block ret
                      | EvWrite _ _ _ _ _ => []
                      end) tr.

Definition blocks_tried (tr : list event) : list Z :=
  flat_map (fun ev => match ev with
                      | EvRead _ block _ _ => [block]
                      | EvWrite _ _ _ _ _ => []
                      end) tr.

(** The sectors of a list of ranges, in order. *)
Definition range_sector_list (ranges : list (Z * Z)) : list Z :=
  flat_map (fun r : Z * Z => seqZ r.1 (r.2 - r.1 + 1)) ranges.

(** A backend on which every read fails with -1. *)
Definition failing_read (e : list (Z * Z)) (file : dvd_file_t)
    (block count : Z) : Z * list (Z * Z) :=
  (-1, e).

(** A chain whose only cell ends at the top of the 32-bit sector
    numbers, on a disc of its own. *)
Definition endless_chain : pgc_t :=
  {| playback_time := bcd_time 0 0 1 0;
     program_map := [1];
     cell_playback := [sample_cell 1 0 (2 ^ 32 - 1)] |}.

Definition endless_dvd : dvd_reader_t :=
  {| ifo_files :=
       <[0 := sample_vmg]>
         (<[1 := {| tt_srpt := None; vtsi_mat := None; vts_ptt_srpt := None;
                    vts_pgcit := Some {| pgci_srp := [ {| pgc := Some endless_chain |} ] |} |}]> ∅);
     vob_files := {[ 1 ]} |}.

Definition endless_handles : gmap Z dvd_reader_t := <[1 := endless_dvd]> ∅.

(** A read that failed: the backend reported no block. *)
Definition failed_read (ev : event) : Prop :=
  match ev with
  | EvRead _ _ _ ret => ret <= 0
  | EvWrite _ _ _ _ _ => False
  end.

(** A title set with three subpicture streams and a chain whose second
    program-map entry is 0, on a disc of its own. *)
Definition sample_subp (mode lang : Z) : subp_attr_t :=
  {| code_mode := mode; subp_lang_code := lang |}.

Definition subtitled_vtsi_mat : vtsi_mat_t :=
  {| nr_of_vts_audio_streams := 0;
     vts_audio_attr := replicate 8 (sample_audio 0 0 0 0);
     nr_of_vts_subp_streams := 3;
     vts_subp_attr :=
       [sample_subp 0 25966; sample_subp 1 25701; sample_subp 6 0]
       ++ replicate 29 (sample_subp 0 0) |}.

Definition gapped_chain : pgc_t :=
  {| playback_time := bcd_time 0 0 3 0;
     program_map := [1; 0];
     cell_playback := [sample_cell 1 0 9; sample_cell 2 10 19] |}.

Definition subtitled_vts : ifo_handle_t :=
  {| tt_srpt := None;
     vtsi_mat := Some subtitled_vtsi_mat;
     vts_ptt_srpt := None;
     vts_pgcit := Some {| pgci_srp := [ {| pgc := Some gapped_chain |} ] |} |}.

Definition subtitled_dvd : dvd_reader_t :=
  {| ifo_files := <[0 := sample_vmg]> (<[1 := subtitled_vts]> ∅);
     vob_files := {[ 1 ]} |}.

Definition subtitled_handles : gmap Z dvd_reader_t := <[1 := subtitled_dvd]> ∅.

(** A read of the given data file; a write says nothing of files. *)
Definition reads_from (file : dvd_file_t) (ev : event) : Prop :=
  match ev with
  | EvRead f _ _ _ => f = file
  | EvWrite _ _ _ _ _ => True
  end.





(** A disc whose only title lies in title set 2 and is title 1 inside it:
    title set 1 holds the two sample chains, title set 2 the second one
    alone. *)
Definition second_set_vmg : ifo_handle_t :=
  {| tt_srpt := Some {| title := [ {| nr_of_angles := 1; nr_of_ptts := 1;
                                      title_set_nr := 2; vts_ttn := 1 |} ] |};
     vtsi_mat := None;
     vts_ptt_srpt := None;
     vts_pgcit := None |}.

Definition second_set_vts : ifo_handle_t :=
  {| tt_srpt := None; vtsi_mat := None; vts_ptt_srpt := None;
     vts_pgcit := Some {| pgci_srp := [ {| pgc := Some sample_chain_b |} ] |} |}.

Definition second_set_dvd : dvd_reader_t :=
  {| ifo_files :=
       <[0 := second_set_vmg]> (<[1 := sample_vts]> (<[2 := second_set_vts]> ∅));
     vob_files := {[ 1; 2 ]} |}.

Definition second_set_handles : gmap Z dvd_reader_t := <[1 := second_set_dvd]> ∅.

(** A chain whose only cell begins at sector 2^31, on a disc of its
    own. *)
Definition high_chain : pgc_t :=
  {| playback_time := bcd_time 0 0 1 0;
     program_map := [1];
     cell_playback := [sample_cell 1 (2 ^ 31) (2 ^ 31 + 1)] |}.

Definition high_vts : ifo_handle_t :=
  {| tt_srpt := None; vtsi_mat := None; vts_ptt_srpt := None;
     vts_pgcit := Some {| pgci_srp := [ {| pgc := Some high_chain |} ] |} |}.

Definition high_dvd : dvd_reader_t :=
  {| ifo_files := <[0 := sample_vmg]> (<[1 := high_vts]> ∅);
     vob_files := {[ 1 ]} |}.

Definition high_handles : gmap Z dvd_reader_t := <[1 := high_dvd]> ∅.

(* ===================================================================== *)
(** * Properties *)
(* ===================================================================== *)

(** ** Time codes *)

Lemma digit_cases (d : Z) :
  is_digit d ->
  d = 0 \/ d = 1 \/ d = 2 \/ d = 3 \/ d = 4 \/
  d = 5 \/ d = 6 \/ d = 7 \/ d = 8 \/ d = 9.
Proof. unfold is_digit. lia. Qed.

Lemma bcd_byte_digits (hi lo : Z) :
  is_digit hi -> is_digit lo -> bcd_byte (16 * hi + lo) = 10 * hi + lo.
Proof.
  intros Hhi Hlo.
  destruct (digit_cases hi Hhi) as [-> | [-> | [-> | [-> | [-> | [-> | [-> | [-> | [-> | ->]]]]]]]]];
  destruct (digit_cases lo Hlo) as [-> | [-> | [-> | [-> | [-> | [-> | [-> | [-> | [-> | ->]]]]]]]]];
  reflexivity.
Qed.

(** C9.  A time code whose four bytes each hold two decimal digits decodes
    to h*3600000 + m*60000 + s*1000 + f*33 milliseconds, h, m, s and f
    being the two-digit decimal values of the bytes; the time code
    hour=0x01, minute=0x02, second=0x03, frame_u=0x00 decodes to
    3723000 ms. *)
Theorem dvdTimeToMs_bcd (h1 h0 m1 m0 s1 s0 f1 f0 : Z) :
  is_digit h1 -> is_digit h0 -> is_digit m1 -> is_digit m0 ->
  is_digit s1 -> is_digit s0 -> is_digit f1 -> is_digit f0 ->
  dvdTimeToMs (Some {| hour := 16 * h1 + h0; minute := 16 * m1 + m0;
                       second := 16 * s1 + s0; frame_u := 16 * f1 + f0 |})
  = (10 * h1 + h0) * 3600000 + (10 * m1 + m0) * 60000
    + (10 * s1 + s0) * 1000 + (10 * f1 + f0) * 33
  /\ dvdTimeToMs (Some {| hour := 1; minute := 2; second := 3; frame_u := 0 |})
     = 3723000.
Proof.
  intros Hh1 Hh0 Hm1 Hm0 Hs1 Hs0 Hf1 Hf0. split; [| reflexivity].
  unfold dvdTimeToMs. cbn [hour minute second frame_u].
  rewrite !bcd_byte_digits by assumption. reflexivity.
Qed.

Lemma dvdTimeToMs_bcd_witness :
  dvdTimeToMs (Some {| hour := 16 * 1 + 2; minute := 16 * 3 + 4;
                       second := 16 * 5 + 6; frame_u := 16 * 2 + 4 |})
  = (10 * 1 + 2) * 3600000 + (10 * 3 + 4) * 60000
    + (10 * 5 + 6) * 1000 + (10 * 2 + 4) * 33
  /\ dvdTimeToMs (Some {| hour := 1; minute := 2; second := 3; frame_u := 0 |})
     = 3723000.
Proof.
  apply (dvdTimeToMs_bcd 1 2 3 4 5 6 2 4); unfold is_digit; lia.
Defined.

(** ** Audio attributes *)

Lemma audioFormatToCodec_enum (fmt : Z) :
  audioFormatToCodec fmt ∈ codec_names.
Proof.
  unfold audioFormatToCodec, codec_names.
  repeat (case_match; [set_solver |]). set_solver.
Qed.

Lemma audioFormatToCodec_table :
  audioFormatToCodec 0 = "AC3"%string /\
  audioFormatToCodec 1 = "Unknown"%string /\
  audioFormatToCodec 2 = "MPEG1"%string /\
  audioFormatToCodec 3 = "MPEG2"%string /\
  audioFormatToCodec 4 = "LPCM"%string /\
  audioFormatToCodec 5 = "DTS"%string /\
  audioFormatToCodec 6 = "SDDS"%string /\
  audioFormatToCodec 7 = "Unknown"%string.
Proof. repeat split. Qed.

Lemma sampleFrequencyToRate_table :
  sampleFrequencyToRate 0 = 48000 /\ sampleFrequencyToRate 1 = 96000 /\
  sampleFrequencyToRate 2 = 44100 /\ sampleFrequencyToRate 3 = 32000.
Proof. repeat split. Qed.

Lemma isalpha_letter (c : Z) : isalpha c = true <-> ascii_letter c.
Proof. unfold isalpha, ascii_letter. lia. Qed.

Lemma tolower_letter (c : Z) : ascii_letter c -> tolower c = lower_case c.
Proof.
  unfold tolower, lower_case, ascii_letter. intros H.
  destruct (Z.leb_spec 65 c), (Z.leb_spec c 90); cbn; lia.
Qed.

(** The language code: lower-cased pair when both bytes are letters, empty
    otherwise. *)
Lemma langCodeToString_spec (code : Z) :
  let a := Z.land (Z.shiftr code 8) 255 in
  let b := Z.land code 255 in
  (ascii_letter a /\ ascii_letter b ->
     langCodeToString code = two_letters (lower_case a) (lower_case b)) /\
  (~ (ascii_letter a /\ ascii_letter b) ->
     langCodeToString code = EmptyString).
Proof.
  intros a b. unfold langCodeToString. fold a b. split.
  - intros [Ha Hb].
    rewrite (proj2 (isalpha_letter a) Ha), (proj2 (isalpha_letter b) Hb). cbn.
    rewrite !tolower_letter by assumption. reflexivity.
  - intros Hn.
    destruct (isalpha a) eqn:Ea; [| reflexivity].
    destruct (isalpha b) eqn:Eb; [| reflexivity].
    exfalso. apply Hn. split; apply isalpha_letter; assumption.
Qed.

Lemma langCodeToString_EN : langCodeToString (69 * 256 + 78) = "en"%string.
Proof. reflexivity. Qed.

Lemma jstring_or_null_two_letters (a b : Z) :
  jstring_or_null (two_letters a b) = Some (two_letters a b).
Proof. reflexivity. Qed.

(** Indexing inside an array succeeds. *)
Lemma at_index_lookup {A : Type} (arr : list A) (i : Z) (x : A) :
  0 <= i -> arr !! Z.to_nat i = Some x -> at_index arr i = Value x.
Proof.
  intros Hi Hx. unfold at_index.
  destruct (Z.ltb_spec i 0); [lia |]. rewrite Hx. reflexivity.
Qed.

Lemma at_index_Value {A : Type} (arr : list A) (i : Z) (x : A) :
  at_index arr i = Value x -> 0 <= i /\ arr !! Z.to_nat i = Some x.
Proof.
  unfold at_index. destruct (Z.ltb_spec i 0); [discriminate |].
  destruct (arr !! Z.to_nat i); cbn; [| discriminate].
  intros [= ->]. split; [lia | reflexivity].
Qed.

Lemma at_index_negative {A : Type} (arr : list A) (i : Z) :
  i < 0 -> at_index arr i = Fault.
Proof. intros Hi. unfold at_index. destruct (Z.ltb_spec i 0); [reflexivity | lia]. Qed.

(** The title number check passes for the titles of the table. *)
Lemma title_check_passes (srpt : tt_srpt_t) (titleNumber : Z) :
  1 <= titleNumber <= nr_of_srpts srpt ->
  (titleNumber <? 1) || (titleNumber >? nr_of_srpts srpt) = false.
Proof.
  intros H. apply orb_false_intro; [apply Z.ltb_ge | rewrite Z.gtb_ltb; apply Z.ltb_ge]; lia.
Qed.

Lemma title_check_fails (srpt : tt_srpt_t) (titleNumber : Z) :
  ~ (1 <= titleNumber <= nr_of_srpts srpt) ->
  (titleNumber <? 1) || (titleNumber >? nr_of_srpts srpt) = true.
Proof.
  intros H. apply orb_true_iff. rewrite Z.ltb_lt, Z.gtb_ltb, Z.ltb_lt. lia.
Qed.

Lemma title_low_check_passes (titleNumber : Z) :
  1 <= titleNumber -> (titleNumber <? 1) = false.
Proof. intros H. apply Z.ltb_ge. lia. Qed.

Lemma title_high_check_passes (srpt : tt_srpt_t) (titleNumber : Z) :
  titleNumber <= nr_of_srpts srpt -> (titleNumber >? nr_of_srpts srpt) = false.
Proof. intros H. rewrite Z.gtb_ltb. apply Z.ltb_ge. lia. Qed.

Lemma title_lookup_in_range (srpt : tt_srpt_t) (titleNumber : Z) (entry : title_info_t) :
  1 <= titleNumber ->
  title srpt !! Z.to_nat (titleNumber - 1) = Some entry ->
  1 <= titleNumber <= nr_of_srpts srpt.
Proof.
  intros Htn Hentry. apply lookup_lt_Some in Hentry. unfold nr_of_srpts. lia.
Qed.

(** The loop that fills an array: every index below [n] is visited once,
    in order. *)
Lemma for_range_lookup {A : Type} (body : Z -> result A) :
  forall (n : nat) (i : Z),
    (forall k : nat, (k < n)%nat -> exists x, body (i + Z.of_nat k) = Value x) ->
    exists l, for_range n i body = Value l /\ length l = n /\
      forall (k : nat) (x : A), l !! k = Some x -> body (i + Z.of_nat k) = Value x.
Proof.
  induction n as [| n IH]; intros i Hbody.
  - exists []. repeat split. intros k x Hk. discriminate.
  - destruct (Hbody 0%nat ltac:(lia)) as [x0 H0].
    destruct (IH (i + 1)) as (l & Hl & Hlen & Hall).
    { intros k Hk. destruct (Hbody (S k) ltac:(lia)) as [x Hx].
      exists x. rewrite <- Hx. f_equal. lia. }
    exists (x0 :: l). cbn [for_range].
    rewrite Z.add_0_r in H0. rewrite H0. cbn. rewrite Hl. cbn.
    split; [reflexivity |]. split; [cbn; lia |].
    intros [| k] x Hk; cbn in Hk.
    + injection Hk as <-. rewrite Z.add_0_r. exact H0.
    + rewrite <- (Hall k x Hk). f_equal. lia.
Qed.

(** C8.  For a title whose title set has audio attributes, the audio track
    query returns at most 8 entries (as many as the stream count, capped
    at 8); entry i is decoded from attribute i: the codec is the name the
    format field maps to, AC3 for 0, MPEG1 for 2, MPEG2 for 3, LPCM for 4,
    DTS for 5, SDDS for 6 and Unknown for 1 and for every other value, so
    one of these seven names; the sample rate is 48000, 96000, 44100 or
    32000 for frequency field 0, 1, 2, 3; the channel count is the raw
    field plus one; the language is the lower-cased pair of the two code
    bytes when both are ASCII letters, and otherwise the decoded string is
    empty and the entry carries the null language. *)
Theorem audio_tracks_decoded (g_dvdHandles : gmap Z dvd_reader_t)
    (handle titleNumber : Z) (dvd : dvd_reader_t) (vmg vts : ifo_handle_t)
    (srpt : tt_srpt_t) (entry : title_info_t) (mat : vtsi_mat_t) :
  g_dvdHandles !! handle = Some dvd ->
  ifoOpen dvd 0 = Some vmg ->
  tt_srpt vmg = Some srpt ->
  1 <= titleNumber ->
  title srpt !! Z.to_nat (titleNumber - 1) = Some entry ->
  ifoOpen dvd (title_set_nr entry) = Some vts ->
  vtsi_mat vts = Some mat ->
  length (vts_audio_attr mat) = 8%nat ->
  0 < nr_of_vts_audio_streams mat ->
  exists tracks,
    dvdGetAudioTracksNative g_dvdHandles handle titleNumber = Value (Some tracks) /\
    (length tracks <= 8)%nat /\
    Z.of_nat (length tracks) = Z.min (nr_of_vts_audio_streams mat) 8 /\
    forall (i : nat) (t : DvdAudioTrackNative),
      tracks !! i = Some t ->
      exists attr,
        vts_audio_attr mat !! i = Some attr /\
        audio_index t = Z.of_nat i /\
        audio_codec t = audioFormatToCodec (audio_format attr) /\
        audio_codec t ∈ codec_names /\
        (audio_format attr = 0 -> audio_codec t = "AC3"%string) /\
        (audio_format attr = 1 -> audio_codec t = "Unknown"%string) /\
        (audio_format attr = 2 -> audio_codec t = "MPEG1"%string) /\
        (audio_format attr = 3 -> audio_codec t = "MPEG2"%string) /\
        (audio_format attr = 4 -> audio_codec t = "LPCM"%string) /\
        (audio_format attr = 5 -> audio_codec t = "DTS"%string) /\
        (audio_format attr = 6 -> audio_codec t = "SDDS"%string) /\
        (audio_format attr < 0 \/ 6 < audio_format attr ->
           audio_codec t = "Unknown"%string) /\
        (sample_frequency attr = 0 -> audio_sampleRate t = 48000) /\
        (sample_frequency attr = 1 -> audio_sampleRate t = 96000) /\
        (sample_frequency attr = 2 -> audio_sampleRate t = 44100) /\
        (sample_frequency attr = 3 -> audio_sampleRate t = 32000) /\
        audio_channels t = channels attr + 1 /\
        let a := Z.land (Z.shiftr (lang_code attr) 8) 255 in
        let b := Z.land (lang_code attr) 255 in
        (ascii_letter a /\ ascii_letter b ->
           audio_language t = Some (two_letters (lower_case a) (lower_case b))) /\
        (~ (ascii_letter a /\ ascii_letter b) ->
           langCodeToString (lang_code attr) = EmptyString /\
           audio_language t = None).
Proof.
  intros Hh Hvmg Hsrpt Htn Hentry Hvts Hmat Hlen Hcount.
  pose proof (title_lookup_in_range _ _ _ Htn Hentry) as Hin.
  unfold dvdGetAudioTracksNative. rewrite Hh, Hvmg, Hsrpt.
  rewrite (title_check_passes _ _ Hin), (at_index_lookup (title srpt) (titleNumber - 1) entry ltac:(lia) Hentry). cbn.
  rewrite Hvts, Hmat.
  destruct (Z.leb_spec (nr_of_vts_audio_streams mat) 0) as [| _]; [lia |].
  set (count := if nr_of_vts_audio_streams mat >? 8 then 8
                else nr_of_vts_audio_streams mat).
  assert (Hc : count = Z.min (nr_of_vts_audio_streams mat) 8).
  { unfold count. destruct (Z.gtb_spec (nr_of_vts_audio_streams mat) 8); lia. }
  destruct (for_range_lookup (audio_track mat) (Z.to_nat count) 0)
    as (tracks & Htracks & Hlen' & Hall).
  { intros k Hk. unfold audio_track. cbn.
    destruct (lookup_lt_is_Some_2 (vts_audio_attr mat) k ltac:(lia)) as [attr Hattr].
    rewrite (at_index_lookup (vts_audio_attr mat) (0 + Z.of_nat k) attr ltac:(lia))
      by (rewrite Z.add_0_l, Nat2Z.id; exact Hattr).
    cbn. eauto. }
  exists tracks. rewrite Htracks. cbn.
  split; [reflexivity |]. split; [lia |]. split; [lia |].
  intros i t Hi. specialize (Hall i t Hi). rewrite Z.add_0_l in Hall.
  unfold audio_track in Hall.
  destruct (at_index (vts_audio_attr mat) (Z.of_nat i)) as [attr |] eqn:Hattr;
    cbn in Hall; [| discriminate].
  injection Hall as <-. cbn.
  apply at_index_Value in Hattr as [_ Hattr]. rewrite Nat2Z.id in Hattr.
  exists attr. split; [exact Hattr |].
  split; [reflexivity |]. split; [reflexivity |].
  split; [apply audioFormatToCodec_enum |].
  split; [intros ->; reflexivity |].
  split; [intros ->; reflexivity |].
  split; [intros ->; reflexivity |].
  split; [intros ->; reflexivity |].
  split; [intros ->; reflexivity |].
  split; [intros ->; reflexivity |].
  split; [intros ->; reflexivity |].
  split.
  { intros Hother. unfold audioFormatToCodec.
    destruct (Z.eqb_spec (audio_format attr) 0) as [? | _]; [lia |].
    destruct (Z.eqb_spec (audio_format attr) 1) as [? | _]; [lia |].
    destruct (Z.eqb_spec (audio_format attr) 2) as [? | _]; [lia |].
    destruct (Z.eqb_spec (audio_format attr) 3) as [? | _]; [lia |].
    destruct (Z.eqb_spec (audio_format attr) 4) as [? | _]; [lia |].
    destruct (Z.eqb_spec (audio_format attr) 5) as [? | _]; [lia |].
    destruct (Z.eqb_spec (audio_format attr) 6) as [? | _]; [lia |].
    reflexivity. }
  split; [intros ->; reflexivity |].
  split; [intros ->; reflexivity |].
  split; [intros ->; reflexivity |].
  split; [intros ->; reflexivity |].
  split; [reflexivity |].
  destruct (langCodeToString_spec (lang_code attr)) as [Hyes Hno].
  split.
  - intros Hab. rewrite (Hyes Hab). reflexivity.
  - intros Hab. rewrite (Hno Hab). split; reflexivity.
Qed.

Lemma audio_tracks_decoded_witness :
  exists tracks,
    dvdGetAudioTracksNative sample_handles 1 1 = Value (Some tracks) /\
    (length tracks <= 8)%nat /\
    Z.of_nat (length tracks) = Z.min (nr_of_vts_audio_streams sample_vtsi_mat) 8 /\
    forall t, tracks !! 0%nat = Some t ->
              audio_codec t = "DTS"%string /\
              audio_sampleRate t = 44100 /\
              audio_channels t = 2 /\
              audio_language t = Some "en"%string.
Proof.
  destruct (audio_tracks_decoded sample_handles 1 1 sample_dvd sample_vmg sample_vts
              {| title := [ {| nr_of_angles := 1; nr_of_ptts := 2;
                               title_set_nr := 1; vts_ttn := 1 |} ] |}
              {| nr_of_angles := 1; nr_of_ptts := 2; title_set_nr := 1; vts_ttn := 1 |}
              sample_vtsi_mat)
    as (tracks & Hret & Hle & Hlen & Hall).
  - reflexivity.
  - reflexivity.
  - reflexivity.
  - lia.
  - reflexivity.
  - reflexivity.
  - reflexivity.
  - reflexivity.
  - reflexivity.
  - exists tracks. split; [exact Hret |]. split; [exact Hle |]. split; [exact Hlen |].
    intros t Ht.
    destruct (Hall 0%nat t Ht)
      as (attr & Hattr & _ & _ & _ & _ & _ & _ & _ & _ & Hdts & _ & _ & _ & _
          & H441 & _ & Hch & Hlang & _).
    injection Hattr as <-.
    split; [apply Hdts; reflexivity |]. split; [apply H441; reflexivity |].
    split; [exact Hch |].
    rewrite Hlang; [reflexivity |].
    split; left; vm_compute; split; intros Hcmp; discriminate Hcmp.
Defined.

(** ** Chapters *)

Lemma sample_reads_chain_a : reads_chain sample_handles 1 1 sample_chain_a.
Proof.
  exists sample_dvd, sample_vmg,
    {| title := [ {| nr_of_angles := 1; nr_of_ptts := 2;
                     title_set_nr := 1; vts_ttn := 1 |} ] |},
    {| nr_of_angles := 1; nr_of_ptts := 2; title_set_nr := 1; vts_ttn := 1 |},
    sample_vts,
    {| pgci_srp := [ {| pgc := Some sample_chain_a |};
                     {| pgc := Some sample_chain_b |} ] |},
    {| pgc := Some sample_chain_a |}.
  repeat split; try reflexivity; try lia.
Defined.

(** On the chain it reads, the chapter query is the upper-bound check
    followed by the two time computations. *)
Lemma dvdReadChapterNative_on_chain (g_dvdHandles : gmap Z dvd_reader_t)
    (handle titleNumber chapterNumber : Z) (p : pgc_t) :
  reads_chain g_dvdHandles handle titleNumber p ->
  dvdReadChapterNative g_dvdHandles handle titleNumber chapterNumber =
    if chapterNumber >? nr_of_programs p then Value None
    else
      startTime ← chapter_start_loop p (Z.to_nat (chapterNumber - 1)) 0 0;
      entryCell ← at_index (program_map p) (chapterNumber - 1);
      duration ←
        (if entryCell - 1 <? nr_of_cells p then
           cell ← at_index (cell_playback p) (entryCell - 1);
           Value (dvdTimeToMs (Some (cell_playback_time cell)))
         else Value 0);
      Value (Some {| chapter_number := chapterNumber;
                     chapter_startTime := startTime;
                     chapter_duration := duration |}).
Proof.
  intros (dvd & vmg & srpt & entry & vts & pgcit & srp &
          Hh & Hvmg & Hsrpt & Htn & Hentry & Hvts & Hpgcit & Hsrp & Hp).
  pose proof (title_lookup_in_range _ _ _ Htn Hentry) as Hin.
  unfold dvdReadChapterNative. rewrite Hh, Hvmg.
  rewrite (title_low_check_passes _ Htn), Hsrpt. rsimpl.
  rewrite (title_high_check_passes _ _ (proj2 Hin)).
  rewrite (at_index_lookup (title srpt) (titleNumber - 1) entry ltac:(lia) Hentry). rsimpl.
  rewrite Hvts, Hpgcit. rsimpl.
  rewrite (at_index_lookup (pgci_srp pgcit) 0 srp ltac:(lia) Hsrp). rsimpl.
  rewrite Hp. reflexivity.
Qed.

(** For a title whose two numbers agree, the chain the queries read is the
    first chain of the title's own title set. *)
Lemma first_chain_of_title_reads (g_dvdHandles : gmap Z dvd_reader_t)
    (handle titleNumber : Z) (p : pgc_t) :
  first_chain_of_title g_dvdHandles handle titleNumber p ->
  reads_chain g_dvdHandles handle titleNumber p.
Proof.
  intros (dvd & vmg & srpt & entry & vts & pgcit & srp &
          Hh & Hvmg & Hsrpt & Htn & Hentry & Hsame & Hvts & Hpgcit & Hsrp & Hp).
  exists dvd, vmg, srpt, entry, vts, pgcit, srp.
  rewrite Hsame. repeat split; assumption.
Qed.

Lemma sample_first_chain_a : first_chain_of_title sample_handles 1 1 sample_chain_a.
Proof.
  exists sample_dvd, sample_vmg,
    {| title := [ {| nr_of_angles := 1; nr_of_ptts := 2;
                     title_set_nr := 1; vts_ttn := 1 |} ] |},
    {| nr_of_angles := 1; nr_of_ptts := 2; title_set_nr := 1; vts_ttn := 1 |},
    sample_vts,
    {| pgci_srp := [ {| pgc := Some sample_chain_a |};
                     {| pgc := Some sample_chain_b |} ] |},
    {| pgc := Some sample_chain_a |}.
  repeat split; try reflexivity; try lia.
Defined.

(** One entry cell: the guarded read of its duration. *)
Lemma entry_cell_read (p : pgc_t) (m : Z) :
  1 <= m ->
  (if m - 1 <? nr_of_cells p then
     cell ← at_index (cell_playback p) (m - 1);
     Value (dvdTimeToMs (Some (cell_playback_time cell)))
   else Value 0) = Value (entry_cell_ms p m).
Proof.
  intros Hm. unfold entry_cell_ms, cell_ms, nr_of_cells.
  destruct (Z.ltb_spec (m - 1) (Z.of_nat (length (cell_playback p)))) as [Hlt | Hge];
    [| reflexivity].
  destruct (lookup_lt_is_Some_2 (cell_playback p) (Z.to_nat (m - 1)) ltac:(lia))
    as [c Hc].
  rewrite (at_index_lookup (cell_playback p) (m - 1) c ltac:(lia) Hc), Hc.
  reflexivity.
Qed.

Lemma entry_cell_add (p : pgc_t) (m acc : Z) :
  1 <= m ->
  (if m - 1 <? nr_of_cells p then
     cell ← at_index (cell_playback p) (m - 1);
     Value (acc + dvdTimeToMs (Some (cell_playback_time cell)))
   else Value acc) = Value (acc + entry_cell_ms p m).
Proof.
  intros Hm. unfold entry_cell_ms, cell_ms, nr_of_cells.
  destruct (Z.ltb_spec (m - 1) (Z.of_nat (length (cell_playback p)))) as [Hlt | Hge];
    [| f_equal; lia].
  destruct (lookup_lt_is_Some_2 (cell_playback p) (Z.to_nat (m - 1)) ltac:(lia))
    as [c Hc].
  rewrite (at_index_lookup (cell_playback p) (m - 1) c ltac:(lia) Hc), Hc.
  reflexivity.
Qed.

(** Loop invariant of the start-time loop: after [n] iterations from
    index [i] the running sum has grown by the entry-cell durations of the
    chapters with 0-based index [i .. i+n-1]. *)
Lemma chapter_start_loop_sum (p : pgc_t) :
  (forall m, m ∈ program_map p -> 1 <= m) ->
  forall (n : nat) (i acc : Z),
    0 <= i -> i + Z.of_nat n <= nr_of_programs p ->
    chapter_start_loop p n i acc =
      Value (acc + sumZ (map (entry_cell_ms p)
                             (take n (drop (Z.to_nat i) (program_map p))))).
Proof.
  intros Hmap. induction n as [| n IH]; intros i acc Hi Hn.
  - cbn [chapter_start_loop]. rewrite take_0. cbn [map sumZ foldr]. f_equal. lia.
  - cbn [chapter_start_loop]. unfold nr_of_programs in *.
    destruct (Z.ltb_spec i (Z.of_nat (length (program_map p)))) as [_ | ?]; [| lia].
    destruct (lookup_lt_is_Some_2 (program_map p) (Z.to_nat i) ltac:(lia)) as [m Hm].
    rewrite (at_index_lookup (program_map p) i m Hi Hm). rsimpl.
    assert (Hm1 : 1 <= m) by (apply Hmap; eapply list_elem_of_lookup_2; exact Hm).
    rewrite (entry_cell_add p m acc Hm1). rsimpl.
    rewrite IH by lia.
    rewrite (drop_S _ _ _ Hm), firstn_cons. cbn [map sumZ foldr].
    replace (Z.to_nat (i + 1)) with (S (Z.to_nat i)) by lia.
    f_equal. unfold sumZ. lia.
Qed.

(** The chapter query for a chapter number within the program count, on
    a chain whose program map holds cell numbers from 1 up. *)
Lemma dvdReadChapterNative_in_range (g_dvdHandles : gmap Z dvd_reader_t)
    (handle titleNumber chapterNumber : Z) (p : pgc_t) :
  reads_chain g_dvdHandles handle titleNumber p ->
  (forall m, m ∈ program_map p -> 1 <= m) ->
  1 <= chapterNumber <= nr_of_programs p ->
  exists m,
    program_map p !! Z.to_nat (chapterNumber - 1) = Some m /\
    dvdReadChapterNative g_dvdHandles handle titleNumber chapterNumber =
      Value (Some {| chapter_number := chapterNumber;
                     chapter_startTime := entry_cells_before_ms p chapterNumber;
                     chapter_duration := entry_cell_ms p m |}).
Proof.
  intros Hchain Hmap Hch.
  rewrite (dvdReadChapterNative_on_chain _ _ _ _ _ Hchain).
  destruct (Z.gtb_spec chapterNumber (nr_of_programs p)) as [? | _]; [lia |].
  rewrite (chapter_start_loop_sum p Hmap) by lia. rsimpl.
  unfold nr_of_programs in Hch.
  destruct (lookup_lt_is_Some_2 (program_map p) (Z.to_nat (chapterNumber - 1))
              ltac:(lia)) as [m Hm].
  exists m. split; [exact Hm |].
  rewrite (at_index_lookup (program_map p) (chapterNumber - 1) m ltac:(lia) Hm). rsimpl.
  assert (Hm1 : 1 <= m) by (apply Hmap; eapply list_elem_of_lookup_2; exact Hm).
  rewrite (entry_cell_read p m Hm1). rsimpl.
  unfold entry_cells_before_ms. rewrite drop_0.
  repeat f_equal.
Qed.

(** C2, as stated, fails: on the sample disc chapter 1 owns cells 1 and 2
    (1 s and 2 s) and chapter 2 starts at cell 3, yet the start time
    returned for chapter 2 is 1000 ms, the duration of the entry cell of
    chapter 1 alone, and not the 3000 ms of all cells of chapter 1. *)
Lemma chapter_start_skips_inner_cells :
  reads_chain sample_handles 1 1 sample_chain_a /\
  1 <= 2 <= nr_of_programs sample_chain_a /\
  all_cells_before_ms sample_chain_a 2 = 3000 /\
  exists c,
    dvdReadChapterNative sample_handles 1 1 2 = Value (Some c) /\
    chapter_startTime c = 1000 /\
    chapter_startTime c <> all_cells_before_ms sample_chain_a 2.
Proof.
  split; [exact sample_reads_chain_a |].
  split; [unfold nr_of_programs; simpl; lia |].
  split; [reflexivity |].
  eexists. split; [reflexivity |]. split; [reflexivity |]. discriminate.
Qed.

(** C2 (amended).  For a title of the title table whose in-set title number
    is the number of its title set, and the first chain of that title
    set, with a program map of cell numbers from 1 up: for
    1 <= chapterNumber <= programCount the chapter query returns as start
    time the sum of the durations of the entry cells (the cells the
    program map points at) of the chapters before chapterNumber, and as
    duration the duration of the entry cell of the chapter itself, an
    entry beyond the cell table counting 0; for
    chapterNumber > programCount it returns the absent value.  Nothing is
    said of a title whose two numbers differ. *)
Theorem chapter_times_from_entry_cells (g_dvdHandles : gmap Z dvd_reader_t)
    (handle titleNumber chapterNumber : Z) (p : pgc_t) :
  first_chain_of_title g_dvdHandles handle titleNumber p ->
  (forall m, m ∈ program_map p -> 1 <= m) ->
  (1 <= chapterNumber <= nr_of_programs p ->
   exists m,
     program_map p !! Z.to_nat (chapterNumber - 1) = Some m /\
     dvdReadChapterNative g_dvdHandles handle titleNumber chapterNumber =
       Value (Some {| chapter_number := chapterNumber;
                      chapter_startTime := entry_cells_before_ms p chapterNumber;
                      chapter_duration := entry_cell_ms p m |})) /\
  (nr_of_programs p < chapterNumber ->
   dvdReadChapterNative g_dvdHandles handle titleNumber chapterNumber = Value None).
Proof.
  intros Hfirst Hmap.
  pose proof (first_chain_of_title_reads _ _ _ _ Hfirst) as Hchain. split.
  - intros Hch. exact (dvdReadChapterNative_in_range _ _ _ _ _ Hchain Hmap Hch).
  - intros Hch. rewrite (dvdReadChapterNative_on_chain _ _ _ _ _ Hchain).
    destruct (Z.gtb_spec chapterNumber (nr_of_programs p)); [reflexivity | lia].
Qed.

Lemma sample_chain_a_map_positive :
  forall m, m ∈ program_map sample_chain_a -> 1 <= m.
Proof.
  intros m Hm. cbn in Hm.
  apply elem_of_cons in Hm as [-> | Hm]; [lia |].
  apply elem_of_cons in Hm as [-> | Hm]; [lia |].
  apply elem_of_nil in Hm. destruct Hm.
Defined.

Lemma chapter_times_from_entry_cells_witness :
  exists m,
    program_map sample_chain_a !! Z.to_nat (2 - 1) = Some m /\
    dvdReadChapterNative sample_handles 1 1 2 =
      Value (Some {| chapter_number := 2;
                     chapter_startTime := entry_cells_before_ms sample_chain_a 2;
                     chapter_duration := entry_cell_ms sample_chain_a m |}).
Proof.
  destruct (chapter_times_from_entry_cells sample_handles 1 1 2 sample_chain_a
              sample_first_chain_a sample_chain_a_map_positive) as [Hin _].
  apply Hin. unfold nr_of_programs. simpl. lia.
Defined.

(** C10, as stated, fails: on a chain whose program map holds the entry 0
    for chapter 2, the request for chapter 2 lies within
    1 <= chapterNumber <= programCount, and yet the cell table is read
    before its first entry. *)
Lemma chapter_in_range_reads_before_cells :
  reads_chain subtitled_handles 1 1 gapped_chain /\
  program_map gapped_chain = [1; 0] /\
  1 <= 2 <= nr_of_programs gapped_chain /\
  at_index (program_map gapped_chain) (2 - 1) = Value 0 /\
  at_index (cell_playback gapped_chain) (0 - 1) = Fault /\
  dvdReadChapterNative subtitled_handles 1 1 2 = Fault.
Proof.
  split.
  { exists subtitled_dvd, sample_vmg,
      {| title := [ {| nr_of_angles := 1; nr_of_ptts := 2;
                       title_set_nr := 1; vts_ttn := 1 |} ] |},
      {| nr_of_angles := 1; nr_of_ptts := 2; title_set_nr := 1; vts_ttn := 1 |},
      subtitled_vts,
      {| pgci_srp := [ {| pgc := Some gapped_chain |} ] |},
      {| pgc := Some gapped_chain |}.
    repeat split; try reflexivity; try lia. }
  split; [reflexivity |].
  split; [unfold nr_of_programs; simpl; lia |].
  repeat split.
Qed.

(** C10 (amended).  On the chain the chapter query reads, only the upper
    bound of the chapter number is checked: for chapterNumber <= 0 the
    test chapterNumber > programCount does not reject the request and the
    program map is read at index chapterNumber - 1, below its first entry
    (a fault); every request that returns a chapter has
    1 <= chapterNumber <= programCount; and within that range a chapter is
    returned, with every access in bounds, when the program map holds
    cell numbers from 1 up. *)
Theorem chapter_lower_bound_unchecked (g_dvdHandles : gmap Z dvd_reader_t)
    (handle titleNumber chapterNumber : Z) (p : pgc_t) :
  reads_chain g_dvdHandles handle titleNumber p ->
  (chapterNumber <= 0 ->
     (chapterNumber >? nr_of_programs p) = false /\
     chapterNumber - 1 < 0 /\
     at_index (program_map p) (chapterNumber - 1) = Fault /\
     dvdReadChapterNative g_dvdHandles handle titleNumber chapterNumber = Fault) /\
  (forall c,
     dvdReadChapterNative g_dvdHandles handle titleNumber chapterNumber
       = Value (Some c) ->
     1 <= chapterNumber <= nr_of_programs p) /\
  (1 <= chapterNumber <= nr_of_programs p ->
   (forall m, m ∈ program_map p -> 1 <= m) ->
   exists c,
     dvdReadChapterNative g_dvdHandles handle titleNumber chapterNumber
       = Value (Some c)).
Proof.
  intros Hchain.
  pose proof (dvdReadChapterNative_on_chain _ _ _ chapterNumber _ Hchain) as Hq.
  assert (Hlow : chapterNumber <= 0 ->
            (chapterNumber >? nr_of_programs p) = false /\
            chapterNumber - 1 < 0 /\
            at_index (program_map p) (chapterNumber - 1) = Fault /\
            dvdReadChapterNative g_dvdHandles handle titleNumber chapterNumber = Fault).
  { intros Hle.
    assert (Hgt : (chapterNumber >? nr_of_programs p) = false).
    { rewrite Z.gtb_ltb. apply Z.ltb_ge. unfold nr_of_programs. lia. }
    split; [exact Hgt |]. split; [lia |].
    split; [apply at_index_negative; lia |].
    rewrite Hq, Hgt.
    replace (Z.to_nat (chapterNumber - 1)) with 0%nat by lia.
    cbn [chapter_start_loop]. rsimpl.
    rewrite at_index_negative by lia. reflexivity. }
  split; [exact Hlow |]. split.
  - intros c Hc.
    destruct (Z.le_gt_cases chapterNumber 0) as [Hle | Hpos].
    + destruct (Hlow Hle) as (_ & _ & _ & Hf). rewrite Hf in Hc. discriminate.
    + split; [lia |]. rewrite Hq in Hc.
      destruct (Z.gtb_spec chapterNumber (nr_of_programs p)); [discriminate | lia].
  - intros Hch Hmap.
    destruct (dvdReadChapterNative_in_range _ _ _ _ _ Hchain Hmap Hch) as (m & _ & Hr).
    eexists. exact Hr.
Qed.

Lemma chapter_lower_bound_unchecked_witness :
  dvdReadChapterNative sample_handles 1 1 0 = Fault /\
  exists c, dvdReadChapterNative sample_handles 1 1 2 = Value (Some c).
Proof.
  split.
  - destruct (chapter_lower_bound_unchecked sample_handles 1 1 0 sample_chain_a
                sample_reads_chain_a) as [Hlow _].
    destruct Hlow as (_ & _ & _ & Hf); [lia | exact Hf].
  - destruct (chapter_lower_bound_unchecked sample_handles 1 1 2 sample_chain_a
                sample_reads_chain_a) as (_ & _ & Hin).
    apply Hin; [unfold nr_of_programs; simpl; lia | exact sample_chain_a_map_positive].
Defined.

(** ** Titles *)

Lemma sample_resolves_to_chain_b :
  resolves_to sample_handles 1 1 sample_dvd 1 sample_chain_b.
Proof.
  exists sample_vmg,
    {| title := [ {| nr_of_angles := 1; nr_of_ptts := 2;
                     title_set_nr := 1; vts_ttn := 1 |} ] |},
    {| nr_of_angles := 1; nr_of_ptts := 2; title_set_nr := 1; vts_ttn := 1 |},
    sample_vts.
  repeat split; try reflexivity; try lia.
Defined.

(** C3, as stated, fails: on the sample disc program-chain resolution
    sends title 1 to the second chain of title set 1 (1 chapter, 123000 ms),
    but the title query reports the header of the first chain (2 chapters,
    7000 ms). *)
Lemma title_info_ignores_resolution :
  resolves_to sample_handles 1 1 sample_dvd 1 sample_chain_b /\
  1 <= 1 <= dvdGetTitleCountNative sample_handles 1 /\
  exists t,
    dvdReadTitleNative sample_handles 1 1 = Value (Some t) /\
    title_chapterCount t = 2 /\
    title_chapterCount t <> nr_of_programs sample_chain_b /\
    title_duration t = 7000 /\
    title_duration t <> dvdTimeToMs (Some (playback_time sample_chain_b)).
Proof.
  split; [exact sample_resolves_to_chain_b |].
  split; [vm_compute; split; discriminate |].
  eexists. split; [reflexivity |].
  repeat split; try reflexivity; discriminate.
Qed.

(** C3 (amended).  With the title table present, the title query returns
    the absent value for a title number outside [1, titleCount].  For a
    title number inside, whose in-set title number is the number of its
    title set, it resolves the title to that title set and reports the
    chapter count and the duration found in the header of the first chain
    of the title set's chain table (0 and 0 when that entry holds no
    chain), without consulting the part-of-title table; it returns the
    absent value when the title set cannot be opened.  Nothing is said of
    a title whose two numbers differ. *)
Theorem title_info_first_chain (g_dvdHandles : gmap Z dvd_reader_t)
    (handle titleNumber : Z) (dvd : dvd_reader_t) (vmg : ifo_handle_t)
    (srpt : tt_srpt_t) :
  g_dvdHandles !! handle = Some dvd ->
  ifoOpen dvd 0 = Some vmg ->
  tt_srpt vmg = Some srpt ->
  (~ (1 <= titleNumber <= nr_of_srpts srpt) ->
     dvdReadTitleNative g_dvdHandles handle titleNumber = Value None) /\
  (forall entry,
     1 <= titleNumber ->
     title srpt !! Z.to_nat (titleNumber - 1) = Some entry ->
     vts_ttn entry = title_set_nr entry ->
     (ifoOpen dvd (title_set_nr entry) = None ->
        dvdReadTitleNative g_dvdHandles handle titleNumber = Value None) /\
     (forall vts pgcit srp,
        ifoOpen dvd (title_set_nr entry) = Some vts ->
        vts_pgcit vts = Some pgcit ->
        pgci_srp pgcit !! 0%nat = Some srp ->
        dvdReadTitleNative g_dvdHandles handle titleNumber =
          Value (Some {| title_number := titleNumber;
                         title_chapterCount :=
                           match pgc srp with
                           | Some p => nr_of_programs p
                           | None => 0
                           end;
                         title_duration :=
                           match pgc srp with
                           | Some p => dvdTimeToMs (Some (playback_time p))
                           | None => 0
                           end |}))).
Proof.
  intros Hh Hvmg Hsrpt. unfold dvdReadTitleNative. rewrite Hh, Hvmg.
  split.
  - intros Hout.
    destruct (Z.ltb_spec titleNumber 1) as [_ | Hlow]; [reflexivity |].
    rewrite Hsrpt. rsimpl.
    destruct (Z.gtb_spec titleNumber (nr_of_srpts srpt)); [reflexivity | lia].
  - intros entry Htn Hentry Hsame.
    pose proof (title_lookup_in_range _ _ _ Htn Hentry) as Hin.
    rewrite (title_low_check_passes _ Htn), Hsrpt. rsimpl.
    rewrite (title_high_check_passes _ _ (proj2 Hin)).
    rewrite (at_index_lookup (title srpt) (titleNumber - 1) entry ltac:(lia) Hentry).
    rsimpl. rewrite Hsame. split.
    + intros Hnone. rewrite Hnone. reflexivity.
    + intros vts pgcit srp Hvts Hpgcit Hsrp. rewrite Hvts, Hpgcit. rsimpl.
      rewrite (at_index_lookup (pgci_srp pgcit) 0 srp ltac:(lia) Hsrp). rsimpl.
      reflexivity.
Qed.

Lemma title_info_first_chain_witness :
  dvdReadTitleNative sample_handles 1 2 = Value None /\
  dvdReadTitleNative sample_handles 1 1 =
    Value (Some {| title_number := 1;
                   title_chapterCount := nr_of_programs sample_chain_a;
                   title_duration :=
                     dvdTimeToMs (Some (playback_time sample_chain_a)) |}).
Proof.
  destruct (title_info_first_chain sample_handles 1 2 sample_dvd sample_vmg
              {| title := [ {| nr_of_angles := 1; nr_of_ptts := 2;
                               title_set_nr := 1; vts_ttn := 1 |} ] |})
    as [Hout _].
  - reflexivity.
  - reflexivity.
  - reflexivity.
  - split; [apply Hout; unfold nr_of_srpts; simpl; lia |].
    destruct (title_info_first_chain sample_handles 1 1 sample_dvd sample_vmg
              {| title := [ {| nr_of_angles := 1; nr_of_ptts := 2;
                               title_set_nr := 1; vts_ttn := 1 |} ] |})
      as [_ Hin].
    + reflexivity.
    + reflexivity.
    + reflexivity.
    + destruct (Hin {| nr_of_angles := 1; nr_of_ptts := 2;
                       title_set_nr := 1; vts_ttn := 1 |})
        as [_ Hsome]; [lia | reflexivity | reflexivity |].
      exact (Hsome sample_vts
               {| pgci_srp := [ {| pgc := Some sample_chain_a |};
                                {| pgc := Some sample_chain_b |} ] |}
               {| pgc := Some sample_chain_a |} eq_refl eq_refl eq_refl).
Defined.

(** With the title table present, every title-scoped query answers a title
    number outside [1, titleCount] with its absent or failure value. *)
Lemma title_out_of_range_absent {E : Type}
    (DVDReadBlocks : E -> dvd_file_t -> Z -> Z -> Z * E)
    (write : E -> Z -> Z -> Z -> (Z * Z) * E)
    (g_dvdHandles : gmap Z dvd_reader_t) (handle titleNumber : Z)
    (dvd : dvd_reader_t) (vmg : ifo_handle_t) (srpt : tt_srpt_t) :
  g_dvdHandles !! handle = Some dvd ->
  ifoOpen dvd 0 = Some vmg ->
  tt_srpt vmg = Some srpt ->
  ~ (1 <= titleNumber <= dvdGetTitleCountNative g_dvdHandles handle) ->
  dvdReadTitleNative g_dvdHandles handle titleNumber = Value None /\
  dvdGetAudioTracksNative g_dvdHandles handle titleNumber = Value None /\
  dvdGetSubtitleTracksNative g_dvdHandles handle titleNumber = Value None /\
  (forall chapterNumber,
     dvdReadChapterNative g_dvdHandles handle titleNumber chapterNumber = Value None) /\
  dvdGetVobOffsetsNative g_dvdHandles handle titleNumber = Value None /\
  (forall outFd fuel e,
     dvdStreamToFdNative DVDReadBlocks write g_dvdHandles handle titleNumber
       outFd fuel e = (Returned (-1), [], e)).
Proof.
  intros Hh Hvmg Hsrpt Hout.
  unfold dvdGetTitleCountNative in Hout. rewrite Hh, Hvmg, Hsrpt in Hout.
  pose proof (title_check_fails _ _ Hout) as Hcheck.
  assert (Hhigh : (titleNumber <? 1) = false ->
                  (titleNumber >? nr_of_srpts srpt) = true).
  { intros Hlow. rewrite Hlow in Hcheck. exact Hcheck. }
  unfold dvdReadTitleNative, dvdGetAudioTracksNative, dvdGetSubtitleTracksNative,
    dvdReadChapterNative, dvdGetVobOffsetsNative, dvdStreamToFdNative.
  rewrite Hh, Hvmg, Hsrpt. rsimpl. cbv zeta. rewrite Hcheck.
  repeat split; try reflexivity;
    destruct (titleNumber <? 1); try reflexivity; rewrite Hhigh; reflexivity.
Qed.

(** C7 fails on the code.  On a disc whose manager file has no title table
    the title count is 0, so title number 1 is outside [1, titleCount];
    the audio, subtitle, VOB-offset and streaming queries answer with their
    absent or failure value, but the title query and the chapter query
    read the title table through the null pointer. *)
Theorem title_queries_without_title_table :
  sample_handles !! 2 = Some bare_dvd /\
  dvdGetTitleCountNative sample_handles 2 = 0 /\
  dvdReadTitleNative sample_handles 2 1 = Fault /\
  dvdReadChapterNative sample_handles 2 1 1 = Fault /\
  dvdGetAudioTracksNative sample_handles 2 1 = Value None /\
  dvdGetSubtitleTracksNative sample_handles 2 1 = Value None /\
  dvdGetVobOffsetsNative sample_handles 2 1 = Value None /\
  dvdStreamToFdNative scripted_read scripted_write sample_handles 2 1 7 10 []
    = (Returned (-1), [], []).
Proof. repeat split. Qed.

(** ** The byte counter *)

Lemma wrap_s64_in (z : Z) : in_s64 (wrap_s64 z).
Proof.
  unfold in_s64, wrap_s64.
  pose proof (Z.mod_pos_bound (z + 2 ^ 63) (2 ^ 64) ltac:(lia)). lia.
Qed.

Lemma wrap_s64_id (z : Z) : in_s64 z -> wrap_s64 z = z.
Proof.
  unfold in_s64, wrap_s64. intros H.
  rewrite Z.mod_small by lia. lia.
Qed.

Lemma wrap_s64_add_l (a b : Z) : wrap_s64 (wrap_s64 a + b) = wrap_s64 (a + b).
Proof.
  unfold wrap_s64. f_equal.
  replace ((a + 2 ^ 63) mod 2 ^ 64 - 2 ^ 63 + b + 2 ^ 63)
    with ((a + 2 ^ 63) mod 2 ^ 64 + b) by lia.
  rewrite Zplus_mod_idemp_l. f_equal. lia.
Qed.

Lemma accepted_nonneg (ev : event) : 0 <= accepted ev.
Proof.
  destruct ev as [? ? ? ? | ? ? ? ret ?]; cbn; [lia |].
  destruct (Z.ltb_spec 0 ret); lia.
Qed.

Lemma accepted_bytes_nonneg (tr : list event) : 0 <= accepted_bytes tr.
Proof.
  unfold accepted_bytes, sumZ.
  induction tr as [| ev tr IH]; cbn; [lia |].
  pose proof (accepted_nonneg ev). lia.
Qed.

Lemma accepted_bytes_app (tr1 tr2 : list event) :
  accepted_bytes (tr1 ++ tr2) = accepted_bytes tr1 + accepted_bytes tr2.
Proof.
  unfold accepted_bytes, sumZ.
  induction tr1 as [| ev tr1 IH]; cbn; [lia |]. rewrite IH. lia.
Qed.

Lemma accepted_bytes_cons (ev : event) (tr : list event) :
  accepted_bytes (ev :: tr) = accepted ev + accepted_bytes tr.
Proof. reflexivity. Qed.

Lemma accepted_stops (ev : event) : stops ev = true -> accepted ev = 0.
Proof.
  destruct ev as [? ? ? ? | ? ? ? ret errno]; cbn; [discriminate |].
  unfold consumer_closed, other_failure. intros H.
  destruct (Z.ltb_spec 0 ret); [| reflexivity]. lia.
Qed.

(** ** Shape of a run *)

Lemma run_shape_nil (x : exit) : x <> Finished -> run_shape x [].
Proof. destruct x; [constructor | congruence | constructor]. Qed.

Lemma run_shape_stop (ev : event) : stops ev = true -> run_shape Finished [ev].
Proof. intros H. exists [], ev. repeat split; [constructor | exact H]. Qed.

Lemma run_shape_cons (x : exit) (ev : event) (tr : list event) :
  stops ev = false -> run_shape x tr -> run_shape x (ev :: tr).
Proof.
  intros Hev. destruct x; cbn.
  - intros H. constructor; assumption.
  - intros (body & last & -> & Hbody & Hlast).
    exists (ev :: body), last. repeat split; [constructor; assumption | exact Hlast].
  - intros H. constructor; assumption.
Qed.

Lemma run_shape_app (x : exit) (tr1 tr2 : list event) :
  run_shape Completed tr1 -> run_shape x tr2 -> run_shape x (tr1 ++ tr2).
Proof.
  cbn. intros H1. induction H1 as [| ev tr1 Hev _ IH]; intros H2; [exact H2 |].
  cbn. apply run_shape_cons; [exact Hev | exact (IH H2)].
Qed.

(** A stopping event can only be the last event of a run, and then the
    run left through [finished]. *)
Lemma run_shape_stops_last (x : exit) (tr pre post : list event) (ev : event) :
  run_shape x tr -> tr = pre ++ ev :: post -> stops ev = true ->
  x = Finished /\ post = [].
Proof.
  intros Hshape -> Hev.
  assert (Hno : forall post' l, Forall (fun e => stops e = false) l ->
                                l <> pre ++ ev :: post').
  { intros post' l Hl Heq. subst l. apply Forall_app in Hl as [_ Hl].
    apply Forall_cons in Hl as [Hl _]. congruence. }
  destruct x; cbn in Hshape;
    try (exfalso; exact (Hno _ _ Hshape eq_refl)).
  split; [reflexivity |].
  destruct Hshape as (body & last & Heq & Hbody & Hlast).
  destruct post as [| ev' post]; [reflexivity | exfalso].
  assert (Hsplit : pre ++ ev :: ev' :: post = (pre ++ ev :: removelast (ev' :: post))
                                              ++ [List.last (ev' :: post) ev]).
  { rewrite <- app_assoc. cbn [app]. f_equal. f_equal.
    apply app_removelast_last. discriminate. }
  rewrite Hsplit in Heq. apply app_inj_tail in Heq as [Heq _].
  exact (Hno _ body Hbody (eq_sym Heq)).
Qed.

(** ** The streaming loops *)

Lemma run_ok_done {E : Type} (x : exit) (total : Z) (e : E) :
  x <> Finished -> run_ok total (x, total, e, []).
Proof.
  intros Hx. split; [apply run_shape_nil; exact Hx |].
  intros Hin. cbn. rewrite Z.add_0_r, wrap_s64_id; [reflexivity | exact Hin].
Qed.

Lemma run_ok_stop {E : Type} (total : Z) (e : E) (ev : event) :
  stops ev = true -> run_ok total (Finished, total, e, [ev]).
Proof.
  intros Hev. split; [apply run_shape_stop; exact Hev |].
  intros Hin. rewrite accepted_bytes_cons, (accepted_stops ev Hev). cbn.
  rewrite Z.add_0_r, wrap_s64_id; [reflexivity | exact Hin].
Qed.

(** An event that does not stop the run, followed by the rest of the run
    on the counter it leaves. *)
Lemma run_ok_cons {E : Type} (total : Z) (ev : event)
    (x : exit) (total' : Z) (e' : E) (tr : list event) :
  stops ev = false ->
  run_ok (wrap_s64 (total + accepted ev)) (x, total', e', tr) ->
  run_ok total (x, total', e', ev :: tr).
Proof.
  intros Hev [Hshape Htotal]. split; [apply run_shape_cons; assumption |].
  intros Hin. rewrite (Htotal (wrap_s64_in _)), wrap_s64_add_l, accepted_bytes_cons.
  f_equal. lia.
Qed.

(** The same for an event that moves no bytes. *)
Lemma run_ok_cons_idle {E : Type} (total : Z) (ev : event)
    (x : exit) (total' : Z) (e' : E) (tr : list event) :
  stops ev = false -> accepted ev = 0 ->
  run_ok total (x, total', e', tr) ->
  run_ok total (x, total', e', ev :: tr).
Proof.
  intros Hev Hacc [Hshape Htotal]. split; [apply run_shape_cons; assumption |].
  intros Hin. rewrite (Htotal Hin), accepted_bytes_cons, Hacc. f_equal.
Qed.

Lemma run_ok_app {E : Type} (total : Z) (total1 : Z) (e1 : E) (tr1 : list event)
    (x : exit) (total' : Z) (e' : E) (tr : list event) :
  run_ok total (Completed, total1, e1, tr1) ->
  run_ok total1 (x, total', e', tr) ->
  run_ok total (x, total', e', tr1 ++ tr).
Proof.
  intros [Hshape1 Htotal1] [Hshape Htotal].
  split; [apply run_shape_app; assumption |].
  intros Hin. specialize (Htotal1 Hin).
  rewrite Htotal by (rewrite Htotal1; apply wrap_s64_in).
  rewrite Htotal1, wrap_s64_add_l, accepted_bytes_app. f_equal. lia.
Qed.

Lemma stops_closed (fd offset count ret errno : Z) :
  consumer_closed ret errno = true ->
  stops (EvWrite fd offset count ret errno) = true.
Proof. intros H. cbn. rewrite H. reflexivity. Qed.

Lemma stops_failed (fd offset count ret errno : Z) :
  other_failure ret errno = true ->
  stops (EvWrite fd offset count ret errno) = true.
Proof. intros H. cbn. rewrite H. apply orb_true_r. Qed.

(** Every answer of the sink is of exactly one kind: bytes accepted,
    would-block, consumer closed, or another failure. *)
Lemma sink_answer_cases (ret errno : Z) :
  (0 < ret /\ would_block ret errno = false /\ consumer_closed ret errno = false
     /\ other_failure ret errno = false) \/
  (ret <= 0 /\ would_block ret errno = true /\ consumer_closed ret errno = false
     /\ other_failure ret errno = false) \/
  (ret <= 0 /\ would_block ret errno = false /\ consumer_closed ret errno = true
     /\ other_failure ret errno = false) \/
  (ret <= 0 /\ would_block ret errno = false /\ consumer_closed ret errno = false
     /\ other_failure ret errno = true).
Proof.
  unfold would_block, consumer_closed, other_failure, EPIPE, EAGAIN, EWOULDBLOCK.
  destruct (Z.ltb_spec ret 0), (Z.eqb_spec ret 0), (Z.eqb_spec errno 32),
    (Z.eqb_spec errno 11); cbn; lia.
Qed.

(** A would-block answer does not stop the run. *)
Lemma would_block_retried (fd offset count ret errno : Z) :
  would_block ret errno = true ->
  stops (EvWrite fd offset count ret errno) = false.
Proof.
  intros H. cbn.
  destruct (sink_answer_cases ret errno)
    as [(_ & Hw & Hc & Hf) | [(_ & Hw & Hc & Hf) | [(_ & Hw & Hc & Hf) | (_ & Hw & Hc & Hf)]]];
    try congruence; rewrite Hc, Hf; reflexivity.
Qed.

(** The sector total of the progress output counts the valid cells only. *)
Lemma totalSectors_loop_valid (cells : list cell_playback_t) (acc : Z) :
  totalSectors_loop cells acc = totalSectors_loop (List.filter valid_cell cells) acc.
Proof.
  revert acc. induction cells as [| cell rest IH]; intros acc; [reflexivity |].
  cbn [totalSectors_loop List.filter]. unfold valid_cell at 1.
  destruct (Z.geb_spec (last_sector cell) (first_sector cell));
    destruct (Z.leb_spec (first_sector cell) (last_sector cell)); try lia.
  - cbn [totalSectors_loop].
    destruct (Z.geb_spec (last_sector cell) (first_sector cell)); [| lia].
    apply IH.
  - apply IH.
Qed.

Section StreamingProperties.

Context {E : Type}.
Variable DVDReadBlocks : E -> dvd_file_t -> Z -> Z -> Z * E.
Variable write : E -> Z -> Z -> Z -> (Z * Z) * E.

Lemma write_loop_ok (fuel : nat) :
  forall (outFd offset bytesRemaining total : Z) (e : E),
    run_ok total (write_loop write fuel outFd offset bytesRemaining total e).
Proof.
  induction fuel as [| fuel IH]; intros outFd offset bytesRemaining total e;
    cbn [write_loop];
    (destruct (bytesRemaining >? 0); [| apply run_ok_done; discriminate]).
  - apply run_ok_done. discriminate.
  - destruct (write e outFd offset bytesRemaining) as [[bytesWritten errno] e1].
    destruct (Z.ltb_spec bytesWritten 0) as [Hneg | Hnonneg].
    + destruct (Z.eqb_spec errno EPIPE) as [Hpipe | Hpipe].
      * apply run_ok_stop, stops_closed. unfold consumer_closed.
        rewrite (proj2 (Z.ltb_lt _ _) Hneg), (proj2 (Z.eqb_eq _ _) Hpipe).
        reflexivity.
      * destruct ((errno =? EAGAIN) || (errno =? EWOULDBLOCK)) eqn:Hagain.
        -- specialize (IH outFd offset bytesRemaining total e1).
           destruct (write_loop write fuel outFd offset bytesRemaining total e1)
             as [[[x total'] e2] tr].
           apply run_ok_cons_idle.
           ++ cbn. unfold consumer_closed, other_failure.
              rewrite (proj2 (Z.ltb_lt _ _) Hneg), (proj2 (Z.eqb_neq _ _) Hpipe), Hagain.
              destruct (Z.eqb_spec bytesWritten 0); [lia | reflexivity].
           ++ cbn [accepted].
              destruct (Z.ltb_spec 0 bytesWritten) as [? | _]; [lia | reflexivity].
           ++ exact IH.
        -- apply run_ok_stop, stops_failed. unfold other_failure.
           rewrite (proj2 (Z.ltb_lt _ _) Hneg), (proj2 (Z.eqb_neq _ _) Hpipe), Hagain.
           reflexivity.
    + destruct (Z.eqb_spec bytesWritten 0) as [Hzero | Hpos].
      * apply run_ok_stop, stops_closed. unfold consumer_closed.
        rewrite (proj2 (Z.eqb_eq _ _) Hzero). apply orb_true_r.
      * specialize (IH outFd (offset + bytesWritten)
                      (wrap_u64 (bytesRemaining - bytesWritten))
                      (wrap_s64 (total + bytesWritten)) e1).
        destruct (write_loop write fuel outFd (offset + bytesWritten)
                    (wrap_u64 (bytesRemaining - bytesWritten))
                    (wrap_s64 (total + bytesWritten)) e1)
          as [[[x total'] e2] tr].
        apply run_ok_cons.
        -- cbn. unfold consumer_closed, other_failure.
           rewrite (proj2 (Z.ltb_ge _ _) Hnonneg), (proj2 (Z.eqb_neq _ _) Hpos).
           reflexivity.
        -- cbn [accepted].
           destruct (Z.ltb_spec 0 bytesWritten) as [_ | ?]; [exact IH | lia].
Qed.

Lemma read_loop_ok (fuel : nat) :
  forall (vob : dvd_file_t) (outFd lastSector currentBlock total : Z) (e : E),
    run_ok total
      (read_loop DVDReadBlocks write fuel vob outFd lastSector currentBlock total e).
Proof.
  induction fuel as [| fuel IH]; intros vob outFd lastSector currentBlock total e;
    cbn [read_loop];
    (destruct (currentBlock <=? lastSector); [| apply run_ok_done; discriminate]).
  - apply run_ok_done. discriminate.
  - cbv zeta.
    destruct (DVDReadBlocks e vob (block_arg currentBlock) _) as [blocksActuallyRead e1].
    destruct (blocksActuallyRead <=? 0).
    + specialize (IH vob outFd lastSector (wrap_u32 (currentBlock + 1)) total e1).
      destruct (read_loop DVDReadBlocks write fuel vob outFd lastSector
                  (wrap_u32 (currentBlock + 1)) total e1) as [[[x total'] e2] tr].
      apply run_ok_cons_idle; [reflexivity | reflexivity | exact IH].
    + pose proof (write_loop_ok fuel outFd 0
                    (wrap_u64 (blocksActuallyRead * DVD_VIDEO_LB_LEN)) total e1) as Hw.
      destruct (write_loop write fuel outFd 0
                  (wrap_u64 (blocksActuallyRead * DVD_VIDEO_LB_LEN)) total e1)
        as [[[xw total1] e2] trw].
      destruct xw.
      * specialize (IH vob outFd lastSector
                      (wrap_u32 (currentBlock + blocksActuallyRead)) total1 e2).
        destruct (read_loop DVDReadBlocks write fuel vob outFd lastSector
                    (wrap_u32 (currentBlock + blocksActuallyRead)) total1 e2)
          as [[[x total'] e3] tr].
        apply run_ok_cons_idle; [reflexivity | reflexivity |].
        exact (run_ok_app _ _ _ _ _ _ _ _ Hw IH).
      * apply run_ok_cons_idle; [reflexivity | reflexivity | exact Hw].
      * apply run_ok_cons_idle; [reflexivity | reflexivity | exact Hw].
Qed.

Lemma read_ranges_ok (fuel : nat) (vob : dvd_file_t) (outFd : Z) :
  forall (ranges : list (Z * Z)) (total : Z) (e : E),
    run_ok total (read_ranges DVDReadBlocks write fuel vob outFd ranges total e).
Proof.
  induction ranges as [| [firstSector lastSector] rest IH]; intros total e;
    cbn [read_ranges]; [apply run_ok_done; discriminate |].
  pose proof (read_loop_ok fuel vob outFd lastSector firstSector total e) as Hr.
  destruct (read_loop DVDReadBlocks write fuel vob outFd lastSector firstSector total e)
    as [[[x1 total1] e1] tr1].
  destruct x1; [| exact Hr | exact Hr].
  specialize (IH total1 e1).
  destruct (read_ranges DVDReadBlocks write fuel vob outFd rest total1 e1)
    as [[[x total'] e2] tr].
  exact (run_ok_app _ _ _ _ _ _ _ _ Hr IH).
Qed.

(** The cell loop reads the ranges of the valid cells, in order, and
    nothing else. *)
Lemma stream_cells_valid_ranges (fuel : nat) (vob : dvd_file_t) (outFd : Z) :
  forall (cells : list cell_playback_t) (total : Z) (e : E),
    stream_cells DVDReadBlocks write fuel vob outFd cells total e =
    read_ranges DVDReadBlocks write fuel vob outFd (valid_ranges cells) total e.
Proof.
  induction cells as [| cell rest IH]; intros total e; [reflexivity |].
  cbn [stream_cells]. unfold valid_ranges. cbn [List.filter]. unfold valid_cell at 1.
  destruct (Z.ltb_spec (last_sector cell) (first_sector cell)) as [Hbad | Hgood].
  - destruct (Z.leb_spec (first_sector cell) (last_sector cell)); [lia |].
    apply IH.
  - destruct (Z.leb_spec (first_sector cell) (last_sector cell)); [| lia].
    cbn [map read_ranges cell_range].
    destruct (read_loop DVDReadBlocks write fuel vob outFd (last_sector cell)
                (first_sector cell) total e) as [[[x1 total1] e1] tr1].
    destruct x1; try reflexivity.
    rewrite IH. reflexivity.
Qed.

(** The streaming call on a resolved title. *)
Lemma dvdStreamToFdNative_resolved (g_dvdHandles : gmap Z dvd_reader_t)
    (handle titleNumber : Z) (dvd : dvd_reader_t) (vtsN : Z) (p : pgc_t)
    (outFd : Z) (fuel : nat) (e : E) :
  resolves_to g_dvdHandles handle titleNumber dvd vtsN p ->
  dvdStreamToFdNative DVDReadBlocks write g_dvdHandles handle titleNumber outFd fuel e =
    match DVDOpenFile dvd vtsN with
    | None => (Returned (-1), [], e)
    | Some vob =>
        stream_return
          (read_ranges DVDReadBlocks write fuel vob outFd
             (valid_ranges (cell_playback p)) 0 e)
    end.
Proof.
  intros (vmg & srpt & entry & vts & Hh & Hvmg & Hsrpt & Htn & Hentry & -> & Hvts & Hp).
  pose proof (title_lookup_in_range _ _ _ Htn Hentry) as Hin.
  unfold dvdStreamToFdNative. rewrite Hh, Hvmg, Hsrpt. cbv zeta.
  rewrite (title_check_passes _ _ Hin).
  rewrite (at_index_lookup (title srpt) (titleNumber - 1) entry ltac:(lia) Hentry).
  rewrite Hvts, Hp.
  destruct (DVDOpenFile dvd (title_set_nr entry)); [| reflexivity].
  rewrite stream_cells_valid_ranges. reflexivity.
Qed.

(** Every run of the streaming call has the shape of a loop run, and its
    return value is the byte count the sink accepted. *)
Lemma dvdStreamToFdNative_run (g_dvdHandles : gmap Z dvd_reader_t)
    (handle titleNumber outFd : Z) (fuel : nat) (e e' : E)
    (res : stream_result) (tr : list event) :
  dvdStreamToFdNative DVDReadBlocks write g_dvdHandles handle titleNumber outFd fuel e
    = (res, tr, e') ->
  tr = [] \/
  exists x total,
    run_ok 0 (x, total, e', tr) /\
    res = match x with Starved => OutOfFuel | _ => Returned total end.
Proof.
  unfold dvdStreamToFdNative.
  repeat (case_match; try (intros [= <- <- <-]; left; reflexivity)).
  intros Hret. right.
  match type of Hret with
  | stream_return (stream_cells _ _ _ ?vob _ ?cells _ _) = _ =>
      pose proof (stream_cells_valid_ranges fuel vob outFd cells 0 e) as Heq;
      pose proof (read_ranges_ok fuel vob outFd (valid_ranges cells) 0 e) as Hok;
      rewrite <- Heq in Hok;
      destruct (stream_cells DVDReadBlocks write fuel vob outFd cells 0 e)
        as [[[x total] e2] tr2]
  end.
  exists x, total. unfold stream_return in Hret.
  destruct x; injection Hret as <- <- <-; split; try exact Hok; reflexivity.
Qed.

(** A run that contains a stopping write ends with it and returns the
    bytes accepted before it. *)
Lemma stream_stop_returns_accepted (g_dvdHandles : gmap Z dvd_reader_t)
    (handle titleNumber outFd : Z) (fuel : nat) (e e' : E)
    (res : stream_result) (tr pre post : list event) (ev : event) :
  dvdStreamToFdNative DVDReadBlocks write g_dvdHandles handle titleNumber outFd fuel e
    = (res, tr, e') ->
  tr = pre ++ ev :: post ->
  stops ev = true ->
  accepted_bytes pre < 2 ^ 63 ->
  res = Returned (accepted_bytes pre) /\ 0 <= accepted_bytes pre /\ post = [].
Proof.
  intros Hrun Htr Hev Hfit.
  pose proof (accepted_bytes_nonneg pre) as Hnonneg.
  destruct (dvdStreamToFdNative_run _ _ _ _ _ _ _ _ _ Hrun)
    as [Hnil | (x & total & [Hshape Htotal] & Hres)].
  { rewrite Hnil in Htr. destruct pre; discriminate. }
  destruct (run_shape_stops_last _ _ _ _ _ Hshape Htr Hev) as [-> ->].
  split; [| split; [exact Hnonneg | reflexivity]].
  rewrite Hres, Htotal by (unfold in_s64; lia).
  rewrite Htr, accepted_bytes_app, accepted_bytes_cons, (accepted_stops ev Hev).
  cbn. rewrite !Z.add_0_r, wrap_s64_id by (unfold in_s64; lia). reflexivity.
Qed.

End StreamingProperties.

(** ** The sink *)

(** C5.  In every run of the streaming call in which the sink reports
    closed (a write failing with the consumer-closed signal, or a
    zero-length write) after N bytes have been accepted, the call returns
    exactly N, a non-negative byte count rather than a failure, and the
    closing write is the last event of the run: no backend read and no
    write follows it.  N is taken within the range of the counter. *)
Theorem sink_closed_returns_accepted {E : Type}
    (DVDReadBlocks : E -> dvd_file_t -> Z -> Z -> Z * E)
    (write : E -> Z -> Z -> Z -> (Z * Z) * E)
    (g_dvdHandles : gmap Z dvd_reader_t)
    (handle titleNumber outFd : Z) (fuel : nat) (e e' : E)
    (res : stream_result) (tr pre post : list event)
    (fd offset count ret errno : Z) :
  dvdStreamToFdNative DVDReadBlocks write g_dvdHandles handle titleNumber outFd fuel e
    = (res, tr, e') ->
  tr = pre ++ EvWrite fd offset count ret errno :: post ->
  consumer_closed ret errno = true ->
  accepted_bytes pre < 2 ^ 63 ->
  res = Returned (accepted_bytes pre) /\ 0 <= accepted_bytes pre /\ post = [].
Proof.
  intros Hrun Htr Hclosed Hfit.
  exact (stream_stop_returns_accepted DVDReadBlocks write _ _ _ _ _ _ _ _ _ _ _ _
           Hrun Htr (stops_closed _ _ _ _ _ Hclosed) Hfit).
Qed.

Lemma sink_closed_returns_accepted_witness :
  Returned 2048 = Returned (accepted_bytes [EvRead 1 100 4 4; EvWrite 7 0 8192 2048 0]) /\
  0 <= accepted_bytes [EvRead 1 100 4 4; EvWrite 7 0 8192 2048 0] /\
  @nil event = [].
Proof.
  apply (sink_closed_returns_accepted scripted_read scripted_write sample_handles
           1 1 7 10 [(2048, 0); (-1, 32)] []
           (Returned 2048)
           [EvRead 1 100 4 4; EvWrite 7 0 8192 2048 0; EvWrite 7 2048 6144 (-1) 32]
           [EvRead 1 100 4 4; EvWrite 7 0 8192 2048 0] []
           7 2048 6144 (-1) 32).
  - reflexivity.
  - reflexivity.
  - reflexivity.
  - vm_compute. reflexivity.
Defined.

(** In every run in which a write fails with a signal that is neither
    would-block nor consumer-closed, the call returns the bytes accepted so
    far, a non-negative count. *)
Lemma sink_failure_returns_accepted {E : Type}
    (DVDReadBlocks : E -> dvd_file_t -> Z -> Z -> Z * E)
    (write : E -> Z -> Z -> Z -> (Z * Z) * E)
    (g_dvdHandles : gmap Z dvd_reader_t)
    (handle titleNumber outFd : Z) (fuel : nat) (e e' : E)
    (res : stream_result) (tr pre post : list event)
    (fd offset count ret errno : Z) :
  dvdStreamToFdNative DVDReadBlocks write g_dvdHandles handle titleNumber outFd fuel e
    = (res, tr, e') ->
  tr = pre ++ EvWrite fd offset count ret errno :: post ->
  other_failure ret errno = true ->
  accepted_bytes pre < 2 ^ 63 ->
  res = Returned (accepted_bytes pre) /\ res <> Returned (-1) /\ post = [].
Proof.
  intros Hrun Htr Hfail Hfit.
  destruct (stream_stop_returns_accepted DVDReadBlocks write _ _ _ _ _ _ _ _ _ _ _ _
              Hrun Htr (stops_failed _ _ _ _ _ Hfail) Hfit) as (-> & Hnonneg & ->).
  repeat split. intros [= Heq]. lia.
Qed.

(** C4 fails on the code.  On the sample disc, with a sink whose first
    write fails with errno 5 (an I/O error: neither would-block nor
    consumer-closed), the streaming call returns 0, the bytes written so
    far, and not -1; with one accepted write of 2048 bytes before the
    failure it returns 2048. *)
Theorem sink_failure_returns_byte_count :
  other_failure (-1) 5 = true /\
  dvdStreamToFdNative scripted_read scripted_write sample_handles 1 1 7 10 [(-1, 5)]
    = (Returned 0, [EvRead 1 100 4 4; EvWrite 7 0 8192 (-1) 5], []) /\
  dvdStreamToFdNative scripted_read scripted_write sample_handles 1 1 7 10
      [(2048, 0); (-1, 5)]
    = (Returned 2048,
       [EvRead 1 100 4 4; EvWrite 7 0 8192 2048 0; EvWrite 7 2048 6144 (-1) 5], []).
Proof. repeat split. Qed.

(** ** Sector ranges *)

Lemma find_pgc_agree (vts : ifo_handle_t) (vtsTtn : Z) :
  vob_find_pgc vts vtsTtn = stream_find_pgc vts vtsTtn.
Proof. reflexivity. Qed.

Lemma vob_collect_offsets_valid_ranges (cells : list cell_playback_t) :
  vob_collect_offsets cells = range_offsets (valid_ranges cells).
Proof.
  induction cells as [| cell rest IH]; [reflexivity |].
  cbn [vob_collect_offsets]. unfold valid_ranges. cbn [List.filter].
  unfold valid_cell at 1.
  destruct (Z.geb_spec (last_sector cell) (first_sector cell)) as [Hgood | Hbad];
    destruct (Z.leb_spec (first_sector cell) (last_sector cell)); try lia.
  - cbn [map range_offsets cell_range]. rewrite IH. reflexivity.
  - exact IH.
Qed.

Lemma range_offsets_inj (r1 r2 : list (Z * Z)) :
  range_offsets r1 = range_offsets r2 -> r1 = r2.
Proof.
  revert r2. induction r1 as [| [f1 l1] r1 IH]; intros [| [f2 l2] r2];
    cbn; try discriminate; [reflexivity |].
  intros [= -> -> Hrest]. f_equal. exact (IH _ Hrest).
Qed.

Lemma range_offsets_nil (r : list (Z * Z)) : range_offsets r = [] -> r = [].
Proof. destruct r as [| [f l] r]; [reflexivity | discriminate]. Qed.


Lemma valid_ranges_valid (cells : list cell_playback_t) (r : Z * Z) :
  r ∈ valid_ranges cells -> r.1 <= r.2.
Proof.
  unfold valid_ranges. intros Hr.
  apply list_elem_of_fmap in Hr as (c & -> & Hc).
  apply list_elem_of_In, List.filter_In in Hc as [_ Hc].
  unfold valid_cell in Hc. cbn. lia.
Qed.

(** The VOB-offset query on a resolved title. *)
Lemma dvdGetVobOffsetsNative_resolved (g_dvdHandles : gmap Z dvd_reader_t)
    (handle titleNumber : Z) (dvd : dvd_reader_t) (vtsN : Z) (p : pgc_t) :
  resolves_to g_dvdHandles handle titleNumber dvd vtsN p ->
  dvdGetVobOffsetsNative g_dvdHandles handle titleNumber =
    match valid_ranges (cell_playback p) with
    | [] => Value None
    | ranges => Value (Some (vtsN :: range_offsets ranges))
    end.
Proof.
  intros (vmg & srpt & entry & vts & Hh & Hvmg & Hsrpt & Htn & Hentry & -> & Hvts & Hp).
  pose proof (title_lookup_in_range _ _ _ Htn Hentry) as Hin.
  unfold dvdGetVobOffsetsNative. rewrite Hh, Hvmg, Hsrpt. cbv zeta.
  rewrite (title_check_passes _ _ Hin).
  rewrite (at_index_lookup (title srpt) (titleNumber - 1) entry ltac:(lia) Hentry).
  rsimpl. rewrite Hvts, find_pgc_agree, Hp. rsimpl.
  rewrite vob_collect_offsets_valid_ranges.
  destruct (valid_ranges (cell_playback p)) as [| [f l] rest]; reflexivity.
Qed.

(** A returned array comes from a resolved title. *)
Lemma dvdGetVobOffsetsNative_inv (g_dvdHandles : gmap Z dvd_reader_t)
    (handle titleNumber : Z) (dvd : dvd_reader_t) (arr : list Z) :
  g_dvdHandles !! handle = Some dvd ->
  dvdGetVobOffsetsNative g_dvdHandles handle titleNumber = Value (Some arr) ->
  exists vtsN p, resolves_to g_dvdHandles handle titleNumber dvd vtsN p.
Proof.
  intros Hh. unfold dvdGetVobOffsetsNative. rewrite Hh.
  destruct (ifoOpen dvd 0) as [vmg |] eqn:Hvmg; [| discriminate].
  destruct (tt_srpt vmg) as [srpt |] eqn:Hsrpt; [| discriminate].
  cbv zeta.
  destruct ((titleNumber <? 1) || (titleNumber >? nr_of_srpts srpt)); [discriminate |].
  destruct (at_index (title srpt) (titleNumber - 1)) as [entry |] eqn:Hentry;
    [| discriminate].
  rsimpl.
  destruct (ifoOpen dvd (title_set_nr entry)) as [vts |] eqn:Hvts; [| discriminate].
  rewrite find_pgc_agree.
  destruct (stream_find_pgc vts (vts_ttn entry)) as [[p |] |] eqn:Hp;
    [| discriminate | discriminate].
  intros _. apply at_index_Value in Hentry as [Hpos Hentry].
  exists (title_set_nr entry), p, vmg, srpt, entry, vts.
  repeat split; try assumption; try reflexivity. lia.
Qed.

(** ** Streaming to the end *)

Lemma sectors_read_app (tr1 tr2 : list event) :
  sectors_read (tr1 ++ tr2) = sectors_read tr1 ++ sectors_read tr2.
Proof. unfold sectors_read. apply flat_map_app. Qed.

Lemma range_sector_list_cons (firstSector lastSector : Z) (rest : list (Z * Z)) :
  range_sector_list ((firstSector, lastSector) :: rest)
  = seqZ firstSector (lastSector - firstSector + 1) ++ range_sector_list rest.
Proof. reflexivity. Qed.


Lemma range_sectors_cons (firstSector lastSector : Z) (rest : list (Z * Z)) :
  range_sectors ((firstSector, lastSector) :: rest)
  = (lastSector - firstSector + 1) + range_sectors rest.
Proof. reflexivity. Qed.

Lemma range_sectors_nonneg (ranges : list (Z * Z)) :
  (forall r, r ∈ ranges -> r.1 <= r.2) -> 0 <= range_sectors ranges.
Proof.
  induction ranges as [| [f l] rest IH]; intros Hall; [cbn; lia |].
  rewrite range_sectors_cons.
  pose proof (Hall (f, l) ltac:(left)) as Hfl. cbn in Hfl.
  assert (0 <= range_sectors rest) by (apply IH; intros r Hr; apply Hall; right; exact Hr).
  lia.
Qed.

(** A block number below 2^31 reaches the library as it is. *)
Lemma block_arg_id (currentBlock : Z) :
  0 <= currentBlock < 2 ^ 31 -> block_arg currentBlock = currentBlock.
Proof.
  intros H. unfold block_arg, wrap_s32. rewrite Z.mod_small by lia. lia.
Qed.

(** The bounds of the valid cells carry over to their ranges. *)
Lemma valid_ranges_bounds (cells : list cell_playback_t) (top : Z) :
  (forall c, c ∈ cells -> first_sector c <= last_sector c ->
             0 <= first_sector c /\ last_sector c < top) ->
  forall r, r ∈ valid_ranges cells -> 0 <= r.1 <= r.2 /\ r.2 < top.
Proof.
  intros Hcells r Hr. unfold valid_ranges in Hr.
  apply list_elem_of_fmap in Hr as (c & -> & Hc).
  apply list_elem_of_In, filter_In in Hc as [Hc Hvalid].
  apply list_elem_of_In in Hc. unfold valid_cell in Hvalid. apply Z.leb_le in Hvalid.
  specialize (Hcells c Hc Hvalid). cbn. lia.
Qed.

Section ReadsFrom.

Context {E : Type}.
Variable DVDReadBlocks : E -> dvd_file_t -> Z -> Z -> Z * E.
Variable write : E -> Z -> Z -> Z -> (Z * Z) * E.

Lemma write_loop_reads_from (file : dvd_file_t) (fuel : nat) :
  forall outFd offset bytesRemaining total e,
    Forall (reads_from file)
      (write_loop write fuel outFd offset bytesRemaining total e).2.
Proof.
  induction fuel as [| fuel IH]; intros outFd offset bytesRemaining total e;
    cbn [write_loop]; (destruct (bytesRemaining >? 0); [| constructor]).
  - constructor.
  - destruct (write e outFd offset bytesRemaining) as [[bytesWritten errno] e1].
    destruct (bytesWritten <? 0).
    + destruct (errno =? EPIPE); [repeat constructor |].
      destruct ((errno =? EAGAIN) || (errno =? EWOULDBLOCK)); [| repeat constructor].
      specialize (IH outFd offset bytesRemaining total e1).
      destruct (write_loop write fuel outFd offset bytesRemaining total e1)
        as [[[x t] e2] tr]. cbn in *. constructor; [exact I | exact IH].
    + destruct (bytesWritten =? 0); [repeat constructor |].
      specialize (IH outFd (offset + bytesWritten)
                    (wrap_u64 (bytesRemaining - bytesWritten))
                    (wrap_s64 (total + bytesWritten)) e1).
      destruct (write_loop write fuel outFd (offset + bytesWritten)
                  (wrap_u64 (bytesRemaining - bytesWritten))
                  (wrap_s64 (total + bytesWritten)) e1) as [[[x t] e2] tr].
      cbn in *. constructor; [exact I | exact IH].
Qed.

(** Every read of the read loop is a read of the file it was given. *)
Lemma read_loop_reads_from (fuel : nat) :
  forall vob outFd lastSector currentBlock total e,
    Forall (reads_from vob)
      (read_loop DVDReadBlocks write fuel vob outFd lastSector currentBlock total e).2.
Proof.
  induction fuel as [| fuel IH]; intros vob outFd lastSector currentBlock total e;
    cbn [read_loop]; (destruct (currentBlock <=? lastSector); [| constructor]).
  - constructor.
  - cbv zeta.
    destruct (DVDReadBlocks e vob (block_arg currentBlock) _) as [n e1].
    destruct (n <=? 0).
    + specialize (IH vob outFd lastSector (wrap_u32 (currentBlock + 1)) total e1).
      destruct (read_loop DVDReadBlocks write fuel vob outFd lastSector
                  (wrap_u32 (currentBlock + 1)) total e1) as [[[x t] e2] tr].
      cbn in *. constructor; [reflexivity | exact IH].
    + pose proof (write_loop_reads_from vob fuel outFd 0
                    (wrap_u64 (n * DVD_VIDEO_LB_LEN)) total e1) as Hw.
      destruct (write_loop write fuel outFd 0 (wrap_u64 (n * DVD_VIDEO_LB_LEN)) total e1)
        as [[[xw t1] e2] trw].
      destruct xw.
      * specialize (IH vob outFd lastSector (wrap_u32 (currentBlock + n)) t1 e2).
        destruct (read_loop DVDReadBlocks write fuel vob outFd lastSector
                    (wrap_u32 (currentBlock + n)) t1 e2) as [[[x t] e3] tr].
        cbn in *. constructor; [reflexivity |]. apply Forall_app. split; assumption.
      * cbn in *. constructor; [reflexivity | exact Hw].
      * cbn in *. constructor; [reflexivity | exact Hw].
Qed.

Lemma read_ranges_reads_from (fuel : nat) (vob : dvd_file_t) (outFd : Z) :
  forall ranges total e,
    Forall (reads_from vob)
      (read_ranges DVDReadBlocks write fuel vob outFd ranges total e).2.
Proof.
  induction ranges as [| [f l] rest IH]; intros total e;
    cbn [read_ranges]; [constructor |].
  pose proof (read_loop_reads_from fuel vob outFd l f total e) as Hloop.
  destruct (read_loop DVDReadBlocks write fuel vob outFd l f total e)
    as [[[x1 t1] e1] tr1].
  destruct x1; try exact Hloop.
  specialize (IH t1 e1).
  destruct (read_ranges DVDReadBlocks write fuel vob outFd rest t1 e1)
    as [[[x t] e2] tr].
  cbn in *. apply Forall_app. split; assumption.
Qed.

(** The streaming call on a resolved title reads from the data file of the
    title set it resolved, and from no other. *)
Lemma dvdStreamToFdNative_reads_from (g_dvdHandles : gmap Z dvd_reader_t)
    (handle titleNumber : Z) (dvd : dvd_reader_t) (vtsN : Z) (p : pgc_t)
    (outFd : Z) (fuel : nat) (e : E) :
  resolves_to g_dvdHandles handle titleNumber dvd vtsN p ->
  Forall (reads_from vtsN)
    (dvdStreamToFdNative DVDReadBlocks write g_dvdHandles handle titleNumber
       outFd fuel e).1.2.
Proof.
  intros Hres.
  rewrite (dvdStreamToFdNative_resolved DVDReadBlocks write _ _ _ _ _ _ _ _ _ Hres).
  unfold DVDOpenFile. destruct (decide (vtsN ∈ vob_files dvd)); [| constructor].
  pose proof (read_ranges_reads_from fuel vtsN outFd
                (valid_ranges (cell_playback p)) 0 e) as Hall.
  destruct (read_ranges DVDReadBlocks write fuel vtsN outFd
              (valid_ranges (cell_playback p)) 0 e) as [[[x total] e2] tr].
  destruct x; exact Hall.
Qed.

End ReadsFrom.

Section Completion.

Context {E : Type}.
Variable DVDReadBlocks : E -> dvd_file_t -> Z -> Z -> Z * E.
Variable write : E -> Z -> Z -> Z -> (Z * Z) * E.
Hypothesis Hdelivers : delivers DVDReadBlocks.
Hypothesis Haccepts : accepts write.

Lemma write_loop_nothing (fuel : nat) (outFd offset total : Z) (e : E) :
  write_loop write fuel outFd offset 0 total e = (Completed, total, e, []).
Proof. destruct fuel; reflexivity. Qed.

(** One write takes the whole batch. *)
Lemma write_loop_accepts (fuel : nat) (outFd offset bytes total : Z) (e : E) :
  0 < bytes ->
  exists errno e',
    write_loop write (S fuel) outFd offset bytes total e
      = (Completed, wrap_s64 (total + bytes), e',
         [EvWrite outFd offset bytes bytes errno]).
Proof.
  intros Hbytes. cbn [write_loop].
  destruct (Z.gtb_spec bytes 0) as [_ | ?]; [| lia].
  pose proof (Haccepts e outFd offset bytes) as Hw.
  destruct (write e outFd offset bytes) as [[bytesWritten errno] e1]. cbn in Hw. subst.
  destruct (Z.ltb_spec bytes 0) as [? | _]; [lia |].
  destruct (Z.eqb_spec bytes 0) as [? | _]; [lia |].
  replace (wrap_u64 (bytes - bytes)) with 0
    by (unfold wrap_u64; rewrite Z.sub_diag; reflexivity).
  rewrite write_loop_nothing. eauto.
Qed.

(** The read loop runs through a range that stays clear of the top of the
    32-bit sector numbers: every batch read is written in full, and when
    the range lies below sector 2^31 the sectors obtained from the backend
    are those from [currentBlock] to [lastSector], each once and in
    order. *)
Lemma read_loop_covers (vob : dvd_file_t) (outFd lastSector : Z) :
  lastSector < 2 ^ 32 - 1 ->
  forall (fuel : nat) (currentBlock total : Z) (e : E),
    0 <= currentBlock <= lastSector + 1 ->
    (Z.to_nat (lastSector - currentBlock + 1) + 1 <= fuel)%nat ->
    0 <= total ->
    total + DVD_VIDEO_LB_LEN * (lastSector - currentBlock + 1) < 2 ^ 63 ->
    exists e' tr,
      read_loop DVDReadBlocks write fuel vob outFd lastSector currentBlock total e
        = (Completed, total + DVD_VIDEO_LB_LEN * (lastSector - currentBlock + 1), e', tr) /\
      accepted_bytes tr = DVD_VIDEO_LB_LEN * (lastSector - currentBlock + 1) /\
      (lastSector < 2 ^ 31 ->
       sectors_read tr = seqZ currentBlock (lastSector - currentBlock + 1)).
Proof.
  intros Htop. unfold DVD_VIDEO_LB_LEN.
  induction fuel as [| fuel IH]; intros currentBlock total e Hcur Hfuel Htotal Hfit;
    [lia |].
  cbn [read_loop].
  destruct (Z.leb_spec currentBlock lastSector) as [Hle | Hgt].
  2:{ replace (lastSector - currentBlock + 1) with 0 by lia.
      rewrite Z.mul_0_r, Z.add_0_r. eexists _, _. repeat split. }
  cbv zeta.
  assert (Hrem : wrap_u32 (lastSector - currentBlock + 1) = lastSector - currentBlock + 1).
  { unfold wrap_u32. apply Z.mod_small. lia. }
  rewrite Hrem.
  set (blocksToRead := if lastSector - currentBlock + 1 >? BLOCK_COUNT
                       then BLOCK_COUNT else lastSector - currentBlock + 1).
  assert (Hn : 1 <= blocksToRead <= 128 /\ blocksToRead <= lastSector - currentBlock + 1).
  { unfold blocksToRead, BLOCK_COUNT.
    destruct (Z.gtb_spec (lastSector - currentBlock + 1) 128); lia. }
  pose proof (Hdelivers e vob (block_arg currentBlock) blocksToRead) as Hr.
  destruct (DVDReadBlocks e vob (block_arg currentBlock) blocksToRead)
    as [blocksActuallyRead e1].
  cbn in Hr. subst blocksActuallyRead.
  destruct (Z.leb_spec blocksToRead 0) as [? | _]; [lia |].
  unfold DVD_VIDEO_LB_LEN.
  assert (Hbytes : wrap_u64 (blocksToRead * 2048) = blocksToRead * 2048).
  { unfold wrap_u64. apply Z.mod_small. lia. }
  rewrite Hbytes.
  destruct fuel as [| fuel']; [lia |].
  destruct (write_loop_accepts fuel' outFd 0 (blocksToRead * 2048) total e1 ltac:(lia))
    as (errno & e2 & Hw).
  rewrite Hw.
  assert (Hnext : wrap_u32 (currentBlock + blocksToRead) = currentBlock + blocksToRead).
  { unfold wrap_u32. apply Z.mod_small. lia. }
  rewrite Hnext.
  assert (Htotal1 : wrap_s64 (total + blocksToRead * 2048) = total + blocksToRead * 2048).
  { apply wrap_s64_id. unfold in_s64. lia. }
  rewrite Htotal1.
  destruct (IH (currentBlock + blocksToRead) (total + blocksToRead * 2048) e2)
    as (e3 & tr & Hrest & Hacc & Hsec); try lia.
  rewrite Hrest. eexists _, _. split; [| split].
  - f_equal. f_equal. f_equal. lia.
  - cbn [app]. rewrite !accepted_bytes_cons, Hacc. cbn [accepted].
    destruct (Z.ltb_spec 0 (blocksToRead * 2048)); lia.
  - intros Hint. cbn [app].
    change (sectors_read
              (EvRead vob (block_arg currentBlock) blocksToRead blocksToRead
               :: EvWrite outFd 0 (blocksToRead * 2048) (blocksToRead * 2048) errno
               :: tr))
      with (seqZ (block_arg currentBlock) blocksToRead ++ sectors_read tr).
    rewrite (Hsec Hint), block_arg_id by lia.
    replace (lastSector - currentBlock + 1)
      with (blocksToRead + (lastSector - (currentBlock + blocksToRead) + 1)) by lia.
    rewrite (seqZ_app currentBlock blocksToRead
               (lastSector - (currentBlock + blocksToRead) + 1)) by lia.
    reflexivity.
Qed.

(** The ranges are read one after the other, to the end. *)
Lemma read_ranges_covers (vob : dvd_file_t) (outFd : Z) (fuel : nat) :
  forall (ranges : list (Z * Z)) (total : Z) (e : E),
    (forall r, r ∈ ranges -> 0 <= r.1 <= r.2 /\ r.2 < 2 ^ 32 - 1) ->
    (Z.to_nat (range_sectors ranges) + 1 <= fuel)%nat ->
    0 <= total ->
    total + DVD_VIDEO_LB_LEN * range_sectors ranges < 2 ^ 63 ->
    exists e' tr,
      read_ranges DVDReadBlocks write fuel vob outFd ranges total e
        = (Completed, total + DVD_VIDEO_LB_LEN * range_sectors ranges, e', tr) /\
      accepted_bytes tr = DVD_VIDEO_LB_LEN * range_sectors ranges /\
      ((forall r, r ∈ ranges -> r.2 < 2 ^ 31) ->
       sectors_read tr = range_sector_list ranges).
Proof.
  unfold DVD_VIDEO_LB_LEN.
  induction ranges as [| [f l] rest IH]; intros total e Hall Hfuel Htotal Hfit.
  - cbn. rewrite Z.add_0_r. eexists _, _. repeat split.
  - rewrite range_sectors_cons in *.
    pose proof (Hall (f, l) ltac:(left)) as Hfl. cbn in Hfl.
    assert (Hrest : forall r, r ∈ rest -> 0 <= r.1 <= r.2 /\ r.2 < 2 ^ 32 - 1)
      by (intros r Hr; apply Hall; right; exact Hr).
    assert (0 <= range_sectors rest)
      by (apply range_sectors_nonneg; intros r Hr; apply Hrest; exact Hr).
    cbn [read_ranges].
    destruct (read_loop_covers vob outFd l ltac:(lia) fuel f total e)
      as (e1 & tr1 & Hloop & Hacc1 & Hsec1); try lia.
    { unfold DVD_VIDEO_LB_LEN. lia. }
    rewrite Hloop. unfold DVD_VIDEO_LB_LEN in *.
    destruct (IH (total + 2048 * (l - f + 1)) e1 Hrest)
      as (e2 & tr & Hrest' & Hacc & Hsec); try lia.
    rewrite Hrest'. eexists _, _. split; [| split].
    + f_equal. f_equal. f_equal. lia.
    + rewrite accepted_bytes_app, Hacc1, Hacc. lia.
    + intros Hint. rewrite sectors_read_app, range_sector_list_cons.
      rewrite Hsec1 by (exact (Hint (f, l) ltac:(left))).
      rewrite Hsec by (intros r Hr; apply Hint; right; exact Hr).
      reflexivity.
Qed.

(** The streaming call on a resolved title whose valid cells stay clear
    of sector 2^32 - 1: a long enough run returns the bytes of the valid
    cells, all of them written to the sink, and when the cells lie below
    sector 2^31 the sectors obtained are those of the valid cells. *)
Lemma dvdStreamToFdNative_covers (g_dvdHandles : gmap Z dvd_reader_t)
    (handle titleNumber : Z) (dvd : dvd_reader_t) (vtsN : Z) (p : pgc_t)
    (vob : dvd_file_t) (outFd : Z) :
  resolves_to g_dvdHandles handle titleNumber dvd vtsN p ->
  DVDOpenFile dvd vtsN = Some vob ->
  (forall r, r ∈ valid_ranges (cell_playback p) -> 0 <= r.1 /\ r.2 < 2 ^ 32 - 1) ->
  DVD_VIDEO_LB_LEN * range_sectors (valid_ranges (cell_playback p)) < 2 ^ 63 ->
  exists fuel, forall e, exists tr e',
    dvdStreamToFdNative DVDReadBlocks write g_dvdHandles handle titleNumber outFd fuel e
      = (Returned (DVD_VIDEO_LB_LEN * range_sectors (valid_ranges (cell_playback p))),
         tr, e') /\
    accepted_bytes tr
      = DVD_VIDEO_LB_LEN * range_sectors (valid_ranges (cell_playback p)) /\
    ((forall r, r ∈ valid_ranges (cell_playback p) -> r.2 < 2 ^ 31) ->
     sectors_read tr = range_sector_list (valid_ranges (cell_playback p))).
Proof.
  intros Hres Hvob Hbounds Hfit.
  exists (Z.to_nat (range_sectors (valid_ranges (cell_playback p))) + 1)%nat.
  intros e.
  rewrite (dvdStreamToFdNative_resolved DVDReadBlocks write _ _ _ _ _ _ _ _ _ Hres), Hvob.
  destruct (read_ranges_covers vob outFd
              (Z.to_nat (range_sectors (valid_ranges (cell_playback p))) + 1)
              (valid_ranges (cell_playback p)) 0 e)
    as (e' & tr & Hrun & Hacc & Hsec); [| lia | lia | lia |].
  { intros r Hr. pose proof (valid_ranges_valid _ _ Hr). specialize (Hbounds r Hr). lia. }
  rewrite Hrun. exists tr, e'. repeat split; assumption.
Qed.

End Completion.

(** ** The ranges of the offset query and of the streaming call *)

(** C1.  For an open handle and any title number: an array returned by
    the VOB-offset query holds the title-set number and, in order, the
    (first, last) ranges of the valid cells of the chain that streaming
    resolves for that title.  The streaming call on the same title opens
    the data of that title set and runs its read loop over exactly these
    ranges in this order; every read it issues, in any run, is a read of
    the data file of that title set; and with a backend that delivers, a
    sink that accepts and ranges below sector 2^31 (the block numbers the
    read call can take), a long enough run returns after reading exactly
    the sectors of these ranges, range after range in the order of the
    array.  Conversely, whatever streaming resolves is what the
    VOB-offset query returns (the null array when no cell is valid). *)
Theorem vob_offsets_match_stream (g_dvdHandles : gmap Z dvd_reader_t)
    (handle titleNumber : Z) (dvd : dvd_reader_t) :
  g_dvdHandles !! handle = Some dvd ->
  (forall arr,
     dvdGetVobOffsetsNative g_dvdHandles handle titleNumber = Value (Some arr) ->
     exists vtsN ranges p,
       resolves_to g_dvdHandles handle titleNumber dvd vtsN p /\
       ranges = valid_ranges (cell_playback p) /\
       arr = vtsN :: range_offsets ranges /\
       forall (E : Type) (DVDReadBlocks : E -> dvd_file_t -> Z -> Z -> Z * E)
              (write : E -> Z -> Z -> Z -> (Z * Z) * E) (outFd : Z),
         (forall (fuel : nat) (e : E),
            dvdStreamToFdNative DVDReadBlocks write g_dvdHandles handle titleNumber
              outFd fuel e =
            match DVDOpenFile dvd vtsN with
            | None => (Returned (-1), [], e)
            | Some vob =>
                stream_return
                  (read_ranges DVDReadBlocks write fuel vob outFd ranges 0 e)
            end) /\
         (forall (fuel : nat) (e : E),
            Forall (reads_from vtsN)
              (dvdStreamToFdNative DVDReadBlocks write g_dvdHandles handle
                 titleNumber outFd fuel e).1.2) /\
         (forall vob,
            DVDOpenFile dvd vtsN = Some vob ->
            delivers DVDReadBlocks ->
            accepts write ->
            (forall r, r ∈ ranges -> 0 <= r.1 /\ r.2 < 2 ^ 31) ->
            DVD_VIDEO_LB_LEN * range_sectors ranges < 2 ^ 63 ->
            exists fuel, forall e, exists tr e',
              dvdStreamToFdNative DVDReadBlocks write g_dvdHandles handle
                titleNumber outFd fuel e
              = (Returned (DVD_VIDEO_LB_LEN * range_sectors ranges), tr, e') /\
              sectors_read tr = range_sector_list ranges)) /\
  (forall vtsN p,
     resolves_to g_dvdHandles handle titleNumber dvd vtsN p ->
     dvdGetVobOffsetsNative g_dvdHandles handle titleNumber =
       match valid_ranges (cell_playback p) with
       | [] => Value None
       | ranges => Value (Some (vtsN :: range_offsets ranges))
       end).
Proof.
  intros Hh. split.
  - intros arr Hvob.
    destruct (dvdGetVobOffsetsNative_inv _ _ _ _ _ Hh Hvob) as (vtsN & p & Hres).
    exists vtsN, (valid_ranges (cell_playback p)), p.
    split; [exact Hres |]. split; [reflexivity |]. split.
    + rewrite (dvdGetVobOffsetsNative_resolved _ _ _ _ _ _ Hres) in Hvob.
      destruct (valid_ranges (cell_playback p)); [discriminate |].
      injection Hvob as <-. reflexivity.
    + intros E DVDReadBlocks write outFd. split; [| split].
      * intros fuel e.
        exact (dvdStreamToFdNative_resolved DVDReadBlocks write _ _ _ dvd vtsN p
                 outFd fuel e Hres).
      * intros fuel e.
        exact (dvdStreamToFdNative_reads_from DVDReadBlocks write _ _ _ dvd vtsN p
                 outFd fuel e Hres).
      * intros vob Hfile Hdel Hacc Hbounds Hfit.
        destruct (dvdStreamToFdNative_covers DVDReadBlocks write Hdel Hacc
                    _ _ _ dvd vtsN p vob outFd Hres Hfile) as [fuel Hrun].
        { intros r Hr. specialize (Hbounds r Hr). lia. }
        { exact Hfit. }
        exists fuel. intros e. destruct (Hrun e) as (tr & e' & Heq & _ & Hsec).
        exists tr, e'. split; [exact Heq |].
        apply Hsec. intros r Hr. apply Hbounds. exact Hr.
  - intros vtsN p Hres.
    exact (dvdGetVobOffsetsNative_resolved _ _ _ dvd vtsN p Hres).
Qed.

Lemma vob_offsets_match_stream_witness :
  exists vtsN ranges p,
    resolves_to sample_handles 1 1 sample_dvd vtsN p /\
    ranges = valid_ranges (cell_playback p) /\
    [1; 100; 103; 300; 301] = vtsN :: range_offsets ranges /\
    exists fuel, forall e, exists tr e',
      dvdStreamToFdNative scripted_read accepting_write sample_handles 1 1 7 fuel e
      = (Returned 12288, tr, e') /\
      Forall (reads_from 1) tr /\
      sectors_read tr = [100; 101; 102; 103; 300; 301].
Proof.
  destruct (vob_offsets_match_stream sample_handles 1 1 sample_dvd) as [Hvob _].
  - reflexivity.
  - destruct (Hvob [1; 100; 103; 300; 301] eq_refl)
      as (vtsN & ranges & p & Hres & Hranges & Harr & Hstream).
    exists vtsN, ranges, p.
    split; [exact Hres |]. split; [exact Hranges |]. split; [exact Harr |].
    injection Harr as <- Hoffsets.
    assert (Hr : ranges = [(100, 103); (300, 301)]).
    { apply range_offsets_inj. symmetry. exact Hoffsets. }
    destruct (Hstream (list (Z * Z)) scripted_read accepting_write 7)
      as (_ & Hfrom & Hcover).
    destruct (Hcover 1) as [fuel Hrun].
    + reflexivity.
    + intros e file block count. reflexivity.
    + intros e fd offset count. reflexivity.
    + rewrite Hr. intros r Hin.
      repeat (apply elem_of_cons in Hin as [-> | Hin]; [cbn; lia |]).
      apply elem_of_nil in Hin. destruct Hin.
    + rewrite Hr. vm_compute. reflexivity.
    + exists fuel. intros e. destruct (Hrun e) as (tr & e' & Heq & Hsec).
      exists tr, e'. rewrite Hr in Heq, Hsec. split; [exact Heq |]. split.
      * specialize (Hfrom fuel e). rewrite Heq in Hfrom. exact Hfrom.
      * exact Hsec.
Defined.

(** ** A cell that ends at the top of the sector numbers *)

Section TopSector.

Context {E : Type}.
Variable DVDReadBlocks : E -> dvd_file_t -> Z -> Z -> Z * E.
Variable write : E -> Z -> Z -> Z -> (Z * Z) * E.

(** The loop condition [currentBlock <= lastSector] compares 32-bit
    numbers, so with [lastSector] at 2^32 - 1 it cannot become false. *)
Lemma read_loop_top (fuel : nat) :
  forall vob outFd currentBlock total e,
    currentBlock <= 2 ^ 32 - 1 ->
    (read_loop DVDReadBlocks write fuel vob outFd (2 ^ 32 - 1) currentBlock total e).1.1.1
    <> Completed.
Proof.
  assert (Hwrap : forall z, wrap_u32 z <= 2 ^ 32 - 1).
  { intros z. unfold wrap_u32. pose proof (Z.mod_pos_bound z (2 ^ 32) ltac:(lia)). lia. }
  induction fuel as [| fuel IH]; intros vob outFd currentBlock total e Hcur;
    cbn [read_loop];
    (destruct (Z.leb_spec currentBlock (2 ^ 32 - 1)) as [_ | ?]; [| lia]).
  - discriminate.
  - cbv zeta. destruct (DVDReadBlocks e vob (block_arg currentBlock) _) as [n e1].
    destruct (n <=? 0).
    + specialize (IH vob outFd (wrap_u32 (currentBlock + 1)) total e1 (Hwrap _)).
      destruct (read_loop DVDReadBlocks write fuel vob outFd (2 ^ 32 - 1)
                  (wrap_u32 (currentBlock + 1)) total e1) as [[[x t] e2] tr].
      exact IH.
    + destruct (write_loop write fuel outFd 0 (wrap_u64 (n * DVD_VIDEO_LB_LEN)) total e1)
        as [[[xw t1] e2] trw].
      destruct xw; [| discriminate | discriminate].
      specialize (IH vob outFd (wrap_u32 (currentBlock + n)) t1 e2 (Hwrap _)).
      destruct (read_loop DVDReadBlocks write fuel vob outFd (2 ^ 32 - 1)
                  (wrap_u32 (currentBlock + n)) t1 e2) as [[[x t] e3] tr].
      exact IH.
Qed.

Lemma read_ranges_top (fuel : nat) (vob : dvd_file_t) (outFd : Z) :
  forall (ranges : list (Z * Z)) (firstSector total : Z) (e : E),
    (firstSector, 2 ^ 32 - 1) ∈ ranges ->
    firstSector <= 2 ^ 32 - 1 ->
    (read_ranges DVDReadBlocks write fuel vob outFd ranges total e).1.1.1 <> Completed.
Proof.
  induction ranges as [| [f l] rest IH]; intros firstSector total e Hin Hfirst.
  - apply elem_of_nil in Hin. contradiction.
  - cbn [read_ranges].
    apply elem_of_cons in Hin as [[= <- <-] | Hin].
    + pose proof (read_loop_top fuel vob outFd firstSector total e Hfirst) as Hloop.
      destruct (read_loop DVDReadBlocks write fuel vob outFd (2 ^ 32 - 1)
                  firstSector total e) as [[[x1 t1] e1] tr1].
      destruct x1; [exfalso; apply Hloop; reflexivity | discriminate | discriminate].
    + destruct (read_loop DVDReadBlocks write fuel vob outFd l f total e)
        as [[[x1 t1] e1] tr1].
      destruct x1; [| discriminate | discriminate].
      specialize (IH firstSector t1 e1 Hin Hfirst).
      destruct (read_ranges DVDReadBlocks write fuel vob outFd rest t1 e1)
        as [[[x t] e2] tr].
      exact IH.
Qed.

(** A sink that takes every byte offered never sends the loops to
    [finished]. *)
Lemma write_loop_accepts_goes_on (Haccepts : accepts write) (fuel : nat) :
  forall outFd offset bytesRemaining total e,
    (write_loop write fuel outFd offset bytesRemaining total e).1.1.1 <> Finished.
Proof.
  induction fuel as [| fuel IH]; intros outFd offset bytesRemaining total e;
    cbn [write_loop];
    (destruct (Z.gtb_spec bytesRemaining 0) as [Hpos | _]; [| discriminate]).
  - discriminate.
  - pose proof (Haccepts e outFd offset bytesRemaining) as Hw.
    destruct (write e outFd offset bytesRemaining) as [[bytesWritten errno] e1].
    cbn in Hw. subst bytesWritten.
    destruct (Z.ltb_spec bytesRemaining 0) as [? | _]; [lia |].
    destruct (Z.eqb_spec bytesRemaining 0) as [? | _]; [lia |].
    specialize (IH outFd (offset + bytesRemaining)
                  (wrap_u64 (bytesRemaining - bytesRemaining))
                  (wrap_s64 (total + bytesRemaining)) e1).
    destruct (write_loop write fuel outFd (offset + bytesRemaining)
                (wrap_u64 (bytesRemaining - bytesRemaining))
                (wrap_s64 (total + bytesRemaining)) e1) as [[[x t] e2] tr].
    exact IH.
Qed.

Lemma read_loop_accepts_goes_on (Haccepts : accepts write) (fuel : nat) :
  forall vob outFd lastSector currentBlock total e,
    (read_loop DVDReadBlocks write fuel vob outFd lastSector currentBlock total e).1.1.1
    <> Finished.
Proof.
  induction fuel as [| fuel IH]; intros vob outFd lastSector currentBlock total e;
    cbn [read_loop]; (destruct (currentBlock <=? lastSector); [| discriminate]).
  - discriminate.
  - cbv zeta. destruct (DVDReadBlocks e vob (block_arg currentBlock) _) as [n e1].
    destruct (n <=? 0).
    + specialize (IH vob outFd lastSector (wrap_u32 (currentBlock + 1)) total e1).
      destruct (read_loop DVDReadBlocks write fuel vob outFd lastSector
                  (wrap_u32 (currentBlock + 1)) total e1) as [[[x t] e2] tr].
      exact IH.
    + pose proof (write_loop_accepts_goes_on Haccepts fuel outFd 0
                    (wrap_u64 (n * DVD_VIDEO_LB_LEN)) total e1) as Hw.
      destruct (write_loop write fuel outFd 0 (wrap_u64 (n * DVD_VIDEO_LB_LEN)) total e1)
        as [[[xw t1] e2] trw].
      destruct xw; [| exact Hw | discriminate].
      specialize (IH vob outFd lastSector (wrap_u32 (currentBlock + n)) t1 e2).
      destruct (read_loop DVDReadBlocks write fuel vob outFd lastSector
                  (wrap_u32 (currentBlock + n)) t1 e2) as [[[x t] e3] tr].
      exact IH.
Qed.

Lemma read_ranges_accepts_goes_on (Haccepts : accepts write) (fuel : nat)
    (vob : dvd_file_t) (outFd : Z) :
  forall (ranges : list (Z * Z)) (total : Z) (e : E),
    (read_ranges DVDReadBlocks write fuel vob outFd ranges total e).1.1.1 <> Finished.
Proof.
  induction ranges as [| [f l] rest IH]; intros total e; cbn [read_ranges];
    [discriminate |].
  pose proof (read_loop_accepts_goes_on Haccepts fuel vob outFd l f total e) as Hloop.
  destruct (read_loop DVDReadBlocks write fuel vob outFd l f total e)
    as [[[x1 t1] e1] tr1].
  destruct x1; [| exact Hloop | discriminate].
  specialize (IH t1 e1).
  destruct (read_ranges DVDReadBlocks write fuel vob outFd rest t1 e1)
    as [[[x t] e2] tr].
  exact IH.
Qed.

End TopSector.

(** ** Corrupt cells *)








(* ===================================================================== *)
(** * Further properties of the native layer *)
(* ===================================================================== *)

(** ** The handle tables *)

Lemma wrap_s64_succ (z : Z) : 0 <= z -> z < 2 ^ 63 - 1 -> wrap_s64 (z + 1) = z + 1.
Proof. intros H0 H1. apply wrap_s64_id. unfold in_s64. lia. Qed.

Lemma ids_below_insert {A : Type} (table : gmap Z A) (next : Z) (a : A) :
  ids_below table next -> next < 2 ^ 63 - 1 ->
  ids_below (<[next := a]> table) (wrap_s64 (next + 1)).
Proof.
  intros [Hnext Hall] Hfit. rewrite wrap_s64_succ by lia. split; [lia |].
  intros k b Hk. destruct (decide (next = k)) as [<- | Hne].
  - lia.
  - rewrite lookup_insert_ne in Hk by exact Hne. specialize (Hall k b Hk). lia.
Qed.

Lemma ids_below_delete {A : Type} (table : gmap Z A) (next k : Z) :
  ids_below table next -> ids_below (delete k table) next.
Proof.
  intros [Hnext Hall]. split; [exact Hnext |].
  intros j b Hj. apply lookup_delete_Some in Hj as [_ Hj]. exact (Hall j b Hj).
Qed.

Lemma ids_below_fresh {A : Type} (table : gmap Z A) (next : Z) :
  ids_below table next -> table !! next = None.
Proof.
  intros [_ Hall]. destruct (table !! next) as [a |] eqn:Hk; [| reflexivity].
  specialize (Hall next a Hk). lia.
Qed.

Lemma ids_below_nonpositive {A : Type} (table : gmap Z A) (next k : Z) :
  ids_below table next -> k <= 0 -> table !! k = None.
Proof.
  intros [_ Hall] Hk. destruct (table !! k) as [a |] eqn:Hl; [| reflexivity].
  specialize (Hall k a Hl). lia.
Qed.

Section HandleProperties.

Context {D : Type}.
Variable DVDOpen : string -> option dvd_reader_t.
Variable DVDOpenStream : D -> option dvd_reader_t.

(** No call changed anything. *)
Ltac unchanged Hdvd Hvob := split; [exact (conj Hdvd Hvob) | cbn; lia].

(** One call keeps the tables in order and moves each counter by at most
    one, upwards. *)
Lemma table_step_ok (st : globals) (c : table_call) :
  tables_ok st ->
  g_nextHandleId st < 2 ^ 63 - 1 ->
  g_nextVobHandleId st < 2 ^ 63 - 1 ->
  tables_ok (table_step DVDOpen DVDOpenStream st c) /\
  g_nextHandleId st <= g_nextHandleId (table_step DVDOpen DVDOpenStream st c) <= g_nextHandleId st + 1 /\
  g_nextVobHandleId st <= g_nextVobHandleId (table_step DVDOpen DVDOpenStream st c) <= g_nextVobHandleId st + 1.
Proof.
  intros [Hdvd Hvob] Hfit Hfitv.
  pose proof (proj1 Hdvd) as Hn. pose proof (proj1 Hvob) as Hnv.
  destruct c as [path | dev | h | h vtsN | vh]; cbn [table_step].
  - unfold dvdOpenNative. destruct path as [p |]; [| unchanged Hdvd Hvob].
    destruct (DVDOpen p) as [dvd |]; [| unchanged Hdvd Hvob].
    cbn. rewrite wrap_s64_succ by lia.
    split; [| lia]. split; [| exact Hvob]. cbn.
    rewrite <- (wrap_s64_succ (g_nextHandleId st)) by lia.
    apply ids_below_insert; assumption.
  - unfold dvdOpenStreamNative.
    destruct (DVDOpenStream dev) as [dvd |]; [| unchanged Hdvd Hvob].
    cbn. rewrite wrap_s64_succ by lia.
    split; [| lia]. split; [| exact Hvob]. cbn.
    rewrite <- (wrap_s64_succ (g_nextHandleId st)) by lia.
    apply ids_below_insert; assumption.
  - unfold dvdCloseNative. destruct (h <=? 0); [unchanged Hdvd Hvob |].
    destruct (g_dvdHandles st !! h); [| unchanged Hdvd Hvob].
    cbn. split; [| lia]. split; [| exact Hvob]. cbn.
    apply ids_below_delete. exact Hdvd.
  - unfold dvdOpenVobFileNative.
    destruct (g_dvdHandles st !! h) as [dvd |]; [| unchanged Hdvd Hvob].
    destruct (DVDOpenFile dvd vtsN) as [vob |]; [| unchanged Hdvd Hvob].
    cbn. rewrite wrap_s64_succ by lia.
    split; [| lia]. split; [exact Hdvd |]. cbn.
    rewrite <- (wrap_s64_succ (g_nextVobHandleId st)) by lia.
    apply ids_below_insert; assumption.
  - unfold dvdCloseVobFileNative.
    destruct (g_vobHandles st !! vh); [| unchanged Hdvd Hvob].
    cbn. split; [| lia]. split; [exact Hdvd |]. cbn.
    apply ids_below_delete. exact Hvob.
Qed.

(** A sequence of calls that leaves room below the top of the counters. *)
Lemma table_run_ok_from (calls : list table_call) :
  forall st,
    tables_ok st ->
    g_nextHandleId st + Z.of_nat (length calls) < 2 ^ 63 ->
    g_nextVobHandleId st + Z.of_nat (length calls) < 2 ^ 63 ->
    tables_ok (table_run DVDOpen DVDOpenStream calls st) /\
    g_nextHandleId st <= g_nextHandleId (table_run DVDOpen DVDOpenStream calls st)
      <= g_nextHandleId st + Z.of_nat (length calls) /\
    g_nextVobHandleId st <= g_nextVobHandleId (table_run DVDOpen DVDOpenStream calls st)
      <= g_nextVobHandleId st + Z.of_nat (length calls).
Proof.
  induction calls as [| c calls IH]; intros st Hok Hfit Hfitv.
  - cbn. split; [exact Hok | lia].
  - cbn [table_run fold_left length] in *.
    destruct (table_step_ok st c Hok ltac:(lia) ltac:(lia)) as (Hok1 & Hn1 & Hv1).
    destruct (IH (table_step DVDOpen DVDOpenStream st c) Hok1 ltac:(lia) ltac:(lia)) as (Hok2 & Hn2 & Hv2).
    fold (table_run DVDOpen DVDOpenStream calls (table_step DVDOpen DVDOpenStream st c)).
    split; [exact Hok2 |]. lia.
Qed.

End HandleProperties.

(** The same from the load-time state. *)
Lemma reachable_tables_ok_from_initial {D : Type}
    (DVDOpen : string -> option dvd_reader_t)
    (DVDOpenStream : D -> option dvd_reader_t) (calls : list table_call) :
  Z.of_nat (length calls) < 2 ^ 63 - 1 ->
  tables_ok (table_run DVDOpen DVDOpenStream calls initial_globals).
Proof.
  intros Hlen.
  destruct (table_run_ok_from DVDOpen DVDOpenStream calls initial_globals)
    as [Hok _]; [| cbn; lia | cbn; lia | exact Hok].
  split; (split; [cbn; lia |]); intros k a Hk; cbn in Hk;
    rewrite lookup_empty in Hk; discriminate.
Defined.

(** X1.  In every state reached from the load-time state by fewer than
    2^63 - 1 open and close calls on the two tables, every live disc
    handle and every live VOB handle is at least 1 and below the counter
    that issues the next identifier. *)
Theorem reachable_tables_ok {D : Type}
    (DVDOpen : string -> option dvd_reader_t)
    (DVDOpenStream : D -> option dvd_reader_t) (calls : list table_call) :
  Z.of_nat (length calls) < 2 ^ 63 - 1 ->
  tables_ok (table_run DVDOpen DVDOpenStream calls initial_globals).
Proof.
  exact (reachable_tables_ok_from_initial DVDOpen DVDOpenStream calls).
Qed.

Lemma reachable_tables_ok_witness :
  tables_ok (table_run sample_DVDOpen sample_DVDOpenStream
               [CallOpen (Some "/dev/sr0"%string); CallOpenStream ();
                CallOpenVob 1 1; CallClose 1; CallCloseVob 1]
               initial_globals).
Proof.
  apply (reachable_tables_ok sample_DVDOpen sample_DVDOpenStream).
  vm_compute. reflexivity.
Defined.

(** X2.  On tables in order and below the top of the counter, an open
    call whose library call succeeds returns the counter value: a
    positive identifier that was not in the table, now bound to the
    opened reader, with every other binding and the VOB table untouched.
    An open call whose library call fails, or whose path string cannot be
    read, returns -1 and leaves the state as it was. *)
Theorem open_issues_fresh_handle {D : Type}
    (DVDOpen : string -> option dvd_reader_t)
    (DVDOpenStream : D -> option dvd_reader_t)
    (st : globals) :
  tables_ok st ->
  g_nextHandleId st < 2 ^ 63 - 1 ->
  (forall path dvd,
     DVDOpen path = Some dvd ->
     exists st',
       dvdOpenNative DVDOpen st (Some path) = (g_nextHandleId st, st') /\
       0 < g_nextHandleId st /\
       g_dvdHandles st !! g_nextHandleId st = None /\
       g_dvdHandles st' !! g_nextHandleId st = Some dvd /\
       (forall k, k <> g_nextHandleId st ->
                  g_dvdHandles st' !! k = g_dvdHandles st !! k) /\
       g_nextHandleId st' = g_nextHandleId st + 1 /\
       g_vobHandles st' = g_vobHandles st) /\
  (forall blockDevice dvd,
     DVDOpenStream blockDevice = Some dvd ->
     exists st',
       dvdOpenStreamNative DVDOpenStream st blockDevice = (g_nextHandleId st, st') /\
       0 < g_nextHandleId st /\
       g_dvdHandles st !! g_nextHandleId st = None /\
       g_dvdHandles st' !! g_nextHandleId st = Some dvd /\
       (forall k, k <> g_nextHandleId st ->
                  g_dvdHandles st' !! k = g_dvdHandles st !! k) /\
       g_nextHandleId st' = g_nextHandleId st + 1 /\
       g_vobHandles st' = g_vobHandles st) /\
  dvdOpenNative DVDOpen st None = (-1, st) /\
  (forall path, DVDOpen path = None ->
                dvdOpenNative DVDOpen st (Some path) = (-1, st)) /\
  (forall blockDevice, DVDOpenStream blockDevice = None ->
                       dvdOpenStreamNative DVDOpenStream st blockDevice = (-1, st)).
Proof.
  intros [Hdvd _] Hfit. pose proof (proj1 Hdvd) as Hn.
  split; [| split; [| split; [reflexivity | split]]].
  - intros path dvd Hopen. unfold dvdOpenNative. rewrite Hopen.
    eexists. split; [reflexivity |]. cbn.
    split; [lia |]. split; [exact (ids_below_fresh _ _ Hdvd) |].
    split; [apply lookup_insert_eq |].
    split; [intros k Hk; apply lookup_insert_ne; congruence |].
    split; [apply wrap_s64_succ; lia | reflexivity].
  - intros dev dvd Hopen. unfold dvdOpenStreamNative. rewrite Hopen.
    eexists. split; [reflexivity |]. cbn.
    split; [lia |]. split; [exact (ids_below_fresh _ _ Hdvd) |].
    split; [apply lookup_insert_eq |].
    split; [intros k Hk; apply lookup_insert_ne; congruence |].
    split; [apply wrap_s64_succ; lia | reflexivity].
  - intros path Hopen. unfold dvdOpenNative. rewrite Hopen. reflexivity.
  - intros dev Hopen. unfold dvdOpenStreamNative. rewrite Hopen. reflexivity.
Qed.

Lemma initial_tables_ok : tables_ok initial_globals.
Proof.
  split; (split; [cbn; lia |]); intros k a Hk; cbn in Hk;
    rewrite lookup_empty in Hk; discriminate.
Defined.

Lemma open_issues_fresh_handle_witness :
  exists st',
    dvdOpenNative sample_DVDOpen initial_globals (Some "/dev/sr0"%string) = (1, st') /\
    g_dvdHandles st' !! 1 = Some sample_dvd.
Proof.
  destruct (open_issues_fresh_handle sample_DVDOpen sample_DVDOpenStream
              initial_globals initial_tables_ok) as [Hopen _].
  - cbn. lia.
  - destruct (Hopen "/dev/sr0"%string sample_dvd eq_refl)
      as (st' & Hret & _ & _ & Hbound & _).
    exists st'. split; [exact Hret | exact Hbound].
Defined.

(** X3.  On tables in order, after a close call the handle is bound to
    nothing, every other handle is bound as before, the counters and the
    VOB table are as before, and the title count query on the closed
    handle answers -1; closing the same handle again changes nothing. *)
Theorem close_removes_only_that_handle (st : globals) (handle : Z) :
  tables_ok st ->
  g_dvdHandles (dvdCloseNative st handle) !! handle = None /\
  (forall k, k <> handle ->
             g_dvdHandles (dvdCloseNative st handle) !! k = g_dvdHandles st !! k) /\
  g_nextHandleId (dvdCloseNative st handle) = g_nextHandleId st /\
  g_vobHandles (dvdCloseNative st handle) = g_vobHandles st /\
  g_nextVobHandleId (dvdCloseNative st handle) = g_nextVobHandleId st /\
  dvdGetTitleCountNative (g_dvdHandles (dvdCloseNative st handle)) handle = -1 /\
  dvdCloseNative (dvdCloseNative st handle) handle = dvdCloseNative st handle.
Proof.
  intros [Hdvd _].
  assert (Hgone : g_dvdHandles (dvdCloseNative st handle) !! handle = None).
  { unfold dvdCloseNative. destruct (Z.leb_spec handle 0) as [Hle | Hpos].
    - exact (ids_below_nonpositive _ _ _ Hdvd Hle).
    - destruct (g_dvdHandles st !! handle) eqn:Hk; [| exact Hk].
      cbn. apply lookup_delete_eq. }
  split; [exact Hgone |]. split; [| split; [| split; [| split; [| split]]]].
  - intros k Hk. unfold dvdCloseNative. destruct (handle <=? 0); [reflexivity |].
    destruct (g_dvdHandles st !! handle); [| reflexivity].
    cbn. apply lookup_delete_ne. congruence.
  - unfold dvdCloseNative. destruct (handle <=? 0); [reflexivity |].
    destruct (g_dvdHandles st !! handle); reflexivity.
  - unfold dvdCloseNative. destruct (handle <=? 0); [reflexivity |].
    destruct (g_dvdHandles st !! handle); reflexivity.
  - unfold dvdCloseNative. destruct (handle <=? 0); [reflexivity |].
    destruct (g_dvdHandles st !! handle); reflexivity.
  - unfold dvdGetTitleCountNative. rewrite Hgone. reflexivity.
  - unfold dvdCloseNative at 1. destruct (handle <=? 0); [reflexivity |].
    rewrite Hgone. reflexivity.
Qed.

Lemma close_removes_only_that_handle_witness :
  g_dvdHandles
    (dvdCloseNative
       (table_run sample_DVDOpen sample_DVDOpenStream
          [CallOpen (Some "/dev/sr0"%string); CallOpenStream ()] initial_globals) 1)
    !! 1 = None.
Proof.
  apply (close_removes_only_that_handle
           (table_run sample_DVDOpen sample_DVDOpenStream
              [CallOpen (Some "/dev/sr0"%string); CallOpenStream ()] initial_globals) 1).
  apply (reachable_tables_ok_from_initial sample_DVDOpen sample_DVDOpenStream).
  vm_compute. reflexivity.
Defined.

Lemma open_disc_cases {D : Type} (DVDOpen : string -> option dvd_reader_t)
    (DVDOpenStream : D -> option dvd_reader_t)
    (st : globals) (req : open_request) (h : Z) (st' : globals) :
  open_disc DVDOpen DVDOpenStream st req = (h, st') ->
  (h = -1 /\ st' = st) \/
  (h = g_nextHandleId st /\ g_nextHandleId st' = wrap_s64 (g_nextHandleId st + 1)).
Proof.
  destruct req as [path | blockDevice]; cbn [open_disc].
  - unfold dvdOpenNative.
    destruct path as [p |]; [| intros [= <- <-]; left; split; reflexivity].
    destruct (DVDOpen p) as [dvd |]; [| intros [= <- <-]; left; split; reflexivity].
    intros [= <- <-]. right. split; reflexivity.
  - unfold dvdOpenStreamNative.
    destruct (DVDOpenStream blockDevice) as [dvd |];
      [| intros [= <- <-]; left; split; reflexivity].
    intros [= <- <-]. right. split; reflexivity.
Qed.

Lemma open_disc_step {D : Type} (DVDOpen : string -> option dvd_reader_t)
    (DVDOpenStream : D -> option dvd_reader_t)
    (st : globals) (req : open_request) :
  (open_disc DVDOpen DVDOpenStream st req).2
  = table_step DVDOpen DVDOpenStream st (open_request_call req).
Proof. destruct req; reflexivity. Qed.

(** X4.  An identifier issued by an open call, by path or by block
    device, is never issued again: on tables in order, with room left
    below the top of the counters, a later successful open call of either
    kind, after any sequence of open and close calls, returns a strictly
    larger identifier. *)
Theorem handle_ids_never_reissued {D : Type}
    (DVDOpen : string -> option dvd_reader_t)
    (DVDOpenStream : D -> option dvd_reader_t)
    (st : globals) (calls : list table_call)
    (req1 req2 : open_request) (h1 h2 : Z) (st1 st2 : globals) :
  tables_ok st ->
  g_nextHandleId st + Z.of_nat (length calls) + 1 < 2 ^ 63 ->
  g_nextVobHandleId st + Z.of_nat (length calls) + 1 < 2 ^ 63 ->
  open_disc DVDOpen DVDOpenStream st req1 = (h1, st1) ->
  h1 <> -1 ->
  open_disc DVDOpen DVDOpenStream (table_run DVDOpen DVDOpenStream calls st1) req2
    = (h2, st2) ->
  h2 <> -1 ->
  h1 < h2.
Proof.
  intros Hok Hfit Hfitv Hopen1 Hh1 Hopen2 Hh2.
  pose proof (proj1 (proj1 Hok)) as Hn.
  destruct (open_disc_cases _ _ _ _ _ _ Hopen2) as [[? _] | [-> _]]; [congruence |].
  destruct (open_disc_cases _ _ _ _ _ _ Hopen1) as [[? _] | [-> Hnext]]; [congruence |].
  rewrite wrap_s64_succ in Hnext by lia.
  pose proof (table_step_ok DVDOpen DVDOpenStream st (open_request_call req1) Hok
                ltac:(lia) ltac:(lia)) as (Hok1 & _ & Hv1).
  rewrite <- open_disc_step, Hopen1 in Hok1, Hv1. cbn [snd] in Hok1, Hv1.
  destruct (table_run_ok_from DVDOpen DVDOpenStream calls st1 Hok1
              ltac:(lia) ltac:(lia)) as (_ & Hn2 & _).
  lia.
Qed.

Lemma handle_ids_never_reissued_witness : 1 < 2.
Proof.
  apply (handle_ids_never_reissued sample_DVDOpen sample_DVDOpenStream
           initial_globals [CallClose 1]
           (ByPath (Some "/dev/sr0"%string)) (ByStream ()) 1 2
           (table_step sample_DVDOpen sample_DVDOpenStream initial_globals
              (CallOpen (Some "/dev/sr0"%string)))
           (table_run sample_DVDOpen sample_DVDOpenStream
              [CallOpen (Some "/dev/sr0"%string); CallClose 1;
               CallOpenStream ()] initial_globals)).
  - exact initial_tables_ok.
  - vm_compute. reflexivity.
  - vm_compute. reflexivity.
  - reflexivity.
  - discriminate.
  - reflexivity.
  - discriminate.
Defined.

(** ** Random-access reads of a title set *)

Lemma wrap_s32_id (z : Z) : - 2 ^ 31 <= z < 2 ^ 31 -> wrap_s32 z = z.
Proof. unfold wrap_s32. intros H. rewrite Z.mod_small by lia. lia. Qed.

(** X5.  A block read on a live VOB handle with a positive count, whose
    buffer is allocated and for which the backend delivers n > 0 blocks
    (n * 2048 within the range of a 32-bit int), copies the first
    min(n * 2048, length of the caller's array) bytes into the caller's
    array and returns that number: a short array truncates the data
    without an error. *)
Theorem vob_read_returns_bytes {E : Type}
    (DVDReadBlocks : E -> dvd_file_t -> Z -> Z -> Z * E) (malloc_ok : Z -> bool)
    (st : globals) (vobHandle block count arraySize : Z) (e e1 : E)
    (h : VobHandle) (vob : dvd_file_t) (n : Z) :
  g_vobHandles st !! vobHandle = Some h ->
  vh_vob h = Some vob ->
  0 < count ->
  malloc_ok (wrap_u64 (wrap_s32 (count * DVD_VIDEO_LB_LEN))) = true ->
  DVDReadBlocks e vob block count = (n, e1) ->
  0 < n ->
  n * DVD_VIDEO_LB_LEN < 2 ^ 31 ->
  dvdReadVobBlocksNative DVDReadBlocks malloc_ok st vobHandle block count arraySize e =
    (Z.min (n * DVD_VIDEO_LB_LEN) arraySize,
     [VobMalloc (wrap_u64 (wrap_s32 (count * DVD_VIDEO_LB_LEN)));
      VobRead vob block count n;
      VobCopy (Z.min (n * DVD_VIDEO_LB_LEN) arraySize);
      VobFree],
     e1).
Proof.
  intros Hh Hvob Hcount Hmalloc Hread Hn Hfit.
  unfold dvdReadVobBlocksNative. rewrite Hh, Hvob.
  destruct (Z.leb_spec count 0) as [? | _]; [lia |].
  cbv zeta. rewrite Hmalloc. cbn [negb]. rewrite Hread.
  destruct (Z.leb_spec n 0) as [? | _]; [lia |].
  rewrite wrap_s32_id by (unfold DVD_VIDEO_LB_LEN in *; lia).
  destruct (Z.ltb_spec arraySize (n * DVD_VIDEO_LB_LEN)) as [Hlt | Hge].
  - rewrite Z.min_r by lia. reflexivity.
  - rewrite Z.min_l by lia. reflexivity.
Qed.

(** X6.  A block read never touches the backend or the allocator when
    the VOB handle is unknown or the count is not positive: it returns -1
    at once.  When the backend reports end of data (0 blocks) it returns 0,
    when the backend reports an error (a negative count) it returns -1;
    in both cases nothing is copied into the caller's array and the
    buffer is freed. *)
Theorem vob_read_failures {E : Type}
    (DVDReadBlocks : E -> dvd_file_t -> Z -> Z -> Z * E) (malloc_ok : Z -> bool)
    (st : globals) (vobHandle block count arraySize : Z) (e : E) :
  (g_vobHandles st !! vobHandle = None \/ count <= 0 ->
   dvdReadVobBlocksNative DVDReadBlocks malloc_ok st vobHandle block count arraySize e
     = (-1, [], e)) /\
  (forall h vob n e1,
     g_vobHandles st !! vobHandle = Some h ->
     vh_vob h = Some vob ->
     0 < count ->
     malloc_ok (wrap_u64 (wrap_s32 (count * DVD_VIDEO_LB_LEN))) = true ->
     DVDReadBlocks e vob block count = (n, e1) ->
     n <= 0 ->
     dvdReadVobBlocksNative DVDReadBlocks malloc_ok st vobHandle block count arraySize e
       = (if n =? 0 then 0 else -1,
          [VobMalloc (wrap_u64 (wrap_s32 (count * DVD_VIDEO_LB_LEN)));
           VobRead vob block count n; VobFree],
          e1)).
Proof.
  split.
  - intros [Hnone | Hcount]; unfold dvdReadVobBlocksNative.
    + rewrite Hnone. reflexivity.
    + destruct (g_vobHandles st !! vobHandle) as [h |]; [| reflexivity].
      destruct (vh_vob h); [| reflexivity].
      destruct (Z.leb_spec count 0); [reflexivity | lia].
  - intros h vob n e1 Hh Hvob Hcount Hmalloc Hread Hn.
    unfold dvdReadVobBlocksNative. rewrite Hh, Hvob.
    destruct (Z.leb_spec count 0) as [? | _]; [lia |].
    cbv zeta. rewrite Hmalloc. cbn [negb]. rewrite Hread.
    destruct (Z.leb_spec n 0) as [_ | ?]; [reflexivity | lia].
Qed.

(** X7.  Whatever the backend and the allocator do, a block read into an
    array of length arraySize >= 0 returns at most arraySize, and copies
    into the array at most once, exactly the number of bytes it
    returns. *)
Theorem vob_read_within_array {E : Type}
    (DVDReadBlocks : E -> dvd_file_t -> Z -> Z -> Z * E) (malloc_ok : Z -> bool)
    (st : globals) (vobHandle block count arraySize : Z) (e e' : E)
    (ret : Z) (tr : list vob_event) :
  0 <= arraySize ->
  dvdReadVobBlocksNative DVDReadBlocks malloc_ok st vobHandle block count arraySize e
    = (ret, tr, e') ->
  ret <= arraySize /\
  (forall bytes, VobCopy bytes ∈ tr -> bytes = ret /\ bytes <= arraySize) /\
  (length (List.filter (fun ev => match ev with VobCopy _ => true | _ => false end) tr)
     <= 1)%nat.
Proof.
  intros Hsize. unfold dvdReadVobBlocksNative.
  destruct (g_vobHandles st !! vobHandle) as [h |];
    [| intros [= <- <- <-]; split; [lia | split; [intros b Hb; inversion Hb | cbn; lia]]].
  destruct (vh_vob h) as [vob |];
    [| intros [= <- <- <-]; split; [lia | split; [intros b Hb; inversion Hb | cbn; lia]]].
  destruct (count <=? 0);
    [intros [= <- <- <-]; split; [lia | split; [intros b Hb; inversion Hb | cbn; lia]] |].
  cbv zeta.
  destruct (malloc_ok _); cbn [negb].
  2:{ intros [= <- <- <-]. split; [lia |]. split; [| cbn; lia].
      intros b Hb. apply elem_of_cons in Hb as [Hb | Hb]; [discriminate | inversion Hb]. }
  destruct (DVDReadBlocks e vob block count) as [n e1].
  destruct (n <=? 0).
  - intros [= <- <- <-]. split; [destruct (n =? 0); lia |]. split; [| cbn; lia].
    intros b Hb. repeat (apply elem_of_cons in Hb as [Hb | Hb]; [discriminate |]).
    inversion Hb.
  - intros [= <- <- <-].
    set (bytes := if arraySize <? wrap_s32 (n * DVD_VIDEO_LB_LEN)
                  then arraySize else wrap_s32 (n * DVD_VIDEO_LB_LEN)).
    assert (Hb : bytes <= arraySize).
    { unfold bytes. destruct (Z.ltb_spec arraySize (wrap_s32 (n * DVD_VIDEO_LB_LEN))); lia. }
    split; [exact Hb |]. split; [| cbn; lia].
    intros b Hin.
    apply elem_of_cons in Hin as [Hin | Hin]; [discriminate |].
    apply elem_of_cons in Hin as [Hin | Hin]; [discriminate |].
    apply elem_of_cons in Hin as [Hin | Hin]; [injection Hin as ->; split; [reflexivity | exact Hb] |].
    apply elem_of_cons in Hin as [Hin | Hin]; [discriminate | inversion Hin].
Qed.

Lemma sample_globals_ok : tables_ok sample_globals.
Proof.
  apply (reachable_tables_ok_from_initial sample_DVDOpen sample_DVDOpenStream).
  vm_compute. reflexivity.
Defined.

Lemma vob_read_returns_bytes_witness :
  dvdReadVobBlocksNative scripted_read always_malloc sample_globals 1 100 4 5000 []
  = (Z.min (4 * DVD_VIDEO_LB_LEN) 5000,
     [VobMalloc (wrap_u64 (wrap_s32 (4 * DVD_VIDEO_LB_LEN)));
      VobRead 1 100 4 4;
      VobCopy (Z.min (4 * DVD_VIDEO_LB_LEN) 5000);
      VobFree],
     []).
Proof.
  apply (vob_read_returns_bytes scripted_read always_malloc sample_globals
           1 100 4 5000 [] []
           {| vh_vob := Some 1; vh_vtsN := 1; vh_dvd := sample_dvd |} 1 4).
  - reflexivity.
  - reflexivity.
  - lia.
  - reflexivity.
  - reflexivity.
  - lia.
  - vm_compute. reflexivity.
Defined.

Lemma vob_read_failures_witness :
  dvdReadVobBlocksNative scripted_read always_malloc sample_globals 9 100 4 5000 []
    = (-1, [], []) /\
  dvdReadVobBlocksNative exhausted_read always_malloc sample_globals 1 100 4 5000 []
    = (0,
       [VobMalloc (wrap_u64 (wrap_s32 (4 * DVD_VIDEO_LB_LEN))); VobRead 1 100 4 0;
        VobFree],
       []).
Proof.
  split.
  - destruct (vob_read_failures scripted_read always_malloc sample_globals
                9 100 4 5000 []) as [Hreject _].
    apply Hreject. left. reflexivity.
  - destruct (vob_read_failures exhausted_read always_malloc sample_globals
                1 100 4 5000 []) as [_ Heof].
    apply (Heof {| vh_vob := Some 1; vh_vtsN := 1; vh_dvd := sample_dvd |} 1 0 []);
      try reflexivity; lia.
Defined.

Lemma vob_read_within_array_witness :
  Z.min (4 * DVD_VIDEO_LB_LEN) 5000 <= 5000.
Proof.
  destruct (vob_read_within_array scripted_read always_malloc sample_globals
              1 100 4 5000 [] []
              (Z.min (4 * DVD_VIDEO_LB_LEN) 5000)
              [VobMalloc (wrap_u64 (wrap_s32 (4 * DVD_VIDEO_LB_LEN)));
               VobRead 1 100 4 4;
               VobCopy (Z.min (4 * DVD_VIDEO_LB_LEN) 5000);
               VobFree]) as [Hret _].
  - lia.
  - reflexivity.
  - exact Hret.
Defined.

(** X8.  Closing a disc handle does not close the VOB handles opened from
    it: after a title set was opened through a disc handle and the disc
    handle was closed, the disc handle is bound to nothing, but the VOB
    handle is still in its table, still holding the reader of the closed
    disc, and a block read on it is still passed to the backend. *)
Theorem vob_handle_outlives_disc_handle (st : globals) (handle vtsN : Z)
    (dvd : dvd_reader_t) (vob : dvd_file_t) :
  tables_ok st ->
  g_dvdHandles st !! handle = Some dvd ->
  DVDOpenFile dvd vtsN = Some vob ->
  exists st1,
    dvdOpenVobFileNative st handle vtsN = (g_nextVobHandleId st, st1) /\
    g_dvdHandles (dvdCloseNative st1 handle) !! handle = None /\
    g_vobHandles (dvdCloseNative st1 handle) !! g_nextVobHandleId st
      = Some {| vh_vob := Some vob; vh_vtsN := vtsN; vh_dvd := dvd |} /\
    forall (E : Type) (DVDReadBlocks : E -> dvd_file_t -> Z -> Z -> Z * E)
           (malloc_ok : Z -> bool) (block count arraySize : Z) (e : E),
      0 < count ->
      malloc_ok (wrap_u64 (wrap_s32 (count * DVD_VIDEO_LB_LEN))) = true ->
      exists ret tr,
        dvdReadVobBlocksNative DVDReadBlocks malloc_ok (dvdCloseNative st1 handle)
          (g_nextVobHandleId st) block count arraySize e
          = (ret, tr, (DVDReadBlocks e vob block count).2) /\
        VobRead vob block count (DVDReadBlocks e vob block count).1 ∈ tr.
Proof.
  intros Hok Hh Hfile.
  unfold dvdOpenVobFileNative. rewrite Hh, Hfile. cbv zeta.
  eexists. split; [reflexivity |].
  set (st1 := {| g_dvdHandles := g_dvdHandles st;
                 g_nextHandleId := g_nextHandleId st;
                 g_vobHandles := _; g_nextVobHandleId := _ |}).
  assert (Hok1 : ids_below (g_dvdHandles st1) (g_nextHandleId st1)) by exact (proj1 Hok).
  assert (Hclosed : g_vobHandles (dvdCloseNative st1 handle) = g_vobHandles st1).
  { unfold dvdCloseNative. destruct (handle <=? 0); [reflexivity |].
    destruct (g_dvdHandles st1 !! handle); reflexivity. }
  assert (Hvh : g_vobHandles (dvdCloseNative st1 handle) !! g_nextVobHandleId st
                = Some {| vh_vob := Some vob; vh_vtsN := vtsN; vh_dvd := dvd |}).
  { rewrite Hclosed. cbn. apply lookup_insert_eq. }
  split; [| split; [exact Hvh |]].
  - unfold dvdCloseNative. destruct (Z.leb_spec handle 0) as [Hle | Hpos].
    + exact (ids_below_nonpositive _ _ _ Hok1 Hle).
    + destruct (g_dvdHandles st1 !! handle) eqn:Hk; [| exact Hk].
      cbn. apply lookup_delete_eq.
  - intros E DVDReadBlocks malloc_ok block count arraySize e Hcount Hmalloc.
    unfold dvdReadVobBlocksNative. rewrite Hvh. cbn [vh_vob].
    destruct (Z.leb_spec count 0) as [? | _]; [lia |].
    cbv zeta. rewrite Hmalloc. cbn [negb].
    destruct (DVDReadBlocks e vob block count) as [n e1]. cbn [fst snd].
    destruct (n <=? 0); eexists _, _; (split; [reflexivity |]);
      apply elem_of_cons; right; apply elem_of_cons; left; reflexivity.
Qed.

Lemma vob_handle_outlives_disc_handle_witness :
  exists st1,
    dvdOpenVobFileNative
      (table_run sample_DVDOpen sample_DVDOpenStream
         [CallOpen (Some "/dev/sr0"%string)] initial_globals) 1 1
    = (1, st1) /\
    g_dvdHandles (dvdCloseNative st1 1) !! 1 = None /\
    g_vobHandles (dvdCloseNative st1 1) !! 1
      = Some {| vh_vob := Some 1; vh_vtsN := 1; vh_dvd := sample_dvd |}.
Proof.
  destruct (vob_handle_outlives_disc_handle
              (table_run sample_DVDOpen sample_DVDOpenStream
                 [CallOpen (Some "/dev/sr0"%string)] initial_globals)
              1 1 sample_dvd 1) as (st1 & Hopen & Hgone & Hkept & _).
  - apply (reachable_tables_ok_from_initial sample_DVDOpen sample_DVDOpenStream).
    vm_compute. reflexivity.
  - reflexivity.
  - reflexivity.
  - exists st1. split; [exact Hopen |]. split; [exact Hgone | exact Hkept].
Defined.

(** ** The disc name *)

Lemma copy_nonspace_cstring (n : nat) :
  forall field, copy_nonspace n field = without_spaces (cstring (take n field)).
Proof.
  induction n as [| n IH]; intros [| c rest]; try reflexivity.
  cbn [copy_nonspace firstn cstring].
  destruct (Z.eqb_spec c 0) as [-> | Hnz]; [reflexivity |].
  unfold without_spaces. cbn [List.filter andb negb].
  destruct (c =? 32); cbn [negb andb]; rewrite IH; reflexivity.
Qed.

Lemma cstring_no_nul (field : list Z) : 0 ∉ cstring field.
Proof.
  induction field as [| c rest IH]; cbn; [apply not_elem_of_nil |].
  destruct (Z.eqb_spec c 0) as [-> | Hnz]; [apply not_elem_of_nil |].
  apply not_elem_of_cons. split; [congruence | exact IH].
Qed.

Lemma cstring_length (field : list Z) : (length (cstring field) <= length field)%nat.
Proof.
  induction field as [| c rest IH]; cbn; [lia |].
  destruct (c =? 0); cbn; lia.
Qed.

Lemma without_spaces_elem (bytes : list Z) (c : Z) :
  c ∈ without_spaces bytes <-> c ∈ bytes /\ c <> 32.
Proof.
  unfold without_spaces. rewrite !list_elem_of_In, List.filter_In.
  destruct (Z.eqb_spec c 32); cbn; intuition congruence.
Qed.

Lemma without_spaces_length (bytes : list Z) :
  (length (without_spaces bytes) <= length bytes)%nat.
Proof. unfold without_spaces. apply List.filter_length_le. Qed.

(** X9.  The copy loop of the name query keeps, of the first n bytes of
    a field, the bytes before the first NUL that are not a space: every
    space is dropped, also those inside the text, the order of the other
    bytes is kept, and the result has no space, no NUL and at most n
    bytes. *)
Theorem copy_nonspace_spec (n : nat) (field : list Z) :
  copy_nonspace n field = without_spaces (cstring (take n field)) /\
  (32 ∉ copy_nonspace n field) /\
  (0 ∉ copy_nonspace n field) /\
  (length (copy_nonspace n field) <= n)%nat.
Proof.
  rewrite copy_nonspace_cstring. split; [reflexivity |]. split; [| split].
  - intros Hin. apply without_spaces_elem in Hin as [_ Hne]. congruence.
  - intros Hin. apply without_spaces_elem in Hin as [Hin _].
    exact (cstring_no_nul _ Hin).
  - pose proof (without_spaces_length (cstring (take n field))).
    pose proof (cstring_length (take n field)).
    pose proof (length_take_le field n). rewrite length_take in *. lia.
Qed.

(** The name taken from one field, as the code computes it. *)
Lemma field_name_code (n : nat) (field : list Z) :
  (if nonempty_cstring field then
     let trimmed := copy_nonspace n field in
     if 0 <? Z.of_nat (length trimmed) then Some trimmed else None
   else None) = field_name n field.
Proof.
  unfold field_name. cbv zeta. rewrite copy_nonspace_cstring.
  destruct field as [| c rest]; cbn [nonempty_cstring].
  - rewrite take_nil. reflexivity.
  - destruct (Z.eqb_spec c 0) as [-> | Hnz]; cbn [negb].
    + destruct n; reflexivity.
    + destruct (without_spaces (cstring (take n (c :: rest)))); reflexivity.
Qed.

(** X10.  For an open handle whose manager file has its attribute table,
    the name query answers with the name of the provider identifier (32
    bytes wide) when that is not empty, and then neither looks at nor
    loads the text table; otherwise with the name of the disc-name field
    (12 bytes wide) of the text table, which is loaded only when it is
    not there yet and its sector offset is not 0; otherwise with the
    null string.  A returned name is never empty, holds no space and no
    NUL, and has at most 32 bytes. *)
Theorem disc_name_precedence
    (ifoOpen_name : dvd_reader_t -> option vmg_name_t)
    (ifoRead_TXTDT_MGI : vmg_name_t -> option txtdt_mgi_t)
    (g_dvdHandles : gmap Z dvd_reader_t) (handle : Z)
    (dvd : dvd_reader_t) (vmg : vmg_name_t) (mat : vmgi_mat_t) :
  g_dvdHandles !! handle = Some dvd ->
  ifoOpen_name dvd = Some vmg ->
  vmgi_mat vmg = Some mat ->
  dvdGetNameNative ifoOpen_name ifoRead_TXTDT_MGI g_dvdHandles handle =
    match field_name 32 (provider_identifier mat) with
    | Some name => Some name
    | None =>
        match
          match txtdt_mgi vmg with
          | Some t => Some t
          | None => if vmgi_txtdt_mgi mat =? 0 then None else ifoRead_TXTDT_MGI vmg
          end
        with
        | Some t => field_name 12 (disc_name t)
        | None => None
        end
    end /\
  forall name,
    dvdGetNameNative ifoOpen_name ifoRead_TXTDT_MGI g_dvdHandles handle = Some name ->
    name <> [] /\ (32 ∉ name) /\ (0 ∉ name) /\ (length name <= 32)%nat.
Proof.
  intros Hh Hvmg Hmat.
  assert (Hfield : forall n field name,
            (n <= 32)%nat -> field_name n field = Some name ->
            name <> [] /\ (32 ∉ name) /\ (0 ∉ name) /\ (length name <= 32)%nat).
  { intros n field name Hn. unfold field_name.
    destruct (copy_nonspace_spec n field) as (Heq & Hsp & Hnul & Hlen).
    rewrite <- Heq.
    destruct (copy_nonspace n field) as [| c rest] eqn:Hc; [discriminate |].
    intros [= <-]. split; [discriminate |]. split; [exact Hsp |].
    split; [exact Hnul | lia]. }
  assert (Heq : dvdGetNameNative ifoOpen_name ifoRead_TXTDT_MGI g_dvdHandles handle =
    match field_name 32 (provider_identifier mat) with
    | Some name => Some name
    | None =>
        match
          match txtdt_mgi vmg with
          | Some t => Some t
          | None => if vmgi_txtdt_mgi mat =? 0 then None else ifoRead_TXTDT_MGI vmg
          end
        with
        | Some t => field_name 12 (disc_name t)
        | None => None
        end
    end).
  { unfold dvdGetNameNative. rewrite Hh, Hvmg, Hmat. cbv zeta.
    rewrite (field_name_code 32).
    destruct (field_name 32 (provider_identifier mat)); [reflexivity |].
    destruct (txtdt_mgi vmg) as [t |].
    - rewrite (field_name_code 12). reflexivity.
    - destruct (vmgi_txtdt_mgi mat =? 0); cbn [negb]; [reflexivity |].
      destruct (ifoRead_TXTDT_MGI vmg) as [t |]; [| reflexivity].
      rewrite (field_name_code 12). reflexivity. }
  split; [exact Heq |].
  intros name. rewrite Heq.
  destruct (field_name 32 (provider_identifier mat)) as [n1 |] eqn:H1.
  - intros [= <-]. exact (Hfield 32%nat _ _ ltac:(lia) H1).
  - destruct (match txtdt_mgi vmg with
              | Some t => Some t
              | None => if vmgi_txtdt_mgi mat =? 0 then None else ifoRead_TXTDT_MGI vmg
              end) as [t |]; [| discriminate].
    intros H2. exact (Hfield 12%nat _ _ ltac:(lia) H2).
Qed.

Lemma disc_name_precedence_witness :
  dvdGetNameNative sample_ifoOpen_name sample_ifoRead_TXTDT_MGI sample_handles 1
  = Some [77; 89; 68; 73; 83; 67].
Proof.
  destruct (disc_name_precedence sample_ifoOpen_name sample_ifoRead_TXTDT_MGI
              sample_handles 1 sample_dvd sample_name_vmg
              {| provider_identifier := [77; 89; 32; 68; 73; 83; 67] ++ replicate 25 0;
                 vmgi_txtdt_mgi := 7 |}) as [Heq _].
  - reflexivity.
  - reflexivity.
  - reflexivity.
  - rewrite Heq. reflexivity.
Defined.

(** ** The block-device callbacks *)

(** Decide that an event is not in an explicit list. *)
Ltac not_in_events :=
  let H := fresh "Hin" in
  intros H;
  repeat (apply elem_of_cons in H as [H | H]; [discriminate |]);
  inversion H.

(** Find an event in an explicit list. *)
Ltac in_events :=
  cbn [app]; repeat (apply elem_of_cons; first [left; reflexivity | right]).

(** X11.  Whatever the runtime and the device answer, a read callback
    that returns has detached the thread exactly when it attached it (on a
    thread that was attached already it neither attaches nor detaches),
    and has deleted the byte array reference it created; the reference to
    the device class, obtained at most once, is the only local reference
    it leaves behind. *)
Theorem read_callback_releases_resources {E : Type}
    (java_read : E -> Z -> Z -> (Z * bool) * E)
    (jni : jni_answers) (source : option JavaDataSource) (size : Z) (e e' : E)
    (ret : Z) (source' : option JavaDataSource) (tr : list jni_event) :
  JavaReadCallback java_read jni source size e = Value (ret, source', tr, e') ->
  open_attachments tr = 0 /\
  (env_attached jni = true -> (JAttach ∉ tr) /\ (JDetach ∉ tr)) /\
  open_local_refs tr = class_refs tr /\
  0 <= class_refs tr <= 1.
Proof.
  unfold JavaReadCallback, detach_if.
  destruct source as [src |]; [| intros [= <- <- <- <-]; cbn; repeat split; try lia; not_in_events].
  destruct (vm_loaded jni); cbn [negb];
    [| intros [= <- <- <- <-]; cbn; repeat split; try lia; not_in_events].
  destruct (env_attached jni), (attach_ok jni); cbn [negb andb];
    try (intros [= <- <- <- <-]; cbn; repeat split; try lia; try discriminate; not_in_events);
    (destruct (byte_array_ok jni); cbn [negb];
     [| intros [= <- <- <- <-]; cbn; repeat split; try lia; try discriminate; not_in_events]);
    (destruct (blockSize src =? 0); [discriminate |]);
    (destruct (method_ok jni); cbn [negb];
     [| intros [= <- <- <- <-]; cbn; repeat split; try lia; try discriminate; not_in_events]);
    (destruct (java_read e _ size) as [[bytesRead exception] e1]);
    (destruct exception;
     [intros [= <- <- <- <-]; cbn; repeat split; try lia; try discriminate; not_in_events |]);
    (destruct (bytesRead >? 0);
     intros [= <- <- <- <-]; cbn; repeat split; try lia; try discriminate; not_in_events).
Qed.

Lemma read_callback_releases_resources_witness :
  open_attachments
    [JAttach; JNewByteArray 2048; JGetObjectClass; JCallRead 3 2048;
     JCopyOut 2048; JDeleteLocalRef; JDetach] = 0.
Proof.
  destruct (read_callback_releases_resources full_java_read fresh_thread_jni
              (Some {| position := 6144; blockSize := 2048 |}) 2048 () ()
              2048 (Some {| position := 8192; blockSize := 2048 |})
              [JAttach; JNewByteArray 2048; JGetObjectClass; JCallRead 3 2048;
               JCopyOut 2048; JDeleteLocalRef; JDetach]) as [Hbalance _].
  - reflexivity.
  - exact Hbalance.
Defined.

(** X12.  A read callback on a bound source that returns either returns
    a positive byte count, copies that many bytes out and moves the
    cursor forward by exactly that count, or returns 0 (end of data) or -1
    (any failure), copies nothing and leaves the cursor where it was; the
    block size never changes. *)
Theorem read_callback_cursor {E : Type}
    (java_read : E -> Z -> Z -> (Z * bool) * E)
    (jni : jni_answers) (src : JavaDataSource) (size : Z) (e e' : E)
    (ret : Z) (source' : option JavaDataSource) (tr : list jni_event) :
  JavaReadCallback java_read jni (Some src) size e = Value (ret, source', tr, e') ->
  (0 < ret /\
   source' = Some {| position := wrap_u64 (position src + ret);
                     blockSize := blockSize src |} /\
   JCopyOut ret ∈ tr) \/
  ((ret = 0 \/ ret = -1) /\
   source' = Some src /\
   forall bytes, JCopyOut bytes ∉ tr).
Proof.
  unfold JavaReadCallback, detach_if.
  destruct (vm_loaded jni); cbn [negb];
    [| intros [= <- <- <- <-]; right; repeat split; try (right; reflexivity);
       intros bytes; not_in_events].
  destruct (env_attached jni), (attach_ok jni); cbn [negb andb];
    try (intros [= <- <- <- <-]; right; repeat split; try (right; reflexivity);
         intros bytes; not_in_events);
    (destruct (byte_array_ok jni); cbn [negb];
     [| intros [= <- <- <- <-]; right; repeat split; try (right; reflexivity);
        intros bytes; not_in_events]);
    (destruct (blockSize src =? 0); [discriminate |]);
    (destruct (method_ok jni); cbn [negb];
     [| intros [= <- <- <- <-]; right; repeat split; try (right; reflexivity);
        intros bytes; not_in_events]);
    (destruct (java_read e _ size) as [[bytesRead exception] e1]);
    (destruct exception;
     [intros [= <- <- <- <-]; right; repeat split; try (right; reflexivity);
      intros bytes; not_in_events |]);
    (destruct (Z.gtb_spec bytesRead 0) as [Hpos | Hnonpos];
     [intros [= <- <- <- <-]; left; repeat split; try lia;
      in_events
     | intros [= <- <- <- <-]; right;
       split; [destruct (Z.eqb_spec bytesRead 0); [left | right]; reflexivity |];
       split; [reflexivity | intros bytes; not_in_events]]).
Qed.

Lemma read_callback_cursor_witness :
  exists tr,
    JavaReadCallback full_java_read attached_thread_jni
      (Some {| position := 6144; blockSize := 2048 |}) 2048 ()
    = Value (2048, Some {| position := 8192; blockSize := 2048 |}, tr, ()) /\
    JCopyOut 2048 ∈ tr.
Proof.
  destruct (read_callback_cursor full_java_read attached_thread_jni
              {| position := 6144; blockSize := 2048 |} 2048 () ()
              2048 (Some {| position := 8192; blockSize := 2048 |})
              [JNewByteArray 2048; JGetObjectClass; JCallRead 3 2048;
               JCopyOut 2048; JDeleteLocalRef] eq_refl)
    as [(_ & _ & Hin) | ([Hret | Hret] & _)]; [| discriminate | discriminate].
  eexists. split; [reflexivity | exact Hin].
Defined.

(** The read callback on runtime answers that reach the device. *)
Lemma JavaReadCallback_reaches {E : Type}
    (java_read : E -> Z -> Z -> (Z * bool) * E)
    (jni : jni_answers) (src : JavaDataSource) (size : Z) (e : E) :
  jni_reaches_device jni ->
  blockSize src <> 0 ->
  let attached := negb (env_attached jni) in
  let entered := if attached then [JAttach] else [] in
  let startLba := Z.quot (wrap_s64 (position src)) (blockSize src) in
  JavaReadCallback java_read jni (Some src) size e =
    let '((bytesRead, exception), e1) := java_read e startLba size in
    if exception
    then Value (-1, Some src,
                entered ++ [JNewByteArray size; JGetObjectClass;
                            JCallRead startLba size;
                            JExceptionClear; JDeleteLocalRef]
                  ++ detach_if attached, e1)
    else if bytesRead >? 0
    then Value (bytesRead,
                Some {| position := wrap_u64 (position src + bytesRead);
                        blockSize := blockSize src |},
                entered ++ [JNewByteArray size; JGetObjectClass;
                            JCallRead startLba size;
                            JCopyOut bytesRead; JDeleteLocalRef]
                  ++ detach_if attached, e1)
    else
      Value (if bytesRead =? 0 then 0 else -1, Some src,
             entered ++ [JNewByteArray size; JGetObjectClass;
                         JCallRead startLba size; JDeleteLocalRef]
               ++ detach_if attached, e1).
Proof.
  intros (Hvm & Hatt & Harr & Hmeth) Hbs. cbv zeta.
  unfold JavaReadCallback. rewrite Hvm, Harr, Hmeth. cbn [negb].
  assert (Hgo : negb (env_attached jni) && negb (attach_ok jni) = false).
  { destruct Hatt as [-> | ->]; [reflexivity | apply andb_false_r]. }
  rewrite Hgo. destruct (Z.eqb_spec (blockSize src) 0); [contradiction |].
  reflexivity.
Qed.

(** X13.  The device is asked for the block that holds the cursor, from
    the start of that block: the request is (cursor / blockSize, size), and
    two cursors in the same block give the same request, the same events,
    the same return value and the same device state.  The offset of the
    cursor inside its block never reaches the device. *)
Theorem read_callback_block_address {E : Type}
    (java_read : E -> Z -> Z -> (Z * bool) * E)
    (jni : jni_answers) (src1 src2 : JavaDataSource) (size : Z) (e : E) :
  jni_reaches_device jni ->
  blockSize src1 <> 0 ->
  blockSize src2 = blockSize src1 ->
  Z.quot (wrap_s64 (position src1)) (blockSize src1)
    = Z.quot (wrap_s64 (position src2)) (blockSize src1) ->
  exists ret source1' source2' tr e',
    JavaReadCallback java_read jni (Some src1) size e = Value (ret, source1', tr, e') /\
    JavaReadCallback java_read jni (Some src2) size e = Value (ret, source2', tr, e') /\
    JCallRead (Z.quot (wrap_s64 (position src1)) (blockSize src1)) size ∈ tr /\
    forall lba length, JCallRead lba length ∈ tr ->
      lba = Z.quot (wrap_s64 (position src1)) (blockSize src1) /\ length = size.
Proof.
  intros Hjni Hbs Hsame Hblock.
  rewrite (JavaReadCallback_reaches java_read jni src1 size e Hjni Hbs).
  rewrite (JavaReadCallback_reaches java_read jni src2 size e Hjni)
    by (rewrite Hsame; exact Hbs).
  rewrite Hsame, <- Hblock. unfold detach_if.
  destruct (java_read e _ size) as [[bytesRead exception] e1].
  destruct exception; [| destruct (bytesRead >? 0)];
    eexists _, _, _, _, _; (split; [reflexivity |]); (split; [reflexivity |]);
    (split; [destruct (env_attached jni); in_events |]);
    intros lba len Hin; destruct (env_attached jni); cbn in Hin;
    repeat (apply elem_of_cons in Hin as [Hin | Hin];
            [first [discriminate | injection Hin as -> ->; split; reflexivity] |]);
    inversion Hin.
Qed.

Lemma read_callback_block_address_witness :
  exists ret source1' source2' tr e',
    JavaReadCallback full_java_read attached_thread_jni
      (Some {| position := 6144; blockSize := 2048 |}) 2048 ()
      = Value (ret, source1', tr, e') /\
    JavaReadCallback full_java_read attached_thread_jni
      (Some {| position := 6244; blockSize := 2048 |}) 2048 ()
      = Value (ret, source2', tr, e') /\
    JCallRead 3 2048 ∈ tr.
Proof.
  destruct (read_callback_block_address full_java_read attached_thread_jni
              {| position := 6144; blockSize := 2048 |}
              {| position := 6244; blockSize := 2048 |} 2048 ())
    as (ret & s1 & s2 & tr & e' & H1 & H2 & Hin & _).
  - repeat split; try reflexivity. left. reflexivity.
  - discriminate.
  - reflexivity.
  - reflexivity.
  - exists ret, s1, s2, tr, e'. split; [exact H1 |]. split; [exact H2 | exact Hin].
Defined.

(** X14.  Seeking to the start of block q and reading k whole blocks that
    the device delivers in full returns k * blockSize, leaves the cursor
    at the start of block q + k, and a second read from there asks the
    device for block q + k: consecutive full reads visit consecutive
    blocks.  (blockSize > 0, and (q + 2k) * blockSize within the signed
    64-bit range.) *)
Theorem sequential_reads_advance_blocks {E : Type}
    (java_read : E -> Z -> Z -> (Z * bool) * E)
    (jni : jni_answers) (src : JavaDataSource) (q k : Z) (e e1 e2 : E) :
  jni_reaches_device jni ->
  0 < blockSize src ->
  0 <= q -> 0 < k ->
  (q + 2 * k) * blockSize src < 2 ^ 63 ->
  java_read e q (k * blockSize src) = ((k * blockSize src, false), e1) ->
  java_read e1 (q + k) (k * blockSize src) = ((k * blockSize src, false), e2) ->
  exists tr1 tr2,
    JavaSeekCallback (Some src) (q * blockSize src)
      = (0, Some {| position := q * blockSize src; blockSize := blockSize src |}) /\
    JavaReadCallback java_read jni
      (Some {| position := q * blockSize src; blockSize := blockSize src |})
      (k * blockSize src) e
      = Value (k * blockSize src,
               Some {| position := (q + k) * blockSize src; blockSize := blockSize src |},
               tr1, e1) /\
    JCallRead q (k * blockSize src) ∈ tr1 /\
    JavaReadCallback java_read jni
      (Some {| position := (q + k) * blockSize src; blockSize := blockSize src |})
      (k * blockSize src) e1
      = Value (k * blockSize src,
               Some {| position := (q + 2 * k) * blockSize src;
                       blockSize := blockSize src |},
               tr2, e2) /\
    JCallRead (q + k) (k * blockSize src) ∈ tr2.
Proof.
  intros Hjni Hbs Hq Hk Hfit Hr1 Hr2.
  set (bs := blockSize src) in *.
  assert (Hlba : forall m, 0 <= m -> m * bs < 2 ^ 63 ->
            Z.quot (wrap_s64 (m * bs)) bs = m).
  { intros m Hm Hfitm. rewrite wrap_s64_id by (unfold in_s64; nia).
    rewrite Z.quot_mul by lia. reflexivity. }
  assert (Hadv : forall m, 0 <= m -> (m + k) * bs < 2 ^ 63 ->
            wrap_u64 (m * bs + k * bs) = (m + k) * bs).
  { intros m Hm Hfitm. unfold wrap_u64. rewrite Z.mod_small by nia. lia. }
  assert (Hpos : (k * bs >? 0) = true) by (apply Z.gtb_lt; nia).
  eexists _, _. split; [reflexivity |].
  rewrite (JavaReadCallback_reaches java_read jni
             {| position := q * bs; blockSize := bs |} (k * bs) e Hjni)
    by (cbn; lia).
  rewrite (JavaReadCallback_reaches java_read jni
             {| position := (q + k) * bs; blockSize := bs |} (k * bs) e1 Hjni)
    by (cbn; lia).
  cbn [position blockSize].
  rewrite (Hlba q) by nia. rewrite (Hlba (q + k)) by nia.
  rewrite Hr1, Hr2, Hpos.
  rewrite (Hadv q) by nia. rewrite (Hadv (q + k)) by nia.
  replace (q + k + k) with (q + 2 * k) by lia.
  unfold detach_if.
  split; [reflexivity |]. split; [destruct (env_attached jni); in_events |].
  split; [reflexivity |]. destruct (env_attached jni); in_events.
Qed.

Lemma sequential_reads_advance_blocks_witness :
  exists tr1 tr2,
    JavaSeekCallback (Some (new_JavaDataSource None)) (3 * 2048)
      = (0, Some {| position := 3 * 2048; blockSize := 2048 |}) /\
    JavaReadCallback full_java_read fresh_thread_jni
      (Some {| position := 3 * 2048; blockSize := 2048 |}) (2 * 2048) ()
      = Value (2 * 2048, Some {| position := (3 + 2) * 2048; blockSize := 2048 |},
               tr1, ()) /\
    JCallRead 3 (2 * 2048) ∈ tr1 /\
    JavaReadCallback full_java_read fresh_thread_jni
      (Some {| position := (3 + 2) * 2048; blockSize := 2048 |}) (2 * 2048) ()
      = Value (2 * 2048, Some {| position := (3 + 2 * 2) * 2048; blockSize := 2048 |},
               tr2, ()) /\
    JCallRead (3 + 2) (2 * 2048) ∈ tr2.
Proof.
  apply (sequential_reads_advance_blocks full_java_read fresh_thread_jni
           (new_JavaDataSource None) 3 2 () () ()).
  - repeat split; try reflexivity. right. reflexivity.
  - cbn. lia.
  - lia.
  - lia.
  - vm_compute. reflexivity.
  - reflexivity.
  - reflexivity.
Defined.

(** X15.  A device that reports a block size of 0 makes the first read
    that reaches the block computation divide by zero; a device class
    without a block size method gets the default of 2048, and the cursor
    starts at 0. *)
Theorem read_callback_zero_block_size {E : Type}
    (java_read : E -> Z -> Z -> (Z * bool) * E)
    (jni : jni_answers) (size : Z) (e : E) :
  vm_loaded jni = true ->
  env_attached jni = true \/ attach_ok jni = true ->
  byte_array_ok jni = true ->
  JavaReadCallback java_read jni (Some (new_JavaDataSource (Some 0))) size e = Fault /\
  blockSize (new_JavaDataSource None) = 2048 /\
  (forall b, blockSize (new_JavaDataSource (Some b)) = b) /\
  (forall b, position (new_JavaDataSource b) = 0).
Proof.
  intros Hvm Hatt Harr. split; [| repeat split].
  unfold JavaReadCallback. rewrite Hvm, Harr. cbn [negb].
  assert (Hgo : negb (env_attached jni) && negb (attach_ok jni) = false).
  { destruct Hatt as [-> | ->]; [reflexivity | apply andb_false_r]. }
  rewrite Hgo. reflexivity.
Qed.

Lemma read_callback_zero_block_size_witness :
  JavaReadCallback full_java_read fresh_thread_jni
    (Some (new_JavaDataSource (Some 0))) 2048 () = Fault.
Proof.
  apply (read_callback_zero_block_size full_java_read fresh_thread_jni 2048 ()).
  - reflexivity.
  - right. reflexivity.
  - reflexivity.
Defined.

(** X16.  The device-command callback guards the caller's buffers: for
    the two send opcodes (0x11, 0x12) the caller's data buffer is never
    written; for every opcode a status other than 0, which includes a
    pending exception (status -1), leaves both the data buffer and the
    session identifier as they were; and for every other opcode the byte
    array handed to the device is null or all zeros, so the caller's bytes
    do not reach the device. *)
Theorem ioctl_guards_caller_buffers {E : Type}
    (java_cssIoctl :
       E -> Z -> option (list Z) -> option Z -> Z -> (Z * list Z * Z * bool) * E)
    (jni : jni_answers) (source : option JavaDataSource)
    (op : Z) (data : option (list Z)) (data_size : Z) (agid : option Z) (lba : Z)
    (e e' : E) (ret : Z) (data' : option (list Z)) (agid' : option Z)
    (tr : list jni_event) :
  JavaIoctlCallback java_cssIoctl jni source op data data_size agid lba e
    = (ret, data', agid', tr, e') ->
  (is_send_op op = true -> data' = data) /\
  (ret <> 0 -> data' = data /\ agid' = agid) /\
  (forall op' sent agidSent lba',
     JCallIoctl op' sent agidSent lba' ∈ tr ->
     op' = op /\ lba' = lba /\
     (is_send_op op = false ->
      sent = None \/ sent = Some (replicate (Z.to_nat data_size) 0))).
Proof.
  unfold JavaIoctlCallback, detach_if.
  destruct source as [src |];
    [| intros [= <- <- <- <- <-]; repeat split; try reflexivity;
       intros; exfalso; revert H; not_in_events].
  destruct (vm_loaded jni); cbn [negb];
    [| intros [= <- <- <- <- <-]; repeat split; try reflexivity;
       intros; exfalso; revert H; not_in_events].
  destruct (negb (env_attached jni) && negb (attach_ok jni));
    [intros [= <- <- <- <- <-]; repeat split; try reflexivity;
     intros; exfalso; revert H; not_in_events |].
  destruct (method_ok jni); cbn [negb].
  2:{ intros [= <- <- <- <- <-]. repeat split; try reflexivity.
      all: intros; exfalso; revert H; destruct (env_attached jni); not_in_events. }
  cbv zeta.
  set (javaData := match data with
                   | Some bytes =>
                       if (0 <? data_size) && byte_array_ok jni
                       then Some (if is_send_op op then take (Z.to_nat data_size) bytes
                                  else replicate (Z.to_nat data_size) 0)
                       else None
                   | None => None
                   end).
  set (agidArray := if int_array_ok jni
                    then Some match agid with Some a => a | None => 0 end
                    else None).
  assert (Hsent : is_send_op op = false ->
                  javaData = None \/ javaData = Some (replicate (Z.to_nat data_size) 0)).
  { intros Hop. unfold javaData. rewrite Hop.
    destruct data; [| left; reflexivity].
    destruct ((0 <? data_size) && byte_array_ok jni); [right | left]; reflexivity. }
  clearbody javaData agidArray.
  destruct (java_cssIoctl e op javaData agidArray lba)
    as [[[[status javaData'] agidArray'] exception] e1].
  destruct exception.
  - intros [= <- <- <- <- <-]. split; [reflexivity |]. split; [split; reflexivity |].
    intros op' sent agidSent lba' Hin.
    destruct (env_attached jni), javaData, (int_array_ok jni); cbn in Hin;
      repeat (apply elem_of_cons in Hin as [Hin | Hin];
              [first [discriminate
                     | injection Hin as -> -> -> ->; repeat split; exact Hsent] |]);
      inversion Hin.
  - intros [= <- <- <- <- <-]. split; [| split].
    + intros Hop. rewrite Hop.
      destruct javaData, data; try reflexivity.
      rewrite andb_false_r. reflexivity.
    + intros Hne. apply Z.eqb_neq in Hne. rewrite Hne. cbn [andb].
      split; [destruct javaData, data; reflexivity |].
      destruct agidArray, agid; reflexivity.
    + intros op' sent agidSent lba' Hin.
      destruct (env_attached jni), javaData, (int_array_ok jni); cbn in Hin;
        repeat (apply elem_of_cons in Hin as [Hin | Hin];
                [first [discriminate
                       | injection Hin as -> -> -> ->; repeat split; exact Hsent] |]);
        inversion Hin.
Qed.

Lemma ioctl_guards_caller_buffers_witness :
  JavaIoctlCallback sample_cssIoctl fresh_thread_jni
    (Some (new_JavaDataSource None)) 17 (Some [1; 2; 3; 4]) 4 (Some 0) 0 ()
  = (0, Some [1; 2; 3; 4], Some 3,
     [JAttach; JGetObjectClass; JNewByteArray 4; JNewIntArray;
      JCallIoctl 17 (Some [1; 2; 3; 4]) (Some 0) 0;
      JDeleteLocalRef; JDeleteLocalRef; JDetach], ()) /\
  Some [1; 2; 3; 4] = Some [1; 2; 3; 4].
Proof.
  split; [reflexivity |].
  destruct (ioctl_guards_caller_buffers sample_cssIoctl fresh_thread_jni
              (Some (new_JavaDataSource None)) 17 (Some [1; 2; 3; 4]) 4 (Some 0) 0
              () () 0 (Some [1; 2; 3; 4]) (Some 3)
              [JAttach; JGetObjectClass; JNewByteArray 4; JNewIntArray;
               JCallIoctl 17 (Some [1; 2; 3; 4]) (Some 0) 0;
               JDeleteLocalRef; JDeleteLocalRef; JDetach] eq_refl) as [Hsend _].
  apply Hsend. reflexivity.
Defined.

(** X17.  Whatever the runtime and the device answer, the device-command
    callback has detached the thread exactly when it attached it (on a
    thread that was attached already it neither attaches nor detaches),
    and has deleted every array reference it created; the reference to
    the device class, obtained at most once, is the only local reference
    it leaves behind. *)
Theorem ioctl_releases_resources {E : Type}
    (java_cssIoctl :
       E -> Z -> option (list Z) -> option Z -> Z -> (Z * list Z * Z * bool) * E)
    (jni : jni_answers) (source : option JavaDataSource)
    (op : Z) (data : option (list Z)) (data_size : Z) (agid : option Z) (lba : Z)
    (e e' : E) (ret : Z) (data' : option (list Z)) (agid' : option Z)
    (tr : list jni_event) :
  JavaIoctlCallback java_cssIoctl jni source op data data_size agid lba e
    = (ret, data', agid', tr, e') ->
  open_attachments tr = 0 /\
  (env_attached jni = true -> (JAttach ∉ tr) /\ (JDetach ∉ tr)) /\
  open_local_refs tr = class_refs tr /\
  0 <= class_refs tr <= 1.
Proof.
  unfold JavaIoctlCallback, detach_if.
  destruct source as [src |];
    [| intros [= <- <- <- <- <-]; cbn; repeat split; try lia; not_in_events].
  destruct (vm_loaded jni); cbn [negb];
    [| intros [= <- <- <- <- <-]; cbn; repeat split; try lia; not_in_events].
  destruct (env_attached jni), (attach_ok jni); cbn [negb andb];
    try (intros [= <- <- <- <- <-]; cbn; repeat split; try lia; try discriminate;
         not_in_events);
    (destruct (method_ok jni); cbn [negb];
     [| intros [= <- <- <- <- <-]; cbn; repeat split; try lia; try discriminate;
        not_in_events]);
    cbv zeta;
    (destruct (java_cssIoctl e op _ _ lba)
       as [[[[status javaData'] agidArray'] exception] e1]);
    destruct exception; intros [= <- <- <- <- <-];
    destruct data as [bytes |], ((0 <? data_size) && byte_array_ok jni),
      (int_array_ok jni);
    cbn; repeat split; try lia; try discriminate; not_in_events.
Qed.

Lemma ioctl_releases_resources_witness :
  open_attachments
    [JAttach; JGetObjectClass; JNewByteArray 4; JNewIntArray;
     JCallIoctl 17 (Some [1; 2; 3; 4]) (Some 0) 0;
     JDeleteLocalRef; JDeleteLocalRef; JDetach] = 0.
Proof.
  destruct (ioctl_releases_resources sample_cssIoctl fresh_thread_jni
              (Some (new_JavaDataSource None)) 17 (Some [1; 2; 3; 4]) 4 (Some 0) 0
              () () 0 (Some [1; 2; 3; 4]) (Some 3)
              [JAttach; JGetObjectClass; JNewByteArray 4; JNewIntArray;
               JCallIoctl 17 (Some [1; 2; 3; 4]) (Some 0) 0;
               JDeleteLocalRef; JDeleteLocalRef; JDetach] eq_refl) as [Hbalance _].
  exact Hbalance.
Defined.

(** ** The read buffer of the streaming loop *)

Lemma fits_buffer_read_fits (tr : list event) :
  Forall fits_buffer tr -> Forall read_fits tr.
Proof.
  intros Hfits. eapply Forall_impl; [exact Hfits |].
  intros [file block count ret | fd offset count ret errno]; cbn; [tauto | trivial].
Qed.

Section BufferProperties.

Context {E : Type}.
Variable DVDReadBlocks : E -> dvd_file_t -> Z -> Z -> Z * E.
Variable write : E -> Z -> Z -> Z -> (Z * Z) * E.

Lemma write_loop_read_fits (fuel : nat) :
  forall outFd offset bytesRemaining total e,
    Forall read_fits (write_loop write fuel outFd offset bytesRemaining total e).2.
Proof.
  induction fuel as [| fuel IH]; intros outFd offset bytesRemaining total e;
    cbn [write_loop]; (destruct (bytesRemaining >? 0); [| constructor]).
  - constructor.
  - destruct (write e outFd offset bytesRemaining) as [[bytesWritten errno] e1].
    destruct (bytesWritten <? 0).
    + destruct (errno =? EPIPE); [repeat constructor |].
      destruct ((errno =? EAGAIN) || (errno =? EWOULDBLOCK)); [| repeat constructor].
      specialize (IH outFd offset bytesRemaining total e1).
      destruct (write_loop write fuel outFd offset bytesRemaining total e1)
        as [[[x t] e2] tr]. cbn in *. constructor; [exact I | exact IH].
    + destruct (bytesWritten =? 0); [repeat constructor |].
      specialize (IH outFd (offset + bytesWritten)
                    (wrap_u64 (bytesRemaining - bytesWritten))
                    (wrap_s64 (total + bytesWritten)) e1).
      destruct (write_loop write fuel outFd (offset + bytesWritten)
                  (wrap_u64 (bytesRemaining - bytesWritten))
                  (wrap_s64 (total + bytesWritten)) e1) as [[[x t] e2] tr].
      cbn in *. constructor; [exact I | exact IH].
Qed.

(** With a bounded sink, the writes of one batch stay inside the batch:
    offset plus count is the batch size throughout. *)
Lemma write_loop_fits (Hwrite : bounded_write write) (batch : Z) (fuel : nat) :
  forall outFd offset bytesRemaining total e,
    0 <= offset -> 0 <= bytesRemaining ->
    offset + bytesRemaining = batch ->
    batch <= BLOCK_COUNT * DVD_VIDEO_LB_LEN ->
    Forall fits_buffer (write_loop write fuel outFd offset bytesRemaining total e).2.
Proof.
  induction fuel as [| fuel IH]; intros outFd offset bytesRemaining total e
    Hoff Hrem Hsum Hbatch; cbn [write_loop];
    (destruct (Z.gtb_spec bytesRemaining 0) as [Hpos | _]; [| constructor]).
  - constructor.
  - pose proof (Hwrite e outFd offset bytesRemaining) as Hbound.
    destruct (write e outFd offset bytesRemaining) as [[bytesWritten errno] e1].
    cbn in Hbound.
    assert (Hev : fits_buffer (EvWrite outFd offset bytesRemaining bytesWritten errno))
      by (cbn; lia).
    destruct (Z.ltb_spec bytesWritten 0).
    + destruct (errno =? EPIPE); [constructor; [exact Hev | constructor] |].
      destruct ((errno =? EAGAIN) || (errno =? EWOULDBLOCK));
        [| constructor; [exact Hev | constructor]].
      specialize (IH outFd offset bytesRemaining total e1 Hoff Hrem Hsum Hbatch).
      destruct (write_loop write fuel outFd offset bytesRemaining total e1)
        as [[[x t] e2] tr]. cbn in *. constructor; [exact Hev | exact IH].
    + destruct (Z.eqb_spec bytesWritten 0); [constructor; [exact Hev | constructor] |].
      assert (Hnext : wrap_u64 (bytesRemaining - bytesWritten)
                      = bytesRemaining - bytesWritten).
      { unfold wrap_u64. apply Z.mod_small.
        unfold BLOCK_COUNT, DVD_VIDEO_LB_LEN in *. lia. }
      rewrite Hnext.
      specialize (IH outFd (offset + bytesWritten) (bytesRemaining - bytesWritten)
                    (wrap_s64 (total + bytesWritten)) e1
                    ltac:(lia) ltac:(lia) ltac:(lia) Hbatch).
      destruct (write_loop write fuel outFd (offset + bytesWritten)
                  (bytesRemaining - bytesWritten)
                  (wrap_s64 (total + bytesWritten)) e1) as [[[x t] e2] tr].
      cbn in *. constructor; [exact Hev | exact IH].
Qed.

Lemma blocksToRead_fits (lastSector currentBlock : Z) :
  let blocksRemaining := wrap_u32 (lastSector - currentBlock + 1) in
  0 <= (if blocksRemaining >? BLOCK_COUNT then BLOCK_COUNT else blocksRemaining)
    <= BLOCK_COUNT.
Proof.
  cbv zeta. unfold BLOCK_COUNT, wrap_u32.
  pose proof (Z.mod_pos_bound (lastSector - currentBlock + 1) (2 ^ 32) ltac:(lia)).
  destruct (Z.gtb_spec ((lastSector - currentBlock + 1) mod 2 ^ 32) 128); lia.
Qed.

Lemma read_loop_read_fits (fuel : nat) :
  forall vob outFd lastSector currentBlock total e,
    Forall read_fits
      (read_loop DVDReadBlocks write fuel vob outFd lastSector currentBlock total e).2.
Proof.
  induction fuel as [| fuel IH]; intros vob outFd lastSector currentBlock total e;
    cbn [read_loop]; (destruct (currentBlock <=? lastSector); [| constructor]).
  - constructor.
  - cbv zeta. pose proof (blocksToRead_fits lastSector currentBlock) as Hfit.
    cbv zeta in Hfit.
    destruct (DVDReadBlocks e vob (block_arg currentBlock) _) as [n e1].
    destruct (n <=? 0).
    + specialize (IH vob outFd lastSector (wrap_u32 (currentBlock + 1)) total e1).
      destruct (read_loop DVDReadBlocks write fuel vob outFd lastSector
                  (wrap_u32 (currentBlock + 1)) total e1) as [[[x t] e2] tr].
      cbn in *. constructor; [exact Hfit | exact IH].
    + pose proof (write_loop_read_fits fuel outFd 0
                    (wrap_u64 (n * DVD_VIDEO_LB_LEN)) total e1) as Hw.
      destruct (write_loop write fuel outFd 0 (wrap_u64 (n * DVD_VIDEO_LB_LEN)) total e1)
        as [[[xw t1] e2] trw].
      destruct xw.
      * specialize (IH vob outFd lastSector (wrap_u32 (currentBlock + n)) t1 e2).
        destruct (read_loop DVDReadBlocks write fuel vob outFd lastSector
                    (wrap_u32 (currentBlock + n)) t1 e2) as [[[x t] e3] tr].
        cbn in *. constructor; [exact Hfit |]. apply Forall_app. split; assumption.
      * cbn in *. constructor; [exact Hfit | exact Hw].
      * cbn in *. constructor; [exact Hfit | exact Hw].
Qed.

Lemma read_loop_fits (Hread : bounded_read DVDReadBlocks)
    (Hwrite : bounded_write write) (fuel : nat) :
  forall vob outFd lastSector currentBlock total e,
    Forall fits_buffer
      (read_loop DVDReadBlocks write fuel vob outFd lastSector currentBlock total e).2.
Proof.
  induction fuel as [| fuel IH]; intros vob outFd lastSector currentBlock total e;
    cbn [read_loop]; (destruct (currentBlock <=? lastSector); [| constructor]).
  - constructor.
  - cbv zeta. pose proof (blocksToRead_fits lastSector currentBlock) as Hfit.
    cbv zeta in Hfit.
    pose proof (Hread e vob (block_arg currentBlock)
                  (if wrap_u32 (lastSector - currentBlock + 1) >? BLOCK_COUNT
                   then BLOCK_COUNT else wrap_u32 (lastSector - currentBlock + 1)))
      as Hbound.
    destruct (DVDReadBlocks e vob (block_arg currentBlock) _) as [n e1]. cbn in Hbound.
    destruct (Z.leb_spec n 0) as [_ | Hpos].
    + specialize (IH vob outFd lastSector (wrap_u32 (currentBlock + 1)) total e1).
      destruct (read_loop DVDReadBlocks write fuel vob outFd lastSector
                  (wrap_u32 (currentBlock + 1)) total e1) as [[[x t] e2] tr].
      cbn in *. constructor; [exact Hfit | exact IH].
    + assert (Hbytes : wrap_u64 (n * DVD_VIDEO_LB_LEN) = n * DVD_VIDEO_LB_LEN).
      { unfold wrap_u64. apply Z.mod_small.
        unfold BLOCK_COUNT, DVD_VIDEO_LB_LEN in *. lia. }
      rewrite Hbytes.
      pose proof (write_loop_fits Hwrite (n * DVD_VIDEO_LB_LEN) fuel outFd 0
                    (n * DVD_VIDEO_LB_LEN) total e1 ltac:(lia)
                    ltac:(unfold DVD_VIDEO_LB_LEN; lia) ltac:(lia)
                    ltac:(unfold BLOCK_COUNT, DVD_VIDEO_LB_LEN in *; lia)) as Hw.
      destruct (write_loop write fuel outFd 0 (n * DVD_VIDEO_LB_LEN) total e1)
        as [[[xw t1] e2] trw].
      destruct xw.
      * specialize (IH vob outFd lastSector (wrap_u32 (currentBlock + n)) t1 e2).
        destruct (read_loop DVDReadBlocks write fuel vob outFd lastSector
                    (wrap_u32 (currentBlock + n)) t1 e2) as [[[x t] e3] tr].
        cbn in *. constructor; [exact Hfit |]. apply Forall_app. split; assumption.
      * cbn in *. constructor; [exact Hfit | exact Hw].
      * cbn in *. constructor; [exact Hfit | exact Hw].
Qed.

(** A property of the events that every read loop keeps holds for a run
    over any list of ranges. *)
Lemma read_ranges_Forall (P : event -> Prop) (fuel : nat) (vob : dvd_file_t) (outFd : Z) :
  (forall lastSector currentBlock total e,
     Forall P (read_loop DVDReadBlocks write fuel vob outFd lastSector
                 currentBlock total e).2) ->
  forall ranges total e,
    Forall P (read_ranges DVDReadBlocks write fuel vob outFd ranges total e).2.
Proof.
  intros Hloop. induction ranges as [| [f l] rest IH]; intros total e;
    cbn [read_ranges]; [constructor |].
  specialize (Hloop l f total e).
  destruct (read_loop DVDReadBlocks write fuel vob outFd l f total e)
    as [[[x1 t1] e1] tr1].
  destruct x1; try exact Hloop.
  specialize (IH t1 e1).
  destruct (read_ranges DVDReadBlocks write fuel vob outFd rest t1 e1)
    as [[[x t] e2] tr].
  cbn in *. apply Forall_app. split; assumption.
Qed.

(** The events of a whole call are those of a run over ranges, or none. *)
Lemma dvdStreamToFdNative_events (g_dvdHandles : gmap Z dvd_reader_t)
    (handle titleNumber outFd : Z) (fuel : nat) (e : E) :
  (dvdStreamToFdNative DVDReadBlocks write g_dvdHandles handle titleNumber
     outFd fuel e).1.2 = [] \/
  exists vob ranges,
    (dvdStreamToFdNative DVDReadBlocks write g_dvdHandles handle titleNumber
       outFd fuel e).1.2
    = (read_ranges DVDReadBlocks write fuel vob outFd ranges 0 e).2.
Proof.
  unfold dvdStreamToFdNative.
  repeat (case_match; try (left; reflexivity)).
  right. rewrite stream_cells_valid_ranges.
  match goal with
  | |- context [read_ranges _ _ _ ?vob _ ?ranges _ _] => exists vob, ranges
  end.
  destruct (read_ranges DVDReadBlocks write fuel _ outFd _ 0 e) as [[[x total] e2] tr].
  destruct x; reflexivity.
Qed.

End BufferProperties.

(** X18.  In every run of the streaming call, whatever the backend and
    the sink do, each read asks for between 0 and 128 blocks, the capacity
    of the read buffer; and when the backend never reports more blocks
    than asked for and the sink never reports more bytes than offered,
    each write lies inside the buffer: its offset is not negative, its
    count is positive, and offset plus count is at most 128 * 2048. *)
Theorem stream_stays_within_buffer {E : Type}
    (DVDReadBlocks : E -> dvd_file_t -> Z -> Z -> Z * E)
    (write : E -> Z -> Z -> Z -> (Z * Z) * E)
    (g_dvdHandles : gmap Z dvd_reader_t)
    (handle titleNumber outFd : Z) (fuel : nat) (e e' : E)
    (res : stream_result) (tr : list event) :
  dvdStreamToFdNative DVDReadBlocks write g_dvdHandles handle titleNumber outFd fuel e
    = (res, tr, e') ->
  Forall read_fits tr /\
  (bounded_read DVDReadBlocks -> bounded_write write -> Forall fits_buffer tr).
Proof.
  intros Hrun.
  destruct (dvdStreamToFdNative_events DVDReadBlocks write g_dvdHandles handle
              titleNumber outFd fuel e) as [Hnil | (vob & ranges & Heq)];
    rewrite Hrun in *; cbn in *; subst tr.
  - split; [constructor | intros _ _; constructor].
  - split.
    + apply read_ranges_Forall. intros. apply read_loop_read_fits.
    + intros Hread Hwrite. apply read_ranges_Forall. intros.
      apply read_loop_fits; assumption.
Qed.

Lemma stream_stays_within_buffer_witness :
  Forall fits_buffer
    [EvRead 1 100 4 4; EvWrite 7 0 8192 8192 0; EvRead 1 300 2 2; EvWrite 7 0 4096 4096 0].
Proof.
  destruct (stream_stays_within_buffer scripted_read accepting_write sample_handles
              1 1 7 10 [] [] (Returned 12288)
              [EvRead 1 100 4 4; EvWrite 7 0 8192 8192 0;
               EvRead 1 300 2 2; EvWrite 7 0 4096 4096 0] eq_refl) as [_ Hfits].
  apply Hfits.
  - intros e file block count. cbn. lia.
  - intros e fd offset count. cbn. lia.
Defined.

(** ** Running into the top sector *)

(** X19.  When the chain of a resolved title has a valid cell whose last
    sector is 2^32 - 1, the streaming call never gets past that cell: the
    32-bit comparison [currentBlock <= lastSector] stays true whatever the
    backend answers.  So a run of any length either is still in its loops,
    or has been stopped by the sink (its last event is a stopping write);
    with a sink that takes every byte offered, the call does not return
    however long it runs. *)
Theorem top_sector_cell_never_completes {E : Type}
    (DVDReadBlocks : E -> dvd_file_t -> Z -> Z -> Z * E)
    (write : E -> Z -> Z -> Z -> (Z * Z) * E)
    (g_dvdHandles : gmap Z dvd_reader_t) (handle titleNumber : Z)
    (dvd : dvd_reader_t) (vtsN : Z) (p : pgc_t) (vob : dvd_file_t)
    (c : cell_playback_t) (outFd : Z) (fuel : nat) (e e' : E)
    (res : stream_result) (tr : list event) :
  resolves_to g_dvdHandles handle titleNumber dvd vtsN p ->
  DVDOpenFile dvd vtsN = Some vob ->
  c ∈ cell_playback p ->
  first_sector c <= last_sector c ->
  last_sector c = 2 ^ 32 - 1 ->
  dvdStreamToFdNative DVDReadBlocks write g_dvdHandles handle titleNumber outFd fuel e
    = (res, tr, e') ->
  (res = OutOfFuel \/ exists body ev, tr = body ++ [ev] /\ stops ev = true) /\
  (accepts write -> res = OutOfFuel).
Proof.
  intros Hres Hvob Hc Hvalid Htop Hrun.
  rewrite (dvdStreamToFdNative_resolved DVDReadBlocks write _ _ _ _ _ _ _ _ _ Hres),
    Hvob in Hrun.
  assert (Hin : (first_sector c, 2 ^ 32 - 1) ∈ valid_ranges (cell_playback p)).
  { unfold valid_ranges. apply list_elem_of_fmap. exists c. split.
    - unfold cell_range. rewrite Htop. reflexivity.
    - apply list_elem_of_In, filter_In. split; [apply list_elem_of_In; exact Hc |].
      unfold valid_cell. apply Z.leb_le. exact Hvalid. }
  pose proof (read_ranges_top DVDReadBlocks write fuel vob outFd _ _ 0 e Hin
                ltac:(lia)) as Hnot.
  pose proof (read_ranges_ok DVDReadBlocks write fuel vob outFd
                (valid_ranges (cell_playback p)) 0 e) as Hok.
  pose proof (fun Ha => read_ranges_accepts_goes_on DVDReadBlocks write Ha fuel vob outFd
                (valid_ranges (cell_playback p)) 0 e) as Hgo.
  destruct (read_ranges DVDReadBlocks write fuel vob outFd
              (valid_ranges (cell_playback p)) 0 e) as [[[x total] e2] tr2].
  cbn in Hnot, Hgo. unfold stream_return in Hrun.
  destruct x; [exfalso; apply Hnot; reflexivity | |];
    injection Hrun as <- <- <-.
  - split.
    + right. destruct Hok as [(body & ev & -> & _ & Hstop) _]. eauto.
    + intros Ha. exfalso. apply (Hgo Ha). reflexivity.
  - split; [left; reflexivity | intros _; reflexivity].
Qed.

Lemma top_sector_cell_never_completes_witness :
  (dvdStreamToFdNative scripted_read accepting_write endless_handles 1 1 7 40 []).1.1
  = OutOfFuel.
Proof.
  destruct (dvdStreamToFdNative scripted_read accepting_write endless_handles 1 1 7 40 [])
    as [[res tr] e'] eqn:Hrun.
  refine (proj2 (top_sector_cell_never_completes scripted_read accepting_write
                   endless_handles 1 1 endless_dvd 1 endless_chain 1
                   (sample_cell 1 0 (2 ^ 32 - 1)) 7 40 [] e' res tr
                   _ eq_refl _ _ eq_refl Hrun) _).
  - exists sample_vmg,
      {| title := [ {| nr_of_angles := 1; nr_of_ptts := 2;
                       title_set_nr := 1; vts_ttn := 1 |} ] |},
      {| nr_of_angles := 1; nr_of_ptts := 2; title_set_nr := 1; vts_ttn := 1 |},
      {| tt_srpt := None; vtsi_mat := None; vts_ptt_srpt := None;
         vts_pgcit := Some {| pgci_srp := [ {| pgc := Some endless_chain |} ] |} |}.
    repeat split; try reflexivity; try lia.
  - left.
  - cbn. lia.
  - intros e fd offset count. reflexivity.
Defined.

(** ** The sectors a run reads *)

(** X20.  On a resolved title whose valid cells lie below sector 2^31
    (the block numbers the read call can take), with a backend that
    delivers every block asked for and a sink that takes every byte
    offered, a long enough run of the streaming call returns, and the
    sectors it obtained from the backend are exactly the sectors of the
    valid cells of the chain, cell after cell in chain order and ascending
    inside each cell: no sector is left out and none is read twice by the
    loop itself. *)
Theorem stream_reads_each_sector_once {E : Type}
    (DVDReadBlocks : E -> dvd_file_t -> Z -> Z -> Z * E)
    (write : E -> Z -> Z -> Z -> (Z * Z) * E)
    (g_dvdHandles : gmap Z dvd_reader_t) (handle titleNumber : Z)
    (dvd : dvd_reader_t) (vtsN : Z) (p : pgc_t) (vob : dvd_file_t) (outFd : Z) :
  resolves_to g_dvdHandles handle titleNumber dvd vtsN p ->
  DVDOpenFile dvd vtsN = Some vob ->
  delivers DVDReadBlocks ->
  accepts write ->
  (forall c, c ∈ cell_playback p -> first_sector c <= last_sector c ->
             0 <= first_sector c /\ last_sector c < 2 ^ 31) ->
  DVD_VIDEO_LB_LEN * range_sectors (valid_ranges (cell_playback p)) < 2 ^ 63 ->
  exists fuel, forall e, exists tr e',
    dvdStreamToFdNative DVDReadBlocks write g_dvdHandles handle titleNumber outFd fuel e
      = (Returned (DVD_VIDEO_LB_LEN * range_sectors (valid_ranges (cell_playback p))),
         tr, e') /\
    sectors_read tr = range_sector_list (valid_ranges (cell_playback p)).
Proof.
  intros Hres Hvob Hdel Hacc Hcells Hfit.
  pose proof (valid_ranges_bounds _ _ Hcells) as Hranges.
  destruct (dvdStreamToFdNative_covers DVDReadBlocks write Hdel Hacc
              _ _ _ dvd vtsN p vob outFd Hres Hvob) as [fuel Hrun].
  { intros r Hr. specialize (Hranges r Hr). lia. }
  { exact Hfit. }
  exists fuel. intros e. destruct (Hrun e) as (tr & e' & Heq & _ & Hsec).
  exists tr, e'. split; [exact Heq |].
  apply Hsec. intros r Hr. apply Hranges. exact Hr.
Qed.

Lemma stream_reads_each_sector_once_witness :
  exists fuel, forall e, exists tr e',
    dvdStreamToFdNative scripted_read accepting_write sample_handles 1 1 7 fuel e
      = (Returned 12288, tr, e') /\
    sectors_read tr = [100; 101; 102; 103; 300; 301].
Proof.
  apply (stream_reads_each_sector_once scripted_read accepting_write sample_handles
           1 1 sample_dvd 1 sample_chain_b 1 7).
  - exact sample_resolves_to_chain_b.
  - reflexivity.
  - intros e file block count. reflexivity.
  - intros e fd offset count. reflexivity.
  - intros c Hc Hvalid. cbn in Hc.
    repeat (apply elem_of_cons in Hc as [-> | Hc]); cbn in *; try lia.
    apply elem_of_nil in Hc. contradiction.
  - vm_compute. reflexivity.
Defined.

(** ** A backend on which every read fails *)

Section Unreadable.

Context {E : Type}.
Variable DVDReadBlocks : E -> dvd_file_t -> Z -> Z -> Z * E.
Variable write : E -> Z -> Z -> Z -> (Z * Z) * E.
Hypothesis Hunreadable : unreadable DVDReadBlocks.

(** After a failed read the loop moves on by one block, so it tries every
    block of the range in turn and never reaches the write loop. *)
Lemma read_loop_unreadable (vob : dvd_file_t) (outFd lastSector : Z) :
  lastSector < 2 ^ 31 ->
  forall (fuel : nat) (currentBlock total : Z) (e : E),
    0 <= currentBlock <= lastSector + 1 ->
    (Z.to_nat (lastSector - currentBlock + 1) + 1 <= fuel)%nat ->
    exists e' tr,
      read_loop DVDReadBlocks write fuel vob outFd lastSector currentBlock total e
        = (Completed, total, e', tr) /\
      Forall failed_read tr /\
      blocks_tried tr = seqZ currentBlock (lastSector - currentBlock + 1).
Proof.
  intros Htop.
  induction fuel as [| fuel IH]; intros currentBlock total e Hcur Hfuel; [lia |].
  cbn [read_loop].
  destruct (Z.leb_spec currentBlock lastSector) as [Hle | Hgt].
  2:{ rewrite seqZ_nil by lia. eexists _, _. repeat split. constructor. }
  cbv zeta.
  match goal with
  | |- context [DVDReadBlocks e vob (block_arg currentBlock) ?count] =>
      pose proof (Hunreadable e vob (block_arg currentBlock) count) as Hr;
      destruct (DVDReadBlocks e vob (block_arg currentBlock) count) as [blocksActuallyRead e1]
  end.
  cbn in Hr.
  destruct (Z.leb_spec blocksActuallyRead 0) as [_ | ?]; [| lia].
  assert (Hnext : wrap_u32 (currentBlock + 1) = currentBlock + 1).
  { unfold wrap_u32. apply Z.mod_small. lia. }
  rewrite Hnext.
  destruct (IH (currentBlock + 1) total e1) as (e2 & tr & Hrest & Hfailed & Htried);
    try lia.
  rewrite Hrest. eexists _, _. split; [reflexivity |]. split.
  - constructor; [exact Hr | exact Hfailed].
  - cbn [blocks_tried flat_map app]. fold (blocks_tried tr). rewrite Htried.
    rewrite block_arg_id by lia.
    rewrite (seqZ_cons currentBlock) by lia. f_equal. f_equal; lia.
Qed.

Lemma read_ranges_unreadable (vob : dvd_file_t) (outFd : Z) (fuel : nat) :
  forall (ranges : list (Z * Z)) (total : Z) (e : E),
    (forall r, r ∈ ranges -> 0 <= r.1 <= r.2 /\ r.2 < 2 ^ 31) ->
    (Z.to_nat (range_sectors ranges) + 1 <= fuel)%nat ->
    exists e' tr,
      read_ranges DVDReadBlocks write fuel vob outFd ranges total e
        = (Completed, total, e', tr) /\
      Forall failed_read tr /\
      blocks_tried tr = range_sector_list ranges.
Proof.
  induction ranges as [| [f l] rest IH]; intros total e Hall Hfuel.
  - cbn. eexists _, _. repeat split. constructor.
  - rewrite range_sectors_cons in *.
    pose proof (Hall (f, l) ltac:(left)) as Hfl. cbn in Hfl.
    assert (Hrest : forall r, r ∈ rest -> 0 <= r.1 <= r.2 /\ r.2 < 2 ^ 31)
      by (intros r Hr; apply Hall; right; exact Hr).
    assert (0 <= range_sectors rest)
      by (apply range_sectors_nonneg; intros r Hr; apply Hrest; exact Hr).
    cbn [read_ranges].
    destruct (read_loop_unreadable vob outFd l ltac:(lia) fuel f total e)
      as (e1 & tr1 & Hloop & Hfailed1 & Htried1); try lia.
    rewrite Hloop.
    destruct (IH total e1 Hrest) as (e2 & tr & Hrest' & Hfailed & Htried); try lia.
    rewrite Hrest'. eexists _, _. split; [reflexivity |]. split.
    + apply Forall_app. split; assumption.
    + unfold blocks_tried in *. rewrite flat_map_app, Htried1, Htried.
      reflexivity.
Qed.

End Unreadable.

(** X21.  On a resolved title whose valid cells lie below sector 2^31
    (the block numbers the read call can take), when every read of the
    backend fails, a long enough run of the streaming call returns 0 and
    not an error value; it never writes to the sink, and it has tried a
    read at every single sector of every valid cell, one block further
    after each failure. *)
Theorem unreadable_disc_returns_zero {E : Type}
    (DVDReadBlocks : E -> dvd_file_t -> Z -> Z -> Z * E)
    (write : E -> Z -> Z -> Z -> (Z * Z) * E)
    (g_dvdHandles : gmap Z dvd_reader_t) (handle titleNumber : Z)
    (dvd : dvd_reader_t) (vtsN : Z) (p : pgc_t) (vob : dvd_file_t) (outFd : Z) :
  resolves_to g_dvdHandles handle titleNumber dvd vtsN p ->
  DVDOpenFile dvd vtsN = Some vob ->
  unreadable DVDReadBlocks ->
  (forall c, c ∈ cell_playback p -> first_sector c <= last_sector c ->
             0 <= first_sector c /\ last_sector c < 2 ^ 31) ->
  exists fuel, forall e, exists tr e',
    dvdStreamToFdNative DVDReadBlocks write g_dvdHandles handle titleNumber outFd fuel e
      = (Returned 0, tr, e') /\
    Forall failed_read tr /\
    blocks_tried tr = range_sector_list (valid_ranges (cell_playback p)).
Proof.
  intros Hres Hvob Hbad Hcells.
  exists (Z.to_nat (range_sectors (valid_ranges (cell_playback p))) + 1)%nat.
  intros e.
  rewrite (dvdStreamToFdNative_resolved DVDReadBlocks write _ _ _ _ _ _ _ _ _ Hres), Hvob.
  destruct (read_ranges_unreadable DVDReadBlocks write Hbad vob outFd
              (Z.to_nat (range_sectors (valid_ranges (cell_playback p))) + 1)
              (valid_ranges (cell_playback p)) 0 e
              (valid_ranges_bounds _ _ Hcells))
    as (e' & tr & Hrun & Hfailed & Htried); [lia |].
  rewrite Hrun. exists tr, e'. repeat split; assumption.
Qed.

Lemma unreadable_disc_returns_zero_witness :
  exists fuel, forall e, exists tr e',
    dvdStreamToFdNative failing_read accepting_write sample_handles 1 1 7 fuel e
      = (Returned 0, tr, e') /\
    Forall failed_read tr /\
    blocks_tried tr = [100; 101; 102; 103; 300; 301].
Proof.
  apply (unreadable_disc_returns_zero failing_read accepting_write sample_handles
           1 1 sample_dvd 1 sample_chain_b 1 7).
  - exact sample_resolves_to_chain_b.
  - reflexivity.
  - intros e file block count. cbn. lia.
  - intros c Hc Hvalid. cbn in Hc.
    repeat (apply elem_of_cons in Hc as [-> | Hc]); cbn in *; try lia.
    apply elem_of_nil in Hc. contradiction.
Defined.

(** ** Subtitle tracks *)

(** X22.  For a title of the title table whose title set has its
    attribute table and at least one subpicture stream, the subtitle query
    returns min(stream count, 32) tracks.  Track i carries index i and is
    decoded from attribute i: the type is "rle" when the low two bits of
    the coding mode are 0, "extended" when they are 1 and "subpicture"
    otherwise; the language is the two lower-cased letters of the language
    code, or null when the code is not two ASCII letters. *)
Theorem subtitle_tracks_decoded (g_dvdHandles : gmap Z dvd_reader_t)
    (handle titleNumber : Z) (dvd : dvd_reader_t) (vmg vts : ifo_handle_t)
    (srpt : tt_srpt_t) (entry : title_info_t) (mat : vtsi_mat_t) :
  g_dvdHandles !! handle = Some dvd ->
  ifoOpen dvd 0 = Some vmg ->
  tt_srpt vmg = Some srpt ->
  1 <= titleNumber ->
  title srpt !! Z.to_nat (titleNumber - 1) = Some entry ->
  ifoOpen dvd (title_set_nr entry) = Some vts ->
  vtsi_mat vts = Some mat ->
  length (vts_subp_attr mat) = 32%nat ->
  0 < nr_of_vts_subp_streams mat ->
  exists tracks,
    dvdGetSubtitleTracksNative g_dvdHandles handle titleNumber = Value (Some tracks) /\
    Z.of_nat (length tracks) = Z.min (nr_of_vts_subp_streams mat) 32 /\
    forall (i : nat) (t : DvdSubtitleTrackNative),
      tracks !! i = Some t ->
      exists attr,
        vts_subp_attr mat !! i = Some attr /\
        subp_index t = Z.of_nat i /\
        (code_mode attr mod 4 = 0 -> subp_type t = "rle"%string) /\
        (code_mode attr mod 4 = 1 -> subp_type t = "extended"%string) /\
        (2 <= code_mode attr mod 4 -> subp_type t = "subpicture"%string) /\
        let a := Z.land (Z.shiftr (subp_lang_code attr) 8) 255 in
        let b := Z.land (subp_lang_code attr) 255 in
        (ascii_letter a /\ ascii_letter b ->
           subp_language t = Some (two_letters (lower_case a) (lower_case b))) /\
        (~ (ascii_letter a /\ ascii_letter b) -> subp_language t = None).
Proof.
  intros Hh Hvmg Hsrpt Htn Hentry Hvts Hmat Hlen Hcount.
  pose proof (title_lookup_in_range _ _ _ Htn Hentry) as Hin.
  unfold dvdGetSubtitleTracksNative. rewrite Hh, Hvmg, Hsrpt.
  rewrite (title_check_passes _ _ Hin),
    (at_index_lookup (title srpt) (titleNumber - 1) entry ltac:(lia) Hentry). cbn.
  rewrite Hvts, Hmat.
  destruct (Z.leb_spec (nr_of_vts_subp_streams mat) 0) as [| _]; [lia |].
  set (count := if nr_of_vts_subp_streams mat >? 32 then 32
                else nr_of_vts_subp_streams mat).
  assert (Hc : count = Z.min (nr_of_vts_subp_streams mat) 32).
  { unfold count. destruct (Z.gtb_spec (nr_of_vts_subp_streams mat) 32); lia. }
  destruct (for_range_lookup (subtitle_track mat) (Z.to_nat count) 0)
    as (tracks & Htracks & Hlen' & Hall).
  { intros k Hk. unfold subtitle_track. cbn.
    destruct (lookup_lt_is_Some_2 (vts_subp_attr mat) k ltac:(lia)) as [attr Hattr].
    rewrite (at_index_lookup (vts_subp_attr mat) (0 + Z.of_nat k) attr ltac:(lia))
      by (rewrite Z.add_0_l, Nat2Z.id; exact Hattr).
    cbn. eauto. }
  exists tracks. rewrite Htracks. cbn.
  split; [reflexivity |]. split; [lia |].
  intros i t Hi. specialize (Hall i t Hi). rewrite Z.add_0_l in Hall.
  unfold subtitle_track in Hall.
  destruct (at_index (vts_subp_attr mat) (Z.of_nat i)) as [attr |] eqn:Hattr;
    cbn in Hall; [| discriminate].
  injection Hall as <-. cbn [subp_index subp_language subp_type].
  apply at_index_Value in Hattr as [_ Hattr]. rewrite Nat2Z.id in Hattr.
  exists attr. split; [exact Hattr |]. split; [reflexivity |].
  assert (Hbits : Z.land (code_mode attr) 3 = code_mode attr mod 4).
  { change 3 with (Z.ones 2). rewrite Z.land_ones by lia. reflexivity. }
  rewrite Hbits.
  pose proof (Z.mod_pos_bound (code_mode attr) 4 ltac:(lia)) as Hrange.
  split; [intros ->; reflexivity |].
  split; [intros ->; reflexivity |].
  split.
  { intros Hhigh.
    destruct (Z.eqb_spec (code_mode attr mod 4) 0) as [? | _]; [lia |].
    destruct (Z.eqb_spec (code_mode attr mod 4) 1) as [? | _]; [lia |].
    reflexivity. }
  destruct (langCodeToString_spec (subp_lang_code attr)) as [Hyes Hno].
  split.
  - intros Hab. rewrite (Hyes Hab). reflexivity.
  - intros Hab. rewrite (Hno Hab). reflexivity.
Qed.

Lemma subtitle_tracks_decoded_witness :
  exists tracks,
    dvdGetSubtitleTracksNative subtitled_handles 1 1 = Value (Some tracks) /\
    Z.of_nat (length tracks) = 3 /\
    forall t, tracks !! 2%nat = Some t ->
              subp_type t = "subpicture"%string /\ subp_language t = None.
Proof.
  destruct (subtitle_tracks_decoded subtitled_handles 1 1 subtitled_dvd sample_vmg
              subtitled_vts
              {| title := [ {| nr_of_angles := 1; nr_of_ptts := 2;
                               title_set_nr := 1; vts_ttn := 1 |} ] |}
              {| nr_of_angles := 1; nr_of_ptts := 2; title_set_nr := 1; vts_ttn := 1 |}
              subtitled_vtsi_mat)
    as (tracks & Hret & Hlen & Hall).
  - reflexivity.
  - reflexivity.
  - reflexivity.
  - lia.
  - reflexivity.
  - reflexivity.
  - reflexivity.
  - reflexivity.
  - reflexivity.
  - exists tracks. split; [exact Hret |]. split; [exact Hlen |].
    intros t Ht. destruct (Hall 2%nat t Ht) as (attr & Hattr & _ & _ & _ & Hsub & _ & Hnone).
    injection Hattr as <-. split.
    + apply Hsub. vm_compute. discriminate.
    + apply Hnone. vm_compute. intros [[[H _] | [H _]] _]; apply H; reflexivity.
Defined.

(** ** Handles that were never issued *)

(** X23.  In every state the handle tables can reach, a disc handle that
    is not positive, or not below the next handle id, was never issued,
    and every entry point rejects it without touching a disc: the title
    count is -1, the title, audio, subtitle, chapter, offset and name
    queries are absent, streaming returns -1 without reading or writing,
    opening a VOB file returns -1 and closing the handle changes
    nothing. *)
Theorem unissued_handle_rejected {D E : Type}
    (DVDOpen : string -> option dvd_reader_t)
    (DVDOpenStream : D -> option dvd_reader_t)
    (DVDReadBlocks : E -> dvd_file_t -> Z -> Z -> Z * E)
    (write : E -> Z -> Z -> Z -> (Z * Z) * E)
    (ifoOpen_name : dvd_reader_t -> option vmg_name_t)
    (ifoRead_TXTDT_MGI : vmg_name_t -> option txtdt_mgi_t)
    (calls : list table_call) (handle : Z) :
  Z.of_nat (length calls) < 2 ^ 63 - 1 ->
  let st := table_run DVDOpen DVDOpenStream calls initial_globals in
  handle <= 0 \/ g_nextHandleId st <= handle ->
  dvdGetTitleCountNative (g_dvdHandles st) handle = -1 /\
  dvdGetNameNative ifoOpen_name ifoRead_TXTDT_MGI (g_dvdHandles st) handle = None /\
  (forall titleNumber,
     dvdReadTitleNative (g_dvdHandles st) handle titleNumber = Value None /\
     dvdGetAudioTracksNative (g_dvdHandles st) handle titleNumber = Value None /\
     dvdGetSubtitleTracksNative (g_dvdHandles st) handle titleNumber = Value None /\
     dvdGetVobOffsetsNative (g_dvdHandles st) handle titleNumber = Value None /\
     (forall chapterNumber,
        dvdReadChapterNative (g_dvdHandles st) handle titleNumber chapterNumber
          = Value None) /\
     (forall outFd fuel e,
        dvdStreamToFdNative DVDReadBlocks write (g_dvdHandles st) handle titleNumber
          outFd fuel e = (Returned (-1), [], e))) /\
  (forall vtsN, dvdOpenVobFileNative st handle vtsN = (-1, st)) /\
  dvdCloseNative st handle = st.
Proof.
  intros Hlen st Hhandle.
  destruct (reachable_tables_ok_from_initial DVDOpen DVDOpenStream calls Hlen)
    as [[_ Hids] _].
  fold st in Hids.
  assert (Hnone : g_dvdHandles st !! handle = None).
  { destruct (g_dvdHandles st !! handle) as [dvd |] eqn:Hdvd; [| reflexivity].
    specialize (Hids handle dvd Hdvd). lia. }
  unfold dvdGetTitleCountNative, dvdGetNameNative, dvdReadTitleNative,
    dvdGetAudioTracksNative, dvdGetSubtitleTracksNative, dvdGetVobOffsetsNative,
    dvdReadChapterNative, dvdStreamToFdNative, dvdOpenVobFileNative, dvdCloseNative.
  rewrite Hnone. repeat split.
  destruct (handle <=? 0); reflexivity.
Qed.

Lemma unissued_handle_rejected_witness :
  let st := table_run sample_DVDOpen sample_DVDOpenStream
              [CallOpen (Some "/dev/sr0"%string); CallClose 1] initial_globals in
  dvdGetTitleCountNative (g_dvdHandles st) 2 = -1 /\
  dvdCloseNative st 2 = st.
Proof.
  intros st.
  destruct (unissued_handle_rejected (E := unit) sample_DVDOpen sample_DVDOpenStream
              (fun e _ _ count => (count, e)) (fun e _ _ count => ((count, 0), e))
              sample_ifoOpen_name sample_ifoRead_TXTDT_MGI
              [CallOpen (Some "/dev/sr0"%string); CallClose 1] 2)
    as (Hcount & _ & _ & _ & Hclose).
  - vm_compute. reflexivity.
  - right. vm_compute. discriminate.
  - split; [exact Hcount | exact Hclose].
Defined.

(** ** Program-map entries *)

Lemma chapter_start_loop_zero_entry (p : pgc_t) (k : nat) :
  program_map p !! k = Some 0 ->
  forall (n : nat) (i startTime : Z),
    0 <= i <= Z.of_nat k -> Z.of_nat k < i + Z.of_nat n ->
    chapter_start_loop p n i startTime = Fault.
Proof.
  intros Hk.
  pose proof (lookup_lt_Some _ _ _ Hk) as Hlt.
  induction n as [| n IH]; intros i startTime Hi Hn; [lia |].
  cbn [chapter_start_loop].
  destruct (Z.eq_dec i (Z.of_nat k)) as [-> | Hne].
  - destruct (Z.ltb_spec (Z.of_nat k) (nr_of_programs p)) as [_ | ?];
      [| unfold nr_of_programs in *; lia].
    rewrite (at_index_lookup (program_map p) (Z.of_nat k) 0 ltac:(lia))
      by (rewrite Nat2Z.id; exact Hk).
    rsimpl.
    destruct (Z.ltb_spec (0 - 1) (nr_of_cells p)) as [_ | ?];
      [| unfold nr_of_cells in *; lia].
    rewrite (at_index_negative (cell_playback p) (0 - 1)) by lia.
    reflexivity.
  - match goal with
    | |- mbind _ ?step = _ => destruct step as [startTime' |]
    end; [| reflexivity].
    rsimpl. apply IH; lia.
Qed.

(** X24.  A program-map entry of 0 is not caught by the check
    [cellIdx < nr_of_cells]: the cell index becomes -1 and the cell table
    is read before its start.  So on the chain it reads, the chapter query
    for a chapter number within the program count reads outside the cell
    table whenever the entry of that chapter or of an earlier one is 0. *)
Theorem chapter_zero_entry_reads_before_cells (g_dvdHandles : gmap Z dvd_reader_t)
    (handle titleNumber chapterNumber : Z) (p : pgc_t) (k : nat) :
  reads_chain g_dvdHandles handle titleNumber p ->
  1 <= chapterNumber <= nr_of_programs p ->
  Z.of_nat k < chapterNumber ->
  program_map p !! k = Some 0 ->
  dvdReadChapterNative g_dvdHandles handle titleNumber chapterNumber = Fault.
Proof.
  intros Hchain Hc Hk Hzero.
  rewrite (dvdReadChapterNative_on_chain _ _ _ _ _ Hchain).
  destruct (Z.gtb_spec chapterNumber (nr_of_programs p)) as [? | _]; [lia |].
  destruct (Z.eq_dec (Z.of_nat k) (chapterNumber - 1)) as [Hlast | Hearlier].
  - destruct (chapter_start_loop p (Z.to_nat (chapterNumber - 1)) 0 0)
      as [startTime |]; [| reflexivity].
    rsimpl.
    rewrite (at_index_lookup (program_map p) (chapterNumber - 1) 0 ltac:(lia))
      by (rewrite <- Hlast, Nat2Z.id; exact Hzero).
    rsimpl.
    destruct (Z.ltb_spec (0 - 1) (nr_of_cells p)) as [_ | ?];
      [| unfold nr_of_cells in *; lia].
    rewrite (at_index_negative (cell_playback p) (0 - 1)) by lia.
    reflexivity.
  - rewrite (chapter_start_loop_zero_entry p k Hzero) by lia.
    reflexivity.
Qed.

Lemma chapter_zero_entry_reads_before_cells_witness :
  dvdReadChapterNative subtitled_handles 1 1 2 = Fault.
Proof.
  apply (chapter_zero_entry_reads_before_cells subtitled_handles 1 1 2 gapped_chain 1).
  - exists subtitled_dvd, sample_vmg,
      {| title := [ {| nr_of_angles := 1; nr_of_ptts := 2;
                       title_set_nr := 1; vts_ttn := 1 |} ] |},
      {| nr_of_angles := 1; nr_of_ptts := 2; title_set_nr := 1; vts_ttn := 1 |},
      subtitled_vts,
      {| pgci_srp := [ {| pgc := Some gapped_chain |} ] |},
      {| pgc := Some gapped_chain |}.
    repeat split; try reflexivity; try lia.
  - vm_compute. split; discriminate.
  - lia.
  - reflexivity.
Defined.

(** ** The title set the title and chapter queries open *)

(** X25.  The title query and the chapter query open the title set whose
    number is the in-set title number [vts_ttn] of the title, where the
    audio, offset and streaming calls open the title set [title_set_nr]:
    the title query reports the header of the first chain of title set
    [vts_ttn], and both queries answer absent when no title set has that
    number, whatever the title's own title set holds; the offset query and
    the streaming call fail when the title's own title set cannot be
    opened, whatever title set [vts_ttn] holds. *)
Theorem title_queries_open_in_set_number {E : Type}
    (DVDReadBlocks : E -> dvd_file_t -> Z -> Z -> Z * E)
    (write : E -> Z -> Z -> Z -> (Z * Z) * E)
    (g_dvdHandles : gmap Z dvd_reader_t)
    (handle titleNumber : Z) (dvd : dvd_reader_t) (vmg : ifo_handle_t)
    (srpt : tt_srpt_t) (entry : title_info_t) :
  g_dvdHandles !! handle = Some dvd ->
  ifoOpen dvd 0 = Some vmg ->
  tt_srpt vmg = Some srpt ->
  1 <= titleNumber ->
  title srpt !! Z.to_nat (titleNumber - 1) = Some entry ->
  (ifoOpen dvd (vts_ttn entry) = None ->
     dvdReadTitleNative g_dvdHandles handle titleNumber = Value None /\
     forall chapterNumber,
       dvdReadChapterNative g_dvdHandles handle titleNumber chapterNumber
         = Value None) /\
  (forall vts pgcit srp,
     ifoOpen dvd (vts_ttn entry) = Some vts ->
     vts_pgcit vts = Some pgcit ->
     pgci_srp pgcit !! 0%nat = Some srp ->
     dvdReadTitleNative g_dvdHandles handle titleNumber =
       Value (Some {| title_number := titleNumber;
                      title_chapterCount :=
                        match pgc srp with
                        | Some p => nr_of_programs p
                        | None => 0
                        end;
                      title_duration :=
                        match pgc srp with
                        | Some p => dvdTimeToMs (Some (playback_time p))
                        | None => 0
                        end |})) /\
  (ifoOpen dvd (title_set_nr entry) = None ->
     dvdGetVobOffsetsNative g_dvdHandles handle titleNumber = Value None /\
     forall outFd fuel e,
       dvdStreamToFdNative DVDReadBlocks write g_dvdHandles handle titleNumber
         outFd fuel e = (Returned (-1), [], e)).
Proof.
  intros Hh Hvmg Hsrpt Htn Hentry.
  pose proof (title_lookup_in_range _ _ _ Htn Hentry) as Hin.
  pose proof (at_index_lookup (title srpt) (titleNumber - 1) entry ltac:(lia) Hentry)
    as Hat.
  split; [| split].
  - intros Hnone.
    unfold dvdReadTitleNative, dvdReadChapterNative. rewrite Hh, Hvmg.
    rewrite (title_low_check_passes _ Htn), Hsrpt. rsimpl.
    rewrite (title_high_check_passes _ _ (proj2 Hin)), Hat. rsimpl.
    rewrite Hnone. split; [reflexivity | intros chapterNumber; reflexivity].
  - intros vts pgcit srp Hvts Hpgcit Hsrp.
    unfold dvdReadTitleNative. rewrite Hh, Hvmg.
    rewrite (title_low_check_passes _ Htn), Hsrpt. rsimpl.
    rewrite (title_high_check_passes _ _ (proj2 Hin)), Hat. rsimpl.
    rewrite Hvts, Hpgcit. rsimpl.
    rewrite (at_index_lookup (pgci_srp pgcit) 0 srp ltac:(lia) Hsrp). reflexivity.
  - intros Hnone.
    unfold dvdGetVobOffsetsNative, dvdStreamToFdNative.
    rewrite Hh, Hvmg, Hsrpt. cbv zeta.
    rewrite (title_check_passes _ _ Hin), Hat. rsimpl.
    rewrite Hnone. split; [reflexivity | intros outFd fuel e; reflexivity].
Qed.

Lemma title_queries_open_in_set_number_witness :
  dvdReadTitleNative second_set_handles 1 1 =
    Value (Some {| title_number := 1;
                   title_chapterCount := nr_of_programs sample_chain_a;
                   title_duration :=
                     dvdTimeToMs (Some (playback_time sample_chain_a)) |}) /\
  dvdGetVobOffsetsNative second_set_handles 1 1 = Value (Some [2; 100; 103; 300; 301]).
Proof.
  destruct (title_queries_open_in_set_number scripted_read accepting_write
              second_set_handles 1 1 second_set_dvd second_set_vmg
              {| title := [ {| nr_of_angles := 1; nr_of_ptts := 1;
                               title_set_nr := 2; vts_ttn := 1 |} ] |}
              {| nr_of_angles := 1; nr_of_ptts := 1; title_set_nr := 2; vts_ttn := 1 |})
    as (_ & Htitle & _).
  - reflexivity.
  - reflexivity.
  - reflexivity.
  - lia.
  - reflexivity.
  - split; [| reflexivity].
    exact (Htitle sample_vts
             {| pgci_srp := [ {| pgc := Some sample_chain_a |};
                              {| pgc := Some sample_chain_b |} ] |}
             {| pgc := Some sample_chain_a |} eq_refl eq_refl eq_refl).
Defined.

(** ** Sectors from 2^31 on *)

(** X26.  The read call takes its block number as a signed 32-bit
    integer.  When the first valid cell of a resolved chain begins at a
    sector from 2^31 on, the first read of the streaming call, in any
    run of at least one step, asks the backend for the negative block
    firstSector - 2^32, and not for the sector of the cell. *)
Theorem high_sector_read_gets_negative_block {E : Type}
    (DVDReadBlocks : E -> dvd_file_t -> Z -> Z -> Z * E)
    (write : E -> Z -> Z -> Z -> (Z * Z) * E)
    (g_dvdHandles : gmap Z dvd_reader_t) (handle titleNumber : Z)
    (dvd : dvd_reader_t) (vtsN : Z) (p : pgc_t) (vob : dvd_file_t)
    (firstSector lastSector : Z) (rest : list (Z * Z))
    (outFd : Z) (fuel : nat) (e : E) :
  resolves_to g_dvdHandles handle titleNumber dvd vtsN p ->
  DVDOpenFile dvd vtsN = Some vob ->
  valid_ranges (cell_playback p) = (firstSector, lastSector) :: rest ->
  2 ^ 31 <= firstSector < 2 ^ 32 ->
  exists count ret tr,
    (dvdStreamToFdNative DVDReadBlocks write g_dvdHandles handle titleNumber
       outFd (S fuel) e).1.2
    = EvRead vob (firstSector - 2 ^ 32) count ret :: tr /\
    firstSector - 2 ^ 32 < 0.
Proof.
  intros Hres Hvob Hranges Hhigh.
  rewrite (dvdStreamToFdNative_resolved DVDReadBlocks write _ _ _ _ _ _ _ _ _ Hres),
    Hvob, Hranges.
  assert (Hvalid : firstSector <= lastSector).
  { apply (valid_ranges_valid (cell_playback p) (firstSector, lastSector)).
    rewrite Hranges. left. }
  assert (Harg : block_arg firstSector = firstSector - 2 ^ 32).
  { unfold block_arg, wrap_s32.
    replace (firstSector + 2 ^ 31) with (firstSector - 2 ^ 31 + 1 * 2 ^ 32) by lia.
    rewrite Z.mod_add by lia. rewrite Z.mod_small by lia. lia. }
  cbn [read_ranges read_loop].
  destruct (Z.leb_spec firstSector lastSector) as [_ | ?]; [| lia].
  cbv zeta. rewrite Harg.
  destruct (DVDReadBlocks e vob (firstSector - 2 ^ 32) _) as [n e1].
  destruct (n <=? 0).
  - destruct (read_loop DVDReadBlocks write fuel vob outFd lastSector
                (wrap_u32 (firstSector + 1)) 0 e1) as [[[x t] e2] tr].
    destruct x.
    + destruct (read_ranges DVDReadBlocks write (S fuel) vob outFd rest t e2)
        as [[[x' t'] e3] tr'].
      destruct x'; cbn; eexists _, _, _; (split; [reflexivity | lia]).
    + cbn. eexists _, _, _. split; [reflexivity | lia].
    + cbn. eexists _, _, _. split; [reflexivity | lia].
  - destruct (write_loop write fuel outFd 0 (wrap_u64 (n * DVD_VIDEO_LB_LEN)) 0 e1)
      as [[[xw t1] e2] trw].
    destruct xw.
    + destruct (read_loop DVDReadBlocks write fuel vob outFd lastSector
                  (wrap_u32 (firstSector + n)) t1 e2) as [[[x t] e3] tr].
      destruct x.
      * destruct (read_ranges DVDReadBlocks write (S fuel) vob outFd rest t e3)
          as [[[x' t'] e4] tr'].
        destruct x'; cbn; eexists _, _, _; (split; [reflexivity | lia]).
      * cbn. eexists _, _, _. split; [reflexivity | lia].
      * cbn. eexists _, _, _. split; [reflexivity | lia].
    + cbn. eexists _, _, _. split; [reflexivity | lia].
    + cbn. eexists _, _, _. split; [reflexivity | lia].
Qed.

Lemma high_sector_read_gets_negative_block_witness :
  exists count ret tr,
    (dvdStreamToFdNative scripted_read accepting_write high_handles 1 1 7 3 []).1.2
    = EvRead 1 (- 2 ^ 31) count ret :: tr.
Proof.
  destruct (high_sector_read_gets_negative_block scripted_read accepting_write
              high_handles 1 1 high_dvd 1 high_chain 1 (2 ^ 31) (2 ^ 31 + 1) []
              7 2 [])
    as (count & ret & tr & Heq & _).
  - exists sample_vmg,
      {| title := [ {| nr_of_angles := 1; nr_of_ptts := 2;
                       title_set_nr := 1; vts_ttn := 1 |} ] |},
      {| nr_of_angles := 1; nr_of_ptts := 2; title_set_nr := 1; vts_ttn := 1 |},
      high_vts.
    repeat split; try reflexivity; try lia.
  - reflexivity.
  - reflexivity.
  - lia.
  - exists count, ret, tr. exact Heq.
Defined.
